(** * Call signalling core of gestorproyectos_websocket

    A shallow embedding of [src/handlers/callHandler.js] (class
    [CallHandler]) and of the part of [src/server.js] that feeds it, with
    the properties of the call-session bookkeeping proved about it.

    Conventions of the embedding.
    - Every JavaScript value used as a user identity, call identifier or
      socket identifier is a natural number (any injective numbering:
      [Map], [Set] and [===] only compare such values).  A payload field
      that may be falsy ([callId], [callType], [senderName], [reason]) is
      an [option], with [None] for the falsy value.
    - [CallHandler.activeCalls] is a JavaScript [Map]; its iteration order
      (insertion order) decides which session the host-identity lookup
      finds, so it is an association list in insertion order.  The
      [participants] map, the [pendingInvites] set and [userCalls] are
      finite maps and sets of stdpp.
    - The socket.io server is part of the state: the connected sockets of
      the main namespace ([io.sockets.sockets]) and the membership of the
      rooms [call_<callId>].
    - A handler is a function from the state before the event to the state
      after it and the list of emitted messages, each with the socket that
      receives it.  Handlers run to completion; the directory look-ups
      they await are a read-only function [dir].
    - Time stamps ([joinedAt], [startTime], [timestamp]) and console output
      are left out: no handler reads them.  Of the relays that read the
      state and change nothing, [handleCallOfferSend] is spelled out;
      [handleIceCandidate] and [handleGetCallInfo] are like it. *)

From stdpp Require Import gmap strings list fin_maps fin_sets.

Abbreviation UserId := nat (only parsing).
Abbreviation CallId := nat (only parsing).
Abbreviation SocketId := nat (only parsing).
Abbreviation Payload := nat (only parsing).

(** ** Data model *)

Inductive PStatus := connecting | connected.
Inductive CStatus := ringing | active.
Inductive EndReason := rejected | host_left | ended | disconnected.

(** An entry of [call.participants]: [{ oderId, status, joinedAt }]. *)
Record Participant := {
  oderId : UserId;
  pstatus : PStatus
}.

(** The call object built by [handleCallRequest]. *)
Record Call := {
  callId : CallId;
  hostId : UserId;
  hostName : string;
  participants : gmap nat Participant;
  pendingInvites : gset nat;
  status : CStatus;
  offer : Payload;
  callType : string
}.

(** A connected socket: [socket.id], [socket.userId], [socket.userName]. *)
Record Socket := {
  sock_id : SocketId;
  userId : UserId;
  userName : option string
}.

(** The handler's two maps and the socket.io server it talks to.
    [rooms] holds the pair [(c, s)] when socket [s] has joined room
    [call_c]. *)
Record State := {
  activeCalls : list (nat * Call);
  userCalls : gmap nat nat;
  sockets : list Socket;
  rooms : gset (nat * nat)
}.

Definition init : State :=
  {| activeCalls := []; userCalls := ∅; sockets := []; rooms := ∅ |}.

(** Outbound notifications, one constructor per event name. *)
Inductive Msg :=
| call_error (message : string)
| call_created (cid : CallId) (invitedCount : nat) (ctype : string)
| call_incoming (cid : CallId) (callerId : UserId) (callerName : string)
    (invitedBy : option string) (isGroupCall : bool) (participantCount : nat)
    (names : list (UserId * string)) (off : Payload) (ctype : string)
| call_users_unavailable (userIds : list UserId)
| call_participant_joined (cid : CallId) (who : UserId) (name : string)
    (participantCount : nat)
| call_offer (cid : option CallId) (callerId : UserId) (off : Payload)
    (members : option (gset UserId))
| call_answer (answer : Payload) (fromUserId : UserId) (cid : option CallId)
| call_participant_invited (cid : CallId) (targetUserId : UserId)
    (invitedBy : UserId) (invitedByName : string)
| call_participant_rejected (cid : CallId) (who : UserId)
| call_participant_left (cid : CallId) (who : UserId) (name : option string)
    (participantCount : nat) (reason : option string)
| call_ended (cid : CallId) (reason : EndReason)
| call_chat_message (cid : CallId) (senderId : UserId) (senderName : string)
    (content : string).

(** A message together with the socket it is sent to. *)
Abbreviation Emit := (nat * Msg)%type (only parsing).

(** ** The [activeCalls] map, in insertion order *)

Section Registry.
Context {V : Type}.

(** [Map.prototype.get] *)
Fixpoint reg_get (k : nat) (r : list (nat * V)) : option V :=
  match r with
  | [] => None
  | (k', v) :: r' => if decide (k' = k) then Some v else reg_get k r'
  end.

(** [Map.prototype.set]: a present key keeps its place, a new key goes
    to the end. *)
Fixpoint reg_set (k : nat) (v : V) (r : list (nat * V)) : list (nat * V) :=
  match r with
  | [] => [(k, v)]
  | (k', v') :: r' =>
      if decide (k' = k) then (k, v) :: r' else (k', v') :: reg_set k v r'
  end.

(** [Map.prototype.delete] *)
Fixpoint reg_delete (k : nat) (r : list (nat * V)) : list (nat * V) :=
  match r with
  | [] => []
  | (k', v') :: r' =>
      if decide (k' = k) then reg_delete k r' else (k', v') :: reg_delete k r'
  end.

(** Mutation in place of the object stored under [k]. *)
Fixpoint reg_alter (f : V → V) (k : nat) (r : list (nat * V)) : list (nat * V) :=
  match r with
  | [] => []
  | (k', v') :: r' =>
      if decide (k' = k) then (k', f v') :: r' else (k', v') :: reg_alter f k r'
  end.

(** [for (const [id, c] of map) if (p(c)) { found = c; break; }] *)
Fixpoint reg_find (p : V → bool) (r : list (nat * V)) : option (nat * V) :=
  match r with
  | [] => None
  | (k', v') :: r' => if p v' then Some (k', v') else reg_find p r'
  end.
End Registry.

(** ** Field updates of a call object *)

Definition set_participants (f : gmap nat Participant → gmap nat Participant)
    (c : Call) : Call :=
  {| callId := callId c; hostId := hostId c; hostName := hostName c;
     participants := f (participants c); pendingInvites := pendingInvites c;
     status := status c; offer := offer c; callType := callType c |}.

Definition set_pendingInvites (f : gset nat → gset nat) (c : Call) : Call :=
  {| callId := callId c; hostId := hostId c; hostName := hostName c;
     participants := participants c; pendingInvites := f (pendingInvites c);
     status := status c; offer := offer c; callType := callType c |}.

Definition set_status (s : CStatus) (c : Call) : Call :=
  {| callId := callId c; hostId := hostId c; hostName := hostName c;
     participants := participants c; pendingInvites := pendingInvites c;
     status := s; offer := offer c; callType := callType c |}.

(** ** Field updates of the state *)

Definition with_calls (f : list (nat * Call) → list (nat * Call)) (st : State) : State :=
  {| activeCalls := f (activeCalls st); userCalls := userCalls st;
     sockets := sockets st; rooms := rooms st |}.

Definition with_userCalls (f : gmap nat nat → gmap nat nat) (st : State) : State :=
  {| activeCalls := activeCalls st; userCalls := f (userCalls st);
     sockets := sockets st; rooms := rooms st |}.

Definition with_rooms (f : gset (nat * nat) → gset (nat * nat)) (st : State) : State :=
  {| activeCalls := activeCalls st; userCalls := userCalls st;
     sockets := sockets st; rooms := f (rooms st) |}.

Definition with_sockets (f : list Socket → list Socket) (st : State) : State :=
  {| activeCalls := activeCalls st; userCalls := userCalls st;
     sockets := f (sockets st); rooms := rooms st |}.

(** ** The socket.io primitives the handler uses *)

(** [socket.join(`call_${c}`)] and [socket.leave(`call_${c}`)] *)
Definition join (s : SocketId) (c : CallId) (st : State) : State :=
  with_rooms (λ r, {[ (c, s) ]} ∪ r) st.

Definition leave (s : SocketId) (c : CallId) (st : State) : State :=
  with_rooms (λ r, r ∖ {[ (c, s) ]}) st.

Definition in_room (st : State) (c : CallId) (s : Socket) : bool :=
  bool_decide ((c, sock_id s) ∈ rooms st).

(** [socket.emit(event, payload)] *)
Definition emit (s : Socket) (m : Msg) : list (nat * Msg) := [(sock_id s, m)].

(** [io.to(`call_${c}`).emit(event, payload)]: every connected socket that
    is in the room. *)
Definition emit_room (st : State) (c : CallId) (m : Msg) : list (nat * Msg) :=
  fmap (λ s, (sock_id s, m)) (filter (λ s, in_room st c s = true) (sockets st)).

(** [socket.to(`call_${c}`).emit(event, payload)]: the same, the emitting
    socket left out. *)
Definition emit_room_except (st : State) (self : Socket) (c : CallId) (m : Msg)
    : list (nat * Msg) :=
  fmap (λ s, (sock_id s, m))
      (filter (λ s, in_room st c s = true ∧ sock_id s ≠ sock_id self) (sockets st)).

(** ** Helpers of [CallHandler] *)

Definition getUserSockets (st : State) (u : UserId) : list Socket :=
  filter (λ s, userId s = u) (sockets st).

Definition isUserInCall (st : State) (u : UserId) : bool :=
  bool_decide (is_Some (userCalls st !! u)).

Definition getUserCall (st : State) (u : UserId) : option Call :=
  match userCalls st !! u with
  | Some c => reg_get c (activeCalls st)
  | None => None
  end.

Definition getUserName (dir : nat → option string) (u : UserId) : string :=
  default "Usuario"%string (dir u).

(** The rows [{id, name}] of the users the directory knows, in the order
    asked. *)
Definition getUsersInfo (dir : nat → option string) (us : list nat)
    : list (nat * string) :=
  omap (λ u, (λ n, (u, n)) <$> dir u) us.

(** ** Payloads of the inbound events *)

(** [call_request]: [{ targetUserIds, targetUserId, offer, callType }];
    [req_targetUserIds] is [None] when the field is not an array. *)
Record RequestData := {
  req_targetUserIds : option (list nat);
  req_targetUserId : UserId;
  req_offer : Payload;
  req_callType : option string
}.

(** [call_accept] and [call_reject]: [{ callerId, callId }]. *)
Record AnswerData := {
  ans_callerId : UserId;
  ans_callId : option CallId
}.

(** [call_answer_send]: [{ targetUserId, answer, callId }]. *)
Record AnswerSendData := {
  snd_targetUserId : UserId;
  snd_answer : Payload;
  snd_callId : option CallId
}.

(** [call_add_participant]: [{ callId, targetUserId }]. *)
Record AddData := {
  add_callId : option CallId;
  add_targetUserId : UserId
}.

(** [call_chat_message]: [{ callId, content, senderName }]. *)
Record ChatData := {
  chat_callId : option CallId;
  chat_content : string;
  chat_senderName : option string
}.

(** ** The handlers *)

Section Handlers.
(** The users table: [SELECT name FROM users WHERE id = ?]. *)
Variable dir : nat → option string.

(** [targets] of [handleCallRequest]. *)
Definition request_targets (d : RequestData) : list nat :=
  match req_targetUserIds d with
  | Some ts => ts
  | None => [req_targetUserId d]
  end.

(** The loop of [handleCallRequest] that fills [unavailable] and
    [available]. *)
Fixpoint classify (st : State) (targets : list nat)
    : list nat * list (nat * list Socket) :=
  match targets with
  | [] => ([], [])
  | t :: ts =>
      let '(un, av) := classify st ts in
      if isUserInCall st t then (t :: un, av)
      else
        let targetSockets := getUserSockets st t in
        if bool_decide (0 < length targetSockets)
        then (un, (t, targetSockets) :: av)
        else (t :: un, av)
  end.

(** [endCall(callId, reason)] *)
Definition endCall (st : State) (c : CallId) (reason : EndReason)
    : State * list (nat * Msg) :=
  match reg_get c (activeCalls st) with
  | None => (st, [])
  | Some call =>
      let out := emit_room st c (call_ended c reason) in
      let members := (map_to_list (participants call)).*1 in
      let st1 := with_userCalls (λ m, foldr delete m members) st in
      let st2 :=
        foldr (λ s acc, leave (sock_id s) c acc) st1
              (flat_map (getUserSockets st) members) in
      (with_calls (reg_delete c) st2, out)
  end.

(** [handleCallRequest(socket, data)]; [gen] is what [generateCallId]
    returns. *)
Definition handleCallRequest (gen : CallId) (st : State) (socket : Socket)
    (data : RequestData) : State * list (nat * Msg) :=
  let callerId := userId socket in
  let targets := request_targets data in
  if isUserInCall st callerId then
    (st, emit socket (call_error "Ya estás en una llamada"))
  else
    let '(unavailable, available) := classify st targets in
    if bool_decide (length available = 0) then
      (st, emit socket (call_error "Ningún usuario está disponible"))
    else
      let callerName := getUserName dir callerId in
      let call :=
        {| callId := gen; hostId := callerId; hostName := callerName;
           participants :=
             {[ callerId := {| oderId := callerId; pstatus := connected |} ]};
           pendingInvites := list_to_set (available.*1);
           status := ringing;
           offer := req_offer data;
           callType := default "audio"%string (req_callType data) |} in
      let st1 := with_calls (reg_set gen call) st in
      let st2 := with_userCalls (insert callerId gen) st1 in
      let st3 := join (sock_id socket) gen st2 in
      (st3,
       emit socket (call_created gen (length available) (callType call))
       ++ flat_map (λ a : nat * list Socket,
             fmap (λ targetSocket,
                    (sock_id targetSocket,
                     call_incoming gen callerId callerName None
                       (bool_decide (1 < length targets))
                       (length targets + 1) [] (req_offer data) (callType call)))
                 a.2) available
       ++ (if bool_decide (0 < length unavailable)
           then emit socket (call_users_unavailable unavailable) else [])).

(** The session an accept or a reject is about: by call id, else the
    first session of that host in which the user is invited.  The key
    under which the session is stored comes with it. *)
Definition resolveCall (st : State) (data : AnswerData) (u : UserId)
    : option (nat * Call) :=
  match ans_callId data ≫= (λ c, (λ call, (c, call)) <$> reg_get c (activeCalls st)) with
  | Some kc => Some kc
  | None =>
      reg_find (λ c, bool_decide (hostId c = ans_callerId data ∧ u ∈ pendingInvites c))
               (activeCalls st)
  end.

(** [handleCallAccept(socket, data)].  The [participants] field of
    [call_offer] is [Array.from(call.participants.keys())]: the keys of the
    map, once each.  The message carries them as a set; the order of the
    array is not part of the model. *)
Definition handleCallAccept (st : State) (socket : Socket) (data : AnswerData)
    : State * list (nat * Msg) :=
  let u := userId socket in
  match resolveCall st data u with
  | None => (st, emit socket (call_error "Llamada no encontrada"))
  | Some (k, call) =>
      let register (c : Call) :=
        set_status active
          (set_participants (insert u {| oderId := u; pstatus := connecting |})
             (set_pendingInvites (λ p, p ∖ {[ u ]}) c)) in
      let call' := register call in
      let st1 := with_calls (reg_alter register k) st in
      let st2 := with_userCalls (insert u (callId call)) st1 in
      let st3 := join (sock_id socket) (callId call) st2 in
      let name := getUserName dir u in
      (st3,
       emit_room st3 (callId call)
         (call_participant_joined (callId call) u name (size (participants call')))
       ++ emit socket
            (call_offer (Some (callId call)) (hostId call) (offer call)
               (Some (dom (participants call')))))
  end.

(** [handleCallAnswerSend(socket, data)]; the session whose participant is
    marked connected is the one stored under [activeCallId]:
    [activeCalls.get(callId)], or [getUserCall(userId)] without a call
    id. *)
Definition handleCallAnswerSend (st : State) (socket : Socket)
    (data : AnswerSendData) : State * list (nat * Msg) :=
  let u := userId socket in
  let activeCallId :=
    match snd_callId data with
    | Some c => Some c
    | None => userCalls st !! u
    end in
  let out :=
    fmap (λ targetSocket,
           (sock_id targetSocket, call_answer (snd_answer data) u activeCallId))
        (getUserSockets st (snd_targetUserId data)) in
  match activeCallId ≫= (λ k, (λ call, (k, call)) <$> reg_get k (activeCalls st)) with
  | Some (k, call) =>
      if bool_decide (is_Some (participants call !! u)) then
        (with_calls
           (reg_alter
              (set_participants
                 (alter (λ p, {| oderId := oderId p; pstatus := connected |}) u)) k)
           st, out)
      else (st, out)
  | None => (st, out)
  end.

(** [handleCallOfferSend(socket, data)]: a relay, no state is touched;
    its [call_offer] has no [participants] field. *)
Definition handleCallOfferSend (st : State) (socket : Socket)
    (targetUserId : UserId) (off : Payload) (c : option CallId)
    : State * list (nat * Msg) :=
  (st, fmap (λ targetSocket,
              (sock_id targetSocket, call_offer c (userId socket) off None))
           (getUserSockets st targetUserId)).

(** [handleAddParticipant(socket, data)] *)
Definition handleAddParticipant (st : State) (socket : Socket) (data : AddData)
    : State * list (nat * Msg) :=
  let u := userId socket in
  let target := add_targetUserId data in
  match add_callId data ≫= (λ c, (λ call, (c, call)) <$> reg_get c (activeCalls st)) with
  | None => (st, emit socket (call_error "Llamada no encontrada"))
  | Some (c, call) =>
      if bool_decide (participants call !! u = None) then
        (st, emit socket (call_error "No eres participante de esta llamada"))
      else if bool_decide (is_Some (participants call !! target)
                           ∨ target ∈ pendingInvites call) then
        (st, emit socket
               (call_error "El usuario ya está en la llamada o fue invitado"))
      else if isUserInCall st target then
        (st, emit socket (call_error "El usuario está en otra llamada"))
      else
        let targetSockets := getUserSockets st target in
        if bool_decide (length targetSockets = 0) then
          (st, emit socket (call_error "El usuario no está disponible"))
        else
          let st1 :=
            with_calls (reg_alter (set_pendingInvites (λ p, {[ target ]} ∪ p)) c) st in
          let inviterName := getUserName dir u in
          let participantNames :=
            getUsersInfo dir ((map_to_list (participants call)).*1) in
          (st1,
           fmap (λ targetSocket,
                  (sock_id targetSocket,
                   call_incoming c (hostId call) (hostName call) (Some inviterName)
                     true (size (participants call) + 1) participantNames
                     (offer call) (callType call)))
               targetSockets
           ++ emit_room st1 c (call_participant_invited c target u inviterName))
  end.

(** [handleCallReject(socket, data)] *)
Definition handleCallReject (st : State) (socket : Socket) (data : AnswerData)
    : State * list (nat * Msg) :=
  let u := userId socket in
  match resolveCall st data u with
  | None => (st, [])
  | Some (k, call) =>
      let call' := set_pendingInvites (λ p, p ∖ {[ u ]}) call in
      let st1 := with_calls (reg_alter (set_pendingInvites (λ p, p ∖ {[ u ]})) k) st in
      let out := emit_room st1 (callId call) (call_participant_rejected (callId call) u) in
      if bool_decide (size (participants call') = 1 ∧ size (pendingInvites call') = 0)
      then
        let '(st2, out2) := endCall st1 (callId call) rejected in
        (st2, out ++ out2)
      else (st1, out)
  end.

(** [handleCallEnd(socket, data)]; [reason] is [data.reason]. *)
Definition handleCallEnd (st : State) (socket : Socket) (reason : option string)
    : State * list (nat * Msg) :=
  let u := userId socket in
  match userCalls st !! u with
  | None => (st, [])
  | Some c =>
      match reg_get c (activeCalls st) with
      | None => (st, [])
      | Some call =>
          let call' := set_participants (delete u) call in
          let st1 := with_calls (reg_alter (set_participants (delete u)) c) st in
          let st2 := with_userCalls (delete u) st1 in
          let st3 := leave (sock_id socket) c st2 in
          let out :=
            emit_room st3 c
              (call_participant_left c u
                 (Some (default "Usuario"%string (userName socket)))
                 (size (participants call')) reason) in
          if bool_decide (u = hostId call ∨ size (participants call') < 1) then
            let '(st4, out2) :=
              endCall st3 c (if bool_decide (u = hostId call) then host_left else ended) in
            (st4, out ++ out2)
          else (st3, out)
      end
  end.

(** [handleCallChatMessage(socket, data)] *)
Definition handleCallChatMessage (st : State) (socket : Socket) (data : ChatData)
    : State * list (nat * Msg) :=
  let u := userId socket in
  match userCalls st !! u, chat_callId data with
  | Some userCallId, Some c =>
      if bool_decide (userCallId = c) then
        match reg_get c (activeCalls st) with
        | None => (st, [])
        | Some call =>
            (st, emit_room_except st socket c
                   (call_chat_message c u
                      (default "Usuario"%string (chat_senderName data))
                      (chat_content data)))
        end
      else (st, emit socket (call_error "No estás en esta llamada"))
  | _, _ => (st, emit socket (call_error "No estás en esta llamada"))
  end.

(** [handleDisconnection(socket)] *)
Definition handleDisconnection (st : State) (socket : Socket)
    : State * list (nat * Msg) :=
  let u := userId socket in
  match userCalls st !! u with
  | None => (st, [])
  | Some c =>
      match reg_get c (activeCalls st) with
      | None => (st, [])
      | Some call =>
          let remainingSockets :=
            filter (λ s, sock_id s ≠ sock_id socket) (getUserSockets st u) in
          if bool_decide (0 < length remainingSockets) then (st, [])
          else
            let call' := set_participants (delete u) call in
            let st1 := with_calls (reg_alter (set_participants (delete u)) c) st in
            let st2 := with_userCalls (delete u) st1 in
            let out :=
              emit_room st2 c
                (call_participant_left c u None (size (participants call'))
                   (Some "disconnected"%string)) in
            if bool_decide (u = hostId call ∨ size (participants call') < 1) then
              let '(st3, out2) := endCall st2 c disconnected in
              (st3, out ++ out2)
            else (st2, out)
      end
  end.
End Handlers.

(** ** The server loop: [io.on('connection', ...)] of [server.js] *)

Inductive Event :=
| EConnect (s : Socket)
| ECallRequest (gen : CallId) (s : Socket) (d : RequestData)
| ECallAccept (s : Socket) (d : AnswerData)
| ECallReject (s : Socket) (d : AnswerData)
| ECallEnd (s : Socket) (reason : option string)
| ECallAnswerSend (s : Socket) (d : AnswerSendData)
| EAddParticipant (s : Socket) (d : AddData)
| ECallChatMessage (s : Socket) (d : ChatData)
| EDisconnect (s : Socket).

(** What socket.io does to its own tables before it fires [disconnect]:
    the socket leaves every room and the namespace. *)
Definition transport_remove (s : Socket) (st : State) : State :=
  with_rooms (filter (λ p, p.2 ≠ sock_id s))
    (with_sockets (filter (λ s', sock_id s' ≠ sock_id s)) st).

Definition run (dir : nat → option string) (st : State) (ev : Event)
    : State * list (nat * Msg) :=
  match ev with
  | EConnect s => (with_sockets (λ l, l ++ [s]) st, [])
  | ECallRequest gen s d => handleCallRequest dir gen st s d
  | ECallAccept s d => handleCallAccept dir st s d
  | ECallReject s d => handleCallReject st s d
  | ECallEnd s reason => handleCallEnd st s reason
  | ECallAnswerSend s d => handleCallAnswerSend st s d
  | EAddParticipant s d => handleAddParticipant dir st s d
  | ECallChatMessage s d => handleCallChatMessage st s d
  | EDisconnect s => handleDisconnection (transport_remove s st) s
  end.

(** The events the server can see in a state: a new socket has a new id,
    every other event comes from a connected socket, and [generateCallId]
    returns an id that names no session of the registry. *)
Definition enabled (st : State) (ev : Event) : Prop :=
  match ev with
  | EConnect s => sock_id s ∉ sock_id <$> sockets st
  | ECallRequest gen s _ => s ∈ sockets st ∧ reg_get gen (activeCalls st) = None
  | ECallAccept s _ | ECallReject s _ | ECallEnd s _ | ECallAnswerSend s _
  | EAddParticipant s _ | ECallChatMessage s _ | EDisconnect s => s ∈ sockets st
  end.

Inductive reachable (dir : nat → option string) : State → Prop :=
| reach_init : reachable dir init
| reach_step st ev :
    reachable dir st → enabled st ev → reachable dir (run dir st ev).1.

(** A run of the server from the first state, for the examples. *)
Definition run_all (dir : nat → option string) (evs : list Event) : State :=
  foldl (λ st ev, (run dir st ev).1) init evs.

(** ** The properties the claims are about *)

(** The stored key of every session is its [callId] field. *)
Definition keys_agree (st : State) : Prop :=
  ∀ k call, (k, call) ∈ activeCalls st → callId call = k.

(** An index entry names a session of the registry in which the user is a
    participant, connecting or connected. *)
Definition single_occupancy (st : State) : Prop :=
  ∀ u : nat,
    (∀ c1 c2 : nat, userCalls st !! u = Some c1 → userCalls st !! u = Some c2 → c1 = c2)
    ∧ (∀ c : nat, userCalls st !! u = Some c →
         ∃ call p, reg_get c (activeCalls st) = Some call
                   ∧ participants call !! u = Some p
                   ∧ (pstatus p = connecting ∨ pstatus p = connected)).

(** No user is both a participant and a pending invitee of a session. *)
Definition disjoint_call (call : Call) : Prop :=
  dom (participants call) ## pendingInvites call.

Definition disjointness (st : State) : Prop :=
  ∀ k call, (k, call) ∈ activeCalls st → disjoint_call call.

(** The registry is a map (no key twice) and every session is stored
    under its own id. *)
Definition wf (st : State) : Prop :=
  keys_agree st ∧ NoDup (activeCalls st).*1.

(** The part of [single_occupancy] that is not true of every map. *)
Definition indexed (st : State) : Prop :=
  ∀ u c : nat, userCalls st !! u = Some c →
    ∃ call, reg_get c (activeCalls st) = Some call ∧ is_Some (participants call !! u).

(** The host of every session is among its participants. *)
Definition hosts_present (st : State) : Prop :=
  ∀ k call, (k, call) ∈ activeCalls st → is_Some (participants call !! hostId call).

(** What every handler preserves. *)
Definition Inv (st : State) : Prop := wf st ∧ indexed st.

#[global] Instance Socket_eq_dec : EqDecision Socket.
Proof. solve_decision. Defined.

(** The events of a list are enabled one after the other. *)
Fixpoint enabled_from (dir : nat → option string) (st : State) (evs : list Event)
    : Prop :=
  match evs with
  | [] => True
  | ev :: evs' => enabled st ev ∧ enabled_from dir (run dir st ev).1 evs'
  end.

(** A target that cannot be rung: already in a call, or without a live
    connection. *)
Definition unavailable_target (st : State) (t : nat) : Prop :=
  isUserInCall st t = true ∨ getUserSockets st t = [].

#[global] Instance unavailable_target_dec st t : Decision (unavailable_target st t).
Proof. unfold unavailable_target. apply _. Defined.

(** A handler result is a rejection, or carries no error at all: when an
    error is among the messages, it is the only message, it goes to the
    socket that sent the event, and the state is the one before. *)
Definition fail_closed (st : State) (s : Socket) (r : State * list (nat * Msg)) : Prop :=
  ∀ e m, e ∈ r.2 → e.2 = call_error m → r = (st, [(sock_id s, call_error m)]).

(** The rejection itself. *)
Definition rejects (st : State) (s : Socket) (r : State * list (nat * Msg)) : Prop :=
  ∃ m, r = (st, [(sock_id s, call_error m)]).

(** The routing by user: an error when the index of the sender does not
    name the call; otherwise every connection of every other participant
    receives the message and no connection of the sender receives
    anything. *)
Definition chat_routed_by_user (st : State) (s : Socket) (d : ChatData) : Prop :=
  let r := handleCallChatMessage st s d in
  let u := userId s in
  ((∀ c, userCalls st !! u = Some c → chat_callId d ≠ Some c) → rejects st s r)
  ∧ (∀ c call, userCalls st !! u = Some c → chat_callId d = Some c →
       reg_get c (activeCalls st) = Some call →
       let m := call_chat_message c u (default "Usuario"%string (chat_senderName d))
                  (chat_content d) in
       (∀ v s', is_Some (participants call !! v) → v ≠ u →
          s' ∈ sockets st → userId s' = v → (sock_id s', m) ∈ r.2)
       ∧ (∀ s' m', s' ∈ sockets st → userId s' = u → (sock_id s', m') ∉ r.2)).

(** ** Examples: three users, one of them on two devices *)

Definition no_names : nat → option string := λ _, None.

Definition sock (i u : nat) : Socket :=
  {| sock_id := i; userId := u; userName := None |}.

Definition request (ts : list nat) : RequestData :=
  {| req_targetUserIds := Some ts; req_targetUserId := 0; req_offer := 7;
     req_callType := None |}.

Definition by_id (c : nat) : AnswerData :=
  {| ans_callerId := 0; ans_callId := Some c |}.

Definition by_host (h : nat) : AnswerData :=
  {| ans_callerId := h; ans_callId := None |}.

(** Users 1, 2 (two devices) and 3 are connected. *)
Definition evs_online : list Event :=
  [EConnect (sock 10 1); EConnect (sock 20 2); EConnect (sock 21 2);
   EConnect (sock 30 3)].

Definition st_online : State := run_all no_names evs_online.

(** User 1 rings user 2: session 100. *)
Definition evs_ringing : list Event :=
  evs_online ++ [ECallRequest 100 (sock 10 1) (request [2])].

Definition st_ringing : State := run_all no_names evs_ringing.

(** User 2 accepts on device 20. *)
Definition evs_active : list Event :=
  evs_ringing ++ [ECallAccept (sock 20 2) (by_id 100)].

Definition st_active : State := run_all no_names evs_active.

(** Users 1 and 2 are in session 100; users 3, 4 and 5 are connected and
    free. *)
Definition evs_party : list Event :=
  evs_active ++ [EConnect (sock 40 4); EConnect (sock 50 5)].

Definition st_party : State := run_all no_names evs_party.

(** User 3 rings user 4 (session 200), and user 2, who is in session 100,
    accepts session 200 by its id. *)
Definition evs_two_sessions : list Event :=
  evs_party ++ [ECallRequest 200 (sock 30 3) (request [4]);
                ECallAccept (sock 20 2) (by_id 200)].

(** User 3 rings user 1 (session 200); user 1, whose index entry is still
    absent, starts session 100 with user 2 and then accepts the invitation
    of user 3. *)
Definition evs_host_elsewhere : list Event :=
  evs_online ++ [ECallRequest 200 (sock 30 3) (request [1]);
                 ECallRequest 100 (sock 10 1) (request [2]);
                 ECallAccept (sock 10 1) (by_host 3)].

Definition st_host_elsewhere : State := run_all no_names evs_host_elsewhere.

Definition scalar_request (t : nat) : RequestData :=
  {| req_targetUserIds := None; req_targetUserId := t; req_offer := 7;
     req_callType := Some "video"%string |}.

(** A state in which the index of user 3 names a session that is gone. *)
Definition st_stale : State :=
  with_userCalls (insert 3 300) st_online.

(** Session 100 while it rings: user 1 is in, user 2 is invited. *)
Definition call_ringing : Call :=
  {| callId := 100; hostId := 1; hostName := "Usuario";
     participants := {[ 1 := {| oderId := 1; pstatus := connected |} ]};
     pendingInvites := {[ 2 ]};
     status := ringing; offer := 7; callType := "audio" |}.

(** Session 100 once user 2 has accepted. *)
Definition call_active : Call :=
  {| callId := 100; hostId := 1; hostName := "Usuario";
     participants :=
       {[ 1 := {| oderId := 1; pstatus := connected |};
          2 := {| oderId := 2; pstatus := connecting |} ]};
     pendingInvites := ∅;
     status := active; offer := 7; callType := "audio" |}.

Definition chat (c : nat) (text : string) : ChatData :=
  {| chat_callId := Some c; chat_content := text; chat_senderName := None |}.

(** ** The rest of [CallHandler] *)

(** The payload of [call_info]: [{ inCall: false }], or the snapshot of the
    session with one [{ userId, oderId, status }] per participant and the
    pending invitees.  The two arrays list the entries of a map and of a
    set, once each; the payload carries them as a finite map and a finite
    set, and the order of the arrays is not part of the model. *)
Inductive CallInfo :=
| not_in_call
| in_call (cid : CallId) (isHost : bool) (host : UserId) (hostname : string)
    (members : gmap nat Participant) (pending : gset nat).

(** [handleGetCallInfo(socket)]: the socket that asked and what it is
    told. *)
Definition handleGetCallInfo (st : State) (socket : Socket) : nat * CallInfo :=
  let u := userId socket in
  match getUserCall st u with
  | None => (sock_id socket, not_in_call)
  | Some call =>
      (sock_id socket,
       in_call (callId call) (bool_decide (hostId call = u)) (hostId call)
         (hostName call) (participants call) (pendingInvites call))
  end.

(** A mutation of a call object that leaves its identity alone and does
    not take it back from active. *)
Definition keeps_identity (f : Call → Call) : Prop :=
  ∀ c, callId (f c) = callId c ∧ hostId (f c) = hostId c
       ∧ hostName (f c) = hostName c ∧ offer (f c) = offer c
       ∧ callType (f c) = callType c
       ∧ (status c = active → status (f c) = active).

(** ** [ChatHandler]: presence and message text ([chatHandler.js]) *)

Module Chat.

(** The two broadcasts of the presence bookkeeping, sent with [io.emit] to
    every connected socket. *)
Inductive Presence :=
| user_online (u : UserId)
| user_offline (u : UserId).

(** [handleConnection(socket)], the part that runs before the first
    [await]: the socket id is added to the set of the user in
    [userSockets], and the user is announced. *)
Definition handleConnection (us : gmap nat (gset nat)) (socket : Socket)
    : gmap nat (gset nat) * list Presence :=
  let u := userId socket in
  let us1 := if bool_decide (is_Some (us !! u)) then us else <[u := ∅]> us in
  (<[u := {[ sock_id socket ]} ∪ default ∅ (us1 !! u)]> us1, [user_online u]).

(** [handleDisconnection(socket)] *)
Definition handleDisconnection (us : gmap nat (gset nat)) (socket : Socket)
    : gmap nat (gset nat) * list Presence :=
  let u := userId socket in
  match us !! u with
  | None => (us, [])
  | Some ids =>
      let ids' := ids ∖ {[ sock_id socket ]} in
      if bool_decide (size ids' = 0)
      then (delete u us, [user_offline u])
      else (<[u := ids']> us, [])
  end.

(** [getUserSockets(userId)]: [userSockets.get(userId) || new Set()] *)
Definition getUserSockets (us : gmap nat (gset nat)) (u : UserId) : gset nat :=
  default ∅ (us !! u).

(** [isUserOnline(userId)] *)
Definition isUserOnline (us : gmap nat (gset nat)) (u : UserId) : bool :=
  match us !! u with
  | Some ids => bool_decide (0 < size ids)
  | None => false
  end.

(** Text is a JavaScript string: a list of UTF-16 code units. *)

(** [s.replace(/c/g, by)] for a one-character pattern. *)
Definition replace_all (c : N) (by_ : list N) (s : list N) : list N :=
  flat_map (λ x, if decide (x = c) then by_ else [x]) s.

(** What [String.prototype.trim] strips: WhiteSpace and LineTerminator. *)
Definition is_space (x : N) : bool :=
  bool_decide (x ∈ [9; 10; 11; 12; 13; 32; 160; 5760; 8232; 8233; 8239; 8287;
                    12288; 65279]%N)
  || bool_decide (8192 ≤ x ≤ 8202)%N.

Fixpoint drop_spaces (s : list N) : list N :=
  match s with
  | [] => []
  | x :: s' => if is_space x then drop_spaces s' else s
  end.

Definition trim (s : list N) : list N :=
  reverse (drop_spaces (reverse (drop_spaces s))).

(** The entities: [&amp;], [&lt;], [&gt;], [&quot;], [&#039;]. *)
Definition amp : list N := [38; 97; 109; 112; 59]%N.
Definition lt : list N := [38; 108; 116; 59]%N.
Definition gt : list N := [38; 103; 116; 59]%N.
Definition quot : list N := [38; 113; 117; 111; 116; 59]%N.
Definition apos : list N := [38; 35; 48; 51; 57; 59]%N.

(** The bound of [substring(0, 5000)]. *)
Definition max_length : nat := 50 * 100.

(** [sanitizeContent(content)] on a string; the empty string is the falsy
    one. *)
Definition sanitizeContent (content : list N) : list N :=
  match content with
  | [] => []
  | _ =>
      take max_length
        (trim (replace_all 39 apos
                 (replace_all 34 quot
                    (replace_all 62 gt
                       (replace_all 60 lt
                          (replace_all 38 amp content))))))
  end.

End Chat.

(** [SupportHandler.sanitizeContent(content)] ([supportHandler.js]): the
    angle brackets only, and no trimming. *)
Definition support_sanitizeContent (content : list N) : list N :=
  match content with
  | [] => []
  | _ =>
      take Chat.max_length
        (Chat.replace_all 62 Chat.gt (Chat.replace_all 60 Chat.lt content))
  end.

(** ** The connection callback of [server.js] *)

(** [io.on('connection', async (socket) => ...)] first awaits
    [chatHandler.handleConnection(socket)], whose part before its own
    [await] puts the socket id into [userSockets]; the listeners of the
    socket, the [disconnect] listener among them, are registered only when
    that [await] returns.  A step of the server is an event of the
    transport, or the return of that [await] for one socket. *)
Inductive ServerEvent :=
| from_transport (ev : Event)
| listeners_registered (s : Socket).

(** The state of the call handler with the sockets of the transport,
    [userSockets] of the chat handler, and the ids of the sockets whose
    listeners are registered. *)
Record Server := {
  calls : State;
  userSockets : gmap nat (gset nat);
  listening : gset nat
}.

Definition server_init : Server :=
  {| calls := init; userSockets := ∅; listening := ∅ |}.

(** The socket an event comes from. *)
Definition event_socket (ev : Event) : Socket :=
  match ev with
  | EConnect s | ECallRequest _ s _ | ECallAccept s _ | ECallReject s _
  | ECallEnd s _ | ECallAnswerSend s _ | EAddParticipant s _
  | ECallChatMessage s _ | EDisconnect s => s
  end.

(** The transport adds a socket before the connection callback runs and
    removes it before [disconnect] is emitted.  An event of a socket
    without listeners is heard by nobody: a client event is dropped, and
    at a close neither [chatHandler.handleDisconnection] nor
    [callHandler.handleDisconnection] is called.  The [disconnect]
    listener runs the part of [chatHandler.handleDisconnection] before
    its [await], which is all it does to [userSockets], and the call
    handler after it; the call handler touches neither [userSockets] nor
    the sockets of the transport. *)
Definition server_step (dir : nat → option string) (w : Server)
    (sev : ServerEvent) : Server :=
  match sev with
  | listeners_registered s =>
      {| calls := calls w; userSockets := userSockets w;
         listening := {[ sock_id s ]} ∪ listening w |}
  | from_transport (EConnect s) =>
      {| calls := (run dir (calls w) (EConnect s)).1;
         userSockets := (Chat.handleConnection (userSockets w) s).1;
         listening := listening w |}
  | from_transport (EDisconnect s) =>
      if decide (sock_id s ∈ listening w) then
        {| calls := (run dir (calls w) (EDisconnect s)).1;
           userSockets := (Chat.handleDisconnection (userSockets w) s).1;
           listening := listening w |}
      else
        {| calls := transport_remove s (calls w); userSockets := userSockets w;
           listening := listening w |}
  | from_transport ev =>
      if decide (sock_id (event_socket ev) ∈ listening w) then
        {| calls := (run dir (calls w) ev).1; userSockets := userSockets w;
           listening := listening w |}
      else w
  end.

(** The steps that can happen: a socket connects under an id that was
    never used, an event comes from a connected socket, and the [await] of
    a connection returns once, for a socket that [handleConnection] has
    entered and that has no listeners yet. *)
Definition server_enabled (w : Server) (sev : ServerEvent) : Prop :=
  match sev with
  | from_transport (EConnect s) =>
      (sock_id s ∉ sock_id <$> sockets (calls w))
      ∧ (sock_id s ∉ listening w)
      ∧ map_Forall (λ _ ids, sock_id s ∉ ids) (userSockets w)
  | from_transport ev => event_socket ev ∈ sockets (calls w)
  | listeners_registered s =>
      (sock_id s ∉ listening w)
      ∧ sock_id s ∈ Chat.getUserSockets (userSockets w) (userId s)
  end.

Fixpoint server_enabled_from (dir : nat → option string) (w : Server)
    (evs : list ServerEvent) : Prop :=
  match evs with
  | [] => True
  | sev :: evs' => server_enabled w sev ∧ server_enabled_from dir (server_step dir w sev) evs'
  end.

(** A close that reaches the [disconnect] listener. *)
Definition close_heard (w : Server) (sev : ServerEvent) : Prop :=
  match sev with
  | from_transport (EDisconnect s) => sock_id s ∈ listening w
  | _ => True
  end.

Fixpoint closes_heard_from (dir : nat → option string) (w : Server)
    (evs : list ServerEvent) : Prop :=
  match evs with
  | [] => True
  | sev :: evs' => close_heard w sev ∧ closes_heard_from dir (server_step dir w sev) evs'
  end.

Definition server_run_all (dir : nat → option string) (evs : list ServerEvent)
    : Server :=
  foldl (server_step dir) server_init evs.

(** Every socket of the transport is in [userSockets], under its user. *)
Definition covers (w : Server) : Prop :=
  ∀ s, s ∈ sockets (calls w) →
       sock_id s ∈ Chat.getUserSockets (userSockets w) (userId s).

(** An id that [userSockets] keeps for a user although no socket of the
    transport has it. *)
Definition stale (i : nat) (u : UserId) (w : Server) : Prop :=
  i ∈ Chat.getUserSockets (userSockets w) u
  ∧ (i ∉ sock_id <$> sockets (calls w)).

(** No user is kept with an empty set of sockets. *)
Definition no_empty_entry (us : gmap nat (gset nat)) : Prop :=
  ∀ u ids, us !! u = Some ids → ids ≠ ∅.

(** [userSockets] holds, for every user, the ids of the sockets that
    socket.io has for that user, and no entry for a user without one. *)
Definition presence_agrees (st : State) (us : gmap nat (gset nat)) : Prop :=
  ∀ u, us !! u
       = match getUserSockets st u with
         | [] => None
         | l => Some (list_to_set (sock_id <$> l))
         end.

(** ** The one-to-one call handler ([src/unnamed/part_000]) *)

(** The earlier [CallHandler]: one call per caller, [activeCalls] maps the
    caller to [{ targetUserId, status, startTime, offer }]. *)
Module Legacy.

Inductive Status := ringing | connecting | connected.

Record Call := {
  targetUserId : UserId;
  status : Status;
  offer : Payload
}.

Record State := {
  activeCalls : list (nat * Call);
  sockets : list Socket
}.

Inductive Msg :=
| call_error (message : string)
| call_busy (u : UserId)
| call_incoming (callerId : UserId) (callerName : string) (off : Payload)
| call_offer (callerId : UserId) (off : Payload)
| call_answer (answer : Payload)
| call_rejected (u : UserId)
| call_ended (reason : string)
| call_ice_candidate (candidate : Payload).

Definition with_calls (f : list (nat * Call) → list (nat * Call)) (st : State) : State :=
  {| activeCalls := f (activeCalls st); sockets := sockets st |}.

Definition set_status (s : Status) (c : Call) : Call :=
  {| targetUserId := targetUserId c; status := s; offer := offer c |}.

Definition getUserSockets (st : State) (u : UserId) : list Socket :=
  filter (λ s, userId s = u) (sockets st).

(** [isUserInCall(userId)]: caller or target of some call. *)
Definition isUserInCall (st : State) (u : UserId) : bool :=
  existsb (λ kc : nat * Call, bool_decide (kc.1 = u ∨ targetUserId kc.2 = u))
          (activeCalls st).

(** A message for every socket of a user. *)
Definition emit_user (st : State) (u : UserId) (m : Msg) : list (nat * Msg) :=
  (λ s, (sock_id s, m)) <$> getUserSockets st u.

(** [handleCallRequest(socket, data)] with [data = { targetUserId, offer }]
    is an [async] function with one [await], of [getUserName], between its
    checks and the registration of the call.  Other events can be handled
    while it waits, so it is given in two parts. *)

(** The part before the [await]: the three checks.  It gives the refusal
    sent to the socket, or [targetSockets], the sockets of the target
    found at that moment. *)
Definition handleCallRequest_checks (st : State) (socket : Socket)
    (target : UserId) : Msg + list Socket :=
  let callerId := userId socket in
  if isUserInCall st callerId then
    inl (call_error "Ya estás en una llamada")
  else if isUserInCall st target then
    inl (call_busy target)
  else if bool_decide (length (getUserSockets st target) = 0) then
    inl (call_error "Usuario no disponible")
  else
    inr (getUserSockets st target).

(** The part after the [await]: the call is stored under the caller and
    [call_incoming] is emitted on the sockets found before the [await];
    nothing is checked again.  A socket that has closed in between
    receives nothing. *)
Definition handleCallRequest_resume (dir : nat → option string) (st : State)
    (socket : Socket) (target : UserId) (off : Payload)
    (targetSockets : list Socket) : State * list (nat * Msg) :=
  let callerId := userId socket in
  (with_calls
     (reg_set callerId {| targetUserId := target; status := ringing; offer := off |}) st,
   (λ s, (sock_id s, call_incoming callerId (getUserName dir callerId) off))
     <$> filter (λ s, s ∈ sockets st) targetSockets).

(** A request during whose [await] no other event is handled. *)
Definition handleCallRequest (dir : nat → option string) (st : State)
    (socket : Socket) (target : UserId) (off : Payload) : State * list (nat * Msg) :=
  match handleCallRequest_checks st socket target with
  | inl refusal => (st, [(sock_id socket, refusal)])
  | inr targetSockets => handleCallRequest_resume dir st socket target off targetSockets
  end.

(** [handleCallAccept(socket, data)] with [data = { callerId }] *)
Definition handleCallAccept (st : State) (socket : Socket) (callerId : UserId)
    : State * list (nat * Msg) :=
  match reg_get callerId (activeCalls st) with
  | None => (st, [(sock_id socket, call_error "Llamada no encontrada")])
  | Some call =>
      (with_calls (reg_alter (set_status connecting) callerId) st,
       [(sock_id socket, call_offer callerId (offer call))])
  end.

(** [handleCallAnswerSend(socket, data)] with [data = { targetUserId, answer }] *)
Definition handleCallAnswerSend (st : State) (socket : Socket) (target : UserId)
    (answer : Payload) : State * list (nat * Msg) :=
  (with_calls (reg_alter (set_status connected) target) st,
   emit_user st target (call_answer answer)).

(** [handleCallReject(socket, data)] with [data = { callerId }] *)
Definition handleCallReject (st : State) (socket : Socket) (callerId : UserId)
    : State * list (nat * Msg) :=
  let st' := with_calls (reg_delete callerId) st in
  (st', emit_user st' callerId (call_rejected (userId socket))).

(** The search of [handleCallEnd] and [handleDisconnection]: the call the
    user started, else the first call that targets the user. *)
Definition findCall (st : State) (u : UserId) : option (nat * Call) :=
  match reg_get u (activeCalls st) with
  | Some call => Some (u, call)
  | None => reg_find (λ c, bool_decide (targetUserId c = u)) (activeCalls st)
  end.

(** What the two have in common; [reason] is what the other side is
    told. *)
Definition endFor (st : State) (u : UserId) (reason : string)
    : State * list (nat * Msg) :=
  match findCall st u with
  | None => (st, [])
  | Some (callKey, callToEnd) =>
      let st' := with_calls (reg_delete callKey) st in
      let otherUserId :=
        if bool_decide (callKey = u) then targetUserId callToEnd else callKey in
      (st', emit_user st' otherUserId (call_ended reason))
  end.

(** [handleCallEnd(socket, data)]; [reason] is [data.reason], [None] when
    falsy. *)
Definition handleCallEnd (st : State) (socket : Socket) (reason : option string)
    : State * list (nat * Msg) :=
  endFor st (userId socket) (default "ended"%string reason).

(** [handleIceCandidate(socket, data)] *)
Definition handleIceCandidate (st : State) (socket : Socket) (target : UserId)
    (candidate : Payload) : State * list (nat * Msg) :=
  (st, emit_user st target (call_ice_candidate candidate)).

(** [handleDisconnection(socket)] *)
Definition handleDisconnection (st : State) (socket : Socket)
    : State * list (nat * Msg) :=
  endFor st (userId socket) "disconnected".

(** The transport drops a closed socket before the handler runs. *)
Definition transport_remove (s : Socket) (st : State) : State :=
  {| activeCalls := activeCalls st;
     sockets := filter (λ s', sock_id s' ≠ sock_id s) (sockets st) |}.

(** The steps of the call handler: one per event of a socket, and one for
    the return of the [await] of a request that passed its checks, with
    the [targetSockets] that the checks found. *)
Inductive Event :=
| ECallRequest (s : Socket) (target : UserId) (off : Payload)
| ECallRequestResume (s : Socket) (target : UserId) (off : Payload)
    (targetSockets : list Socket)
| ECallAccept (s : Socket) (callerId : UserId)
| ECallAnswerSend (s : Socket) (target : UserId) (answer : Payload)
| ECallReject (s : Socket) (callerId : UserId)
| ECallEnd (s : Socket) (reason : option string)
| EIceCandidate (s : Socket) (target : UserId) (candidate : Payload)
| EDisconnect (s : Socket).

Definition run (dir : nat → option string) (st : State) (ev : Event)
    : State * list (nat * Msg) :=
  match ev with
  | ECallRequest s target off =>
      match handleCallRequest_checks st s target with
      | inl refusal => (st, [(sock_id s, refusal)])
      | inr _ => (st, [])
      end
  | ECallRequestResume s target off targetSockets =>
      handleCallRequest_resume dir st s target off targetSockets
  | ECallAccept s callerId => handleCallAccept st s callerId
  | ECallAnswerSend s target answer => handleCallAnswerSend st s target answer
  | ECallReject s callerId => handleCallReject st s callerId
  | ECallEnd s reason => handleCallEnd st s reason
  | EIceCandidate s target candidate => handleIceCandidate st s target candidate
  | EDisconnect s => handleDisconnection (transport_remove s st) s
  end.

(** No user is in two calls: the callers are distinct, and two different
    calls share no party. *)
Definition exclusive (st : State) : Prop :=
  NoDup (activeCalls st).*1
  ∧ ∀ k1 c1 k2 c2, (k1, c1) ∈ activeCalls st → (k2, c2) ∈ activeCalls st →
      k1 ≠ k2 →
      k1 ≠ targetUserId c2 ∧ targetUserId c1 ≠ k2 ∧ targetUserId c1 ≠ targetUserId c2.



(** Two requests for the same target, the second arriving while the
    first waits. *)
Definition overlapping (s1 s2 : Socket) (target : UserId) (off1 off2 : Payload)
    (targetSockets : list Socket) : list Event :=
  [ECallRequest s1 target off1; ECallRequest s2 target off2;
   ECallRequestResume s1 target off1 targetSockets;
   ECallRequestResume s2 target off2 targetSockets].


(** A registry with one ringing call, 1 calling 2, and a second device
    of user 2. *)
Definition st_one : State :=
  {| activeCalls := [(1, {| targetUserId := 2; status := ringing; offer := 7 |})];
     sockets := [sock 10 1; sock 20 2; sock 21 2; sock 30 3] |}.

Definition st_idle : State :=
  {| activeCalls := []; sockets := sockets st_one |}.

End Legacy.

(** ** The registry operations *)

Section RegistryFacts.
Context {V : Type}.
Implicit Types (r : list (nat * V)) (k : nat) (v : V).

Lemma reg_get_Some_elem r k v : reg_get k r = Some v → (k, v) ∈ r.
Proof.
  induction r as [|[k' v'] r IH]; simpl; [done|].
  case_decide; intros E; simplify_eq; [left | right; auto].
Qed.

Lemma reg_get_None_keys r k : reg_get k r = None ↔ k ∉ r.*1.
Proof.
  induction r as [|[k' v'] r IH]; simpl.
  - split; [intros _; apply not_elem_of_nil | done].
  - rewrite not_elem_of_cons. destruct (decide (k' = k)) as [->|Hne].
    + split; [done | intros [? _]; done].
    + rewrite IH. split; [intros ?; split; [congruence | done] | intros [_ ?]; done].
Qed.

Lemma elem_reg_get r k v : NoDup r.*1 → (k, v) ∈ r → reg_get k r = Some v.
Proof.
  induction r as [|[k' v'] r IH]; simpl; intros ND Hin.
  - by apply elem_of_nil in Hin.
  - apply NoDup_cons in ND as [Hk ND]. apply elem_of_cons in Hin as [E|Hin].
    + simplify_eq. by rewrite decide_True.
    + case_decide; [|auto]. subst k'. exfalso. apply Hk.
      apply list_elem_of_fmap. by exists (k, v).
Qed.

Lemma reg_get_set r k k' v :
  reg_get k' (reg_set k v r) = if decide (k = k') then Some v else reg_get k' r.
Proof.
  induction r as [|[k0 v0] r IH]; simpl; repeat (case_decide; simpl; simplify_eq); done.
Qed.

Lemma reg_get_delete r k k' :
  reg_get k' (reg_delete k r) = if decide (k = k') then None else reg_get k' r.
Proof.
  induction r as [|[k0 v0] r IH]; simpl; repeat (case_decide; simpl; simplify_eq); done.
Qed.

Lemma reg_get_alter (f : V → V) r k k' :
  reg_get k' (reg_alter f k r)
  = if decide (k = k') then f <$> reg_get k r else reg_get k' r.
Proof.
  induction r as [|[k0 v0] r IH]; simpl; repeat (case_decide; simpl; simplify_eq); done.
Qed.

Lemma reg_set_fresh r k v : reg_get k r = None → reg_set k v r = r ++ [(k, v)].
Proof.
  induction r as [|[k0 v0] r IH]; simpl; [done|].
  case_decide; [done|]. intros E. by rewrite IH.
Qed.

Lemma reg_set_keys r k v :
  (reg_set k v r).*1 = if decide (k ∈ r.*1) then r.*1 else r.*1 ++ [k].
Proof.
  induction r as [|[k0 v0] r IH]; csimpl; [done|].
  destruct (decide (k0 = k)) as [->|Hne]; csimpl.
  - destruct (decide (k ∈ k :: r.*1)) as [_|Hn]; [done | exfalso; apply Hn; left].
  - rewrite IH. destruct (decide (k ∈ r.*1)) as [Hin|Hin].
    + destruct (decide (k ∈ k0 :: r.*1)) as [_|Hn]; [done | exfalso; apply Hn; by right].
    + destruct (decide (k ∈ k0 :: r.*1)) as [Hn|_]; [|done].
      apply elem_of_cons in Hn as [?|?]; congruence.
Qed.

Lemma reg_alter_keys (f : V → V) r k : (reg_alter f k r).*1 = r.*1.
Proof.
  induction r as [|[k0 v0] r IH]; csimpl; [done|].
  case_decide; csimpl; by rewrite ?IH.
Qed.

Lemma reg_delete_elem r k k' v : (k', v) ∈ reg_delete k r → (k', v) ∈ r ∧ k' ≠ k.
Proof.
  induction r as [|[k0 v0] r IH]; simpl.
  - intros Hin. by apply elem_of_nil in Hin.
  - destruct (decide (k0 = k)) as [->|Hne].
    + intros Hin. apply IH in Hin as [??]. split; [by right | done].
    + intros Hin. apply elem_of_cons in Hin as [E|Hin].
      * simplify_eq. split; [left | done].
      * apply IH in Hin as [??]. split; [by right | done].
Qed.

Lemma reg_delete_NoDup r k : NoDup r.*1 → NoDup (reg_delete k r).*1.
Proof.
  induction r as [|[k0 v0] r IH]; csimpl; [done|].
  intros ND. apply NoDup_cons in ND as [Hk ND].
  case_decide; [auto|]. csimpl. apply NoDup_cons. split; [|auto].
  intros Hin. apply Hk. apply list_elem_of_fmap in Hin as [[k1 v1] [E Hin]].
  csimpl in E. subst k1. apply reg_delete_elem in Hin as [Hin _].
  apply list_elem_of_fmap. by exists (k0, v1).
Qed.

Lemma reg_set_elem r k v k' v' :
  (k', v') ∈ reg_set k v r → (k', v') ∈ r ∨ (k' = k ∧ v' = v).
Proof.
  induction r as [|[k0 v0] r IH]; simpl.
  - intros Hin. apply list_elem_of_singleton in Hin. simplify_eq. by right.
  - destruct (decide (k0 = k)) as [->|Hne];
      intros Hin; apply elem_of_cons in Hin as [E|Hin]; simplify_eq.
    + by right.
    + left. by right.
    + left. left.
    + destruct (IH Hin) as [?|?]; [left; by right | by right].
Qed.

Lemma reg_alter_elem (f : V → V) r k k' v' :
  (k', v') ∈ reg_alter f k r →
  (k', v') ∈ r ∨ (k' = k ∧ ∃ v, reg_get k r = Some v ∧ v' = f v).
Proof.
  induction r as [|[k0 v0] r IH]; simpl.
  - intros Hin. by apply elem_of_nil in Hin.
  - destruct (decide (k0 = k)) as [->|Hne];
      intros Hin; apply elem_of_cons in Hin as [E|Hin]; simplify_eq.
    + right. eauto.
    + left. by right.
    + left. left.
    + destruct (IH Hin) as [?|?]; [left; by right | by right].
Qed.

Lemma reg_find_Some (p : V → bool) r k v :
  reg_find p r = Some (k, v) → (k, v) ∈ r ∧ p v = true.
Proof.
  induction r as [|[k0 v0] r IH]; simpl; [done|].
  destruct (p v0) eqn:E.
  - intros ?; simplify_eq. split; [left | done].
  - intros H. apply IH in H as [??]. split; [by right | done].
Qed.
End RegistryFacts.

(** ** Well-formed registries and the index *)

Lemma single_occupancy_indexed st : single_occupancy st ↔ indexed st.
Proof.
  split.
  - intros H u c Hu. destruct (H u) as [_ H2].
    destruct (H2 c Hu) as (call & p & Hc & Hp & _). eauto.
  - intros H u. split; [congruence|].
    intros c Hu. destruct (H u c Hu) as (call & Hc & [p Hp]).
    exists call, p. repeat split; [done..|]. destruct (pstatus p); auto.
Qed.

Lemma wf_init : wf init.
Proof.
  split; [|constructor]. intros k call Hin. by apply elem_of_nil in Hin.
Qed.

Lemma indexed_init : indexed init.
Proof. intros u c Hu. simpl in Hu. by rewrite lookup_empty in Hu. Qed.

Section Preservation.
Implicit Types (st : State) (c k u : nat) (call : Call).

Lemma wf_ext st st' : activeCalls st' = activeCalls st → wf st → wf st'.
Proof. unfold wf, keys_agree. intros ->. done. Qed.

Lemma indexed_ext st st' :
  activeCalls st' = activeCalls st → userCalls st' = userCalls st →
  indexed st → indexed st'.
Proof. unfold indexed. intros -> ->. done. Qed.

Lemma wf_get st k call : wf st → (k, call) ∈ activeCalls st →
  callId call = k ∧ reg_get k (activeCalls st) = Some call.
Proof. intros [Hk Hnd] Hin. split; [by apply Hk | by apply elem_reg_get]. Qed.

Lemma wf_alter st k (f : Call → Call) :
  (∀ call, callId (f call) = callId call) →
  wf st → wf (with_calls (reg_alter f k) st).
Proof.
  intros Hf [Hk Hnd]. split; simpl.
  - intros k' call' Hin. apply reg_alter_elem in Hin as [Hin|[-> (v & Hv & ->)]].
    + by apply Hk.
    + rewrite Hf. apply Hk. by apply reg_get_Some_elem.
  - by rewrite reg_alter_keys.
Qed.

Lemma wf_delete st k : wf st → wf (with_calls (reg_delete k) st).
Proof.
  intros [Hk Hnd]. split; simpl.
  - intros k' call' Hin. apply reg_delete_elem in Hin as [Hin _]. by apply Hk.
  - by apply reg_delete_NoDup.
Qed.

Lemma wf_set_fresh st k call :
  callId call = k → reg_get k (activeCalls st) = None →
  wf st → wf (with_calls (reg_set k call) st).
Proof.
  intros Hc Hfresh [Hk Hnd]. split; simpl.
  - intros k' call' Hin. apply reg_set_elem in Hin as [Hin|[-> ->]]; [by apply Hk | done].
  - rewrite reg_set_keys. apply reg_get_None_keys in Hfresh.
    rewrite decide_False by done. apply NoDup_app. split_and!; [done | | apply NoDup_singleton].
    intros x Hx Hx'. apply list_elem_of_singleton in Hx'. by subst.
Qed.

Lemma indexed_alter st k (f : Call → Call) :
  (∀ call v, reg_get k (activeCalls st) = Some call →
     is_Some (participants call !! v) → userCalls st !! v = Some k →
     is_Some (participants (f call) !! v)) →
  indexed st → indexed (with_calls (reg_alter f k) st).
Proof.
  intros Hf Hi v c Hv. simpl in *. destruct (Hi v c Hv) as (call & Hc & Hp).
  rewrite reg_get_alter. destruct (decide (k = c)) as [->|Hne]; [|eauto].
  rewrite Hc. simpl. eauto.
Qed.

Lemma indexed_delete_user st u : indexed st → indexed (with_userCalls (delete u) st).
Proof.
  intros Hi v c Hv. simpl in *. apply lookup_delete_Some in Hv as [_ Hv]. by apply Hi.
Qed.

Lemma indexed_insert_user st u c call :
  reg_get c (activeCalls st) = Some call → is_Some (participants call !! u) →
  indexed st → indexed (with_userCalls (insert u c) st).
Proof.
  intros Hc Hp Hi v c' Hv. simpl in *.
  apply lookup_insert_Some in Hv as [[-> ->]|[_ Hv]]; [eauto | by apply Hi].
Qed.

Lemma foldr_leave_fields (l : list Socket) c st :
  let st' := foldr (λ s acc, leave (sock_id s) c acc) st l in
  activeCalls st' = activeCalls st ∧ userCalls st' = userCalls st
  ∧ sockets st' = sockets st.
Proof. induction l as [|s l IH]; simpl; [done|]. apply IH. Qed.

(** [endCall] on a session of the registry, field by field. *)
Lemma endCall_fields st c reason call :
  reg_get c (activeCalls st) = Some call →
  let st' := (endCall st c reason).1 in
  activeCalls st' = reg_delete c (activeCalls st)
  ∧ userCalls st' = foldr delete (userCalls st) (map_to_list (participants call)).*1
  ∧ sockets st' = sockets st
  ∧ (endCall st c reason).2 = emit_room st c (call_ended c reason).
Proof.
  intros Hc. unfold endCall. rewrite Hc. simpl.
  match goal with |- context [foldr ?f ?a ?l] =>
    destruct (foldr_leave_fields l c a) as (-> & -> & ->) end.
  done.
Qed.

Lemma endCall_absent st c reason :
  reg_get c (activeCalls st) = None → endCall st c reason = (st, []).
Proof. intros Hc. unfold endCall. by rewrite Hc. Qed.

Lemma wf_endCall st c reason : wf st → wf (endCall st c reason).1.
Proof.
  intros Hwf. destruct (reg_get c (activeCalls st)) as [call|] eqn:Hc.
  - destruct (endCall_fields st c reason call Hc) as (Ha & _).
    apply (wf_ext (with_calls (reg_delete c) st)); [exact Ha|]. by apply wf_delete.
  - by rewrite endCall_absent.
Qed.

Lemma indexed_endCall st c reason : indexed st → indexed (endCall st c reason).1.
Proof.
  intros Hi. destruct (reg_get c (activeCalls st)) as [call|] eqn:Hc.
  - destruct (endCall_fields st c reason call Hc) as (Ha & Hu & _).
    intros v c' Hv. rewrite Hu in Hv. rewrite Ha.
    apply lookup_foldr_delete_Some in Hv as [Hnin Hv].
    destruct (Hi v c' Hv) as (call' & Hc' & Hp).
    rewrite reg_get_delete. destruct (decide (c = c')) as [->|Hne]; [|eauto].
    exfalso. apply Hnin. rewrite Hc in Hc'. simplify_eq.
    destruct Hp as [p Hp]. apply list_elem_of_fmap. exists (v, p).
    split; [done|]. by apply elem_of_map_to_list.
  - by rewrite endCall_absent.
Qed.
End Preservation.

(** ** Every handler keeps the registry well formed and the index sound *)

Section HandlersKeepInv.
Variable dir : nat → option string.
Implicit Types (st : State) (s : Socket).

Lemma resolveCall_elem st d u k call :
  resolveCall st d u = Some (k, call) → (k, call) ∈ activeCalls st.
Proof.
  unfold resolveCall. destruct (ans_callId d) as [c|]; simpl.
  - destruct (reg_get c (activeCalls st)) as [call0|] eqn:Hc; simpl.
    + intros ?; simplify_eq. by apply reg_get_Some_elem.
    + intros H. by apply reg_find_Some in H as [? _].
  - intros H. by apply reg_find_Some in H as [? _].
Qed.

Lemma Inv_handleCallRequest gen st s d :
  reg_get gen (activeCalls st) = None → Inv st →
  Inv (handleCallRequest dir gen st s d).1.
Proof.
  intros Hfresh [Hwf Hi]. unfold handleCallRequest.
  destruct (isUserInCall st (userId s)); [done|].
  destruct (classify st (request_targets d)) as [un av].
  case_bool_decide; [done|]. simpl. split.
  - eapply wf_ext; [|apply (wf_set_fresh st gen); [|exact Hfresh|exact Hwf]]; done.
  - intros v c Hv. simpl in *. rewrite reg_get_set.
    apply lookup_insert_Some in Hv as [[-> ->]|[Hne Hv]].
    + rewrite decide_True by done. eexists. split; [done|]. simpl.
      rewrite lookup_singleton_eq. eauto.
    + destruct (Hi v c Hv) as (call & Hc & Hp).
      rewrite decide_False by congruence. eauto.
Qed.

Lemma Inv_handleCallAccept st s d : Inv st → Inv (handleCallAccept dir st s d).1.
Proof.
  intros [Hwf Hi]. unfold handleCallAccept.
  destruct (resolveCall st d (userId s)) as [[k call]|] eqn:Hr; [|done].
  apply resolveCall_elem in Hr. destruct (wf_get _ _ _ Hwf Hr) as [Hk Hc].
  simpl. split.
  - eapply wf_ext; [|eapply (wf_alter st k), Hwf]; done.
  - intros v c Hv. simpl in *. rewrite reg_get_alter, Hc. simpl.
    apply lookup_insert_Some in Hv as [[-> <-]|[Hne Hv]].
    + rewrite decide_True by done. eexists. split; [done|]. simpl.
      rewrite lookup_insert_eq. eauto.
    + destruct (Hi v c Hv) as (call0 & Hc0 & Hp).
      destruct (decide (k = c)) as [->|Hkc]; [|eauto].
      eexists. split; [done|]. simpl. rewrite lookup_insert_ne by done.
      by simplify_eq.
Qed.

Lemma Inv_handleCallAnswerSend st s d : Inv st → Inv (handleCallAnswerSend st s d).1.
Proof.
  intros [Hwf Hi]. unfold handleCallAnswerSend.
  match goal with |- context [?o ≫= ?f] => destruct (o ≫= f) as [[k call]|]; [|done] end.
  case_bool_decide; [|done]. simpl. split.
  - by apply wf_alter.
  - apply indexed_alter; [|done]. intros call0 v _ [p Hp] _. simpl.
    rewrite lookup_alter. destruct (decide (userId s = v)) as [<-|Hne]; rewrite Hp; simpl; eauto.
Qed.

Lemma Inv_handleAddParticipant st s d : Inv st → Inv (handleAddParticipant dir st s d).1.
Proof.
  intros [Hwf Hi]. unfold handleAddParticipant.
  match goal with |- context [?o ≫= ?f] => destruct (o ≫= f) as [[k call]|]; [|done] end.
  repeat (case_bool_decide; [done|]).
  destruct (isUserInCall st (add_targetUserId d)); [done|].
  case_bool_decide; [done|]. simpl. split.
  - by apply wf_alter.
  - by apply indexed_alter.
Qed.

Lemma Inv_handleCallReject st s d : Inv st → Inv (handleCallReject st s d).1.
Proof.
  intros [Hwf Hi]. unfold handleCallReject.
  destruct (resolveCall st d (userId s)) as [[k call]|] eqn:Hr; [|done].
  apply resolveCall_elem in Hr. destruct (wf_get _ _ _ Hwf Hr) as [Hk Hc].
  set (st1 := with_calls _ st).
  assert (Inv st1) as [Hwf1 Hi1].
  { split; [by apply wf_alter|]. apply indexed_alter; [|done].
    intros call0 v Hc0 Hp _. simpl. by simplify_eq. }
  case_bool_decide; [|done].
  destruct (endCall st1 (callId call) rejected) as [st2 out2] eqn:He. simpl.
  replace st2 with (endCall st1 (callId call) rejected).1 by (by rewrite He).
  split; [by apply wf_endCall | by apply indexed_endCall].
Qed.

(** The common part of [handleCallEnd] and [handleDisconnection]: the
    user leaves the session the index names. *)
Lemma Inv_remove_participant st u c :
  Inv st →
  Inv (with_userCalls (delete u)
         (with_calls (reg_alter (set_participants (delete u)) c) st)).
Proof.
  intros [Hwf Hi]. split.
  - eapply wf_ext; [|by apply (wf_alter st c (set_participants (delete u)))]. done.
  - intros v c' Hv. simpl in *. apply lookup_delete_Some in Hv as [Hne Hv].
    destruct (Hi v c' Hv) as (call & Hc & Hp). rewrite reg_get_alter.
    destruct (decide (c = c')) as [->|Hcc]; [|eauto].
    rewrite Hc. simpl. eexists. split; [done|]. simpl.
    by rewrite lookup_delete_ne.
Qed.

Lemma Inv_handleCallEnd st s reason : Inv st → Inv (handleCallEnd st s reason).1.
Proof.
  intros HI. unfold handleCallEnd.
  destruct (userCalls st !! userId s) as [c|] eqn:Hu; [|done].
  destruct (reg_get c (activeCalls st)) as [call|] eqn:Hc; [|done].
  pose proof (Inv_remove_participant st (userId s) c HI) as [Hwf1 Hi1].
  set (st3 := leave _ _ _).
  assert (Inv st3) as [Hwf3 Hi3].
  { split; [eapply wf_ext; [|exact Hwf1] | eapply indexed_ext; [| |exact Hi1]]; done. }
  case_bool_decide; [|done].
  match goal with |- context [endCall ?a ?b ?r] =>
    destruct (endCall a b r) as [st4 out2] eqn:He;
    replace st4 with (endCall a b r).1 by (by rewrite He) end.
  split; [by apply wf_endCall | by apply indexed_endCall].
Qed.

Lemma Inv_handleDisconnection st s : Inv st → Inv (handleDisconnection st s).1.
Proof.
  intros HI. unfold handleDisconnection.
  destruct (userCalls st !! userId s) as [c|] eqn:Hu; [|done].
  destruct (reg_get c (activeCalls st)) as [call|] eqn:Hc; [|done].
  case_bool_decide; [done|].
  pose proof (Inv_remove_participant st (userId s) c HI) as [Hwf1 Hi1].
  set (st2 := with_userCalls _ _).
  assert (Inv st2) as [Hwf2 Hi2].
  { split; [eapply wf_ext; [|exact Hwf1] | eapply indexed_ext; [| |exact Hi1]]; done. }
  case_bool_decide; [|done].
  match goal with |- context [endCall ?a ?b ?r] =>
    destruct (endCall a b r) as [st4 out2] eqn:He;
    replace st4 with (endCall a b r).1 by (by rewrite He) end.
  split; [by apply wf_endCall | by apply indexed_endCall].
Qed.

Lemma Inv_handleCallChatMessage st s d : Inv st → Inv (handleCallChatMessage st s d).1.
Proof.
  intros HI. unfold handleCallChatMessage.
  destruct (userCalls st !! userId s), (chat_callId d); try done.
  case_bool_decide; [|done]. by destruct (reg_get _ _).
Qed.

Lemma Inv_run st ev : enabled st ev → Inv st → Inv (run dir st ev).1.
Proof.
  intros Hen HI. destruct ev; simpl.
  - destruct HI as [Hwf Hi]. split; [by eapply wf_ext | by eapply indexed_ext].
  - destruct Hen as [_ Hfresh]. by apply Inv_handleCallRequest.
  - by apply Inv_handleCallAccept.
  - by apply Inv_handleCallReject.
  - by apply Inv_handleCallEnd.
  - by apply Inv_handleCallAnswerSend.
  - by apply Inv_handleAddParticipant.
  - by apply Inv_handleCallChatMessage.
  - apply Inv_handleDisconnection. destruct HI as [Hwf Hi].
    split; [by eapply wf_ext | by eapply indexed_ext].
Qed.

Lemma reachable_Inv st : reachable dir st → Inv st.
Proof.
  induction 1 as [|st ev Hr IH Hen].
  - split; [apply wf_init | apply indexed_init].
  - by apply Inv_run.
Qed.
End HandlersKeepInv.

(** ** Single occupancy *)

Lemma reachable_foldl dir evs st :
  reachable dir st → enabled_from dir st evs →
  reachable dir (foldl (λ st ev, (run dir st ev).1) st evs).
Proof.
  revert st. induction evs as [|ev evs IH]; simpl; intros st Hr Hen; [done|].
  destruct Hen as [Hen Hens]. apply IH; [by apply reach_step | done].
Qed.

Lemma reachable_run_all dir evs :
  enabled_from dir init evs → reachable dir (run_all dir evs).
Proof. apply reachable_foldl, reach_init. Qed.

Lemma reachable_st_online : reachable no_names st_online.
Proof. apply reachable_run_all. cbn. repeat split; compute_done. Qed.

Lemma reachable_st_ringing : reachable no_names st_ringing.
Proof. apply reachable_run_all. cbn. repeat split; compute_done. Qed.

Lemma reachable_st_active : reachable no_names st_active.
Proof. apply reachable_run_all. cbn. repeat split; compute_done. Qed.

(** C1. Single occupancy: in every state the server can reach, and so
    after every completed operation, an entry of the user-to-call index
    names one call id, that session is in the registry and the user is a
    key of its participants map with status connecting or connected; the
    same holds after the next event whatever it is, and in particular
    after an accept by a user who already occupies a session. *)
Theorem single_occupancy_invariant dir st :
  reachable dir st →
  single_occupancy st
  ∧ (∀ ev, enabled st ev → single_occupancy (run dir st ev).1)
  ∧ (∀ s d, s ∈ sockets st → isUserInCall st (userId s) = true →
       single_occupancy (handleCallAccept dir st s d).1).
Proof.
  intros Hr. split_and!.
  - apply single_occupancy_indexed. by apply (reachable_Inv dir).
  - intros ev Hen. apply single_occupancy_indexed.
    apply (reachable_Inv dir). by apply reach_step.
  - intros s d Hs _. apply single_occupancy_indexed.
    by apply Inv_handleCallAccept, (reachable_Inv dir).
Qed.

Lemma single_occupancy_invariant_witness :
  reachable no_names st_active
  ∧ single_occupancy st_active
  ∧ (∀ ev, enabled st_active ev → single_occupancy (run no_names st_active ev).1)
  ∧ (∀ s d, s ∈ sockets st_active → isUserInCall st_active (userId s) = true →
       single_occupancy (handleCallAccept no_names st_active s d).1).
Proof.
  split; [exact reachable_st_active|].
  apply (single_occupancy_invariant no_names st_active). exact reachable_st_active.
Defined.

(** The index is sound but not complete: a user who accepts a second
    session by its id stays a participant of the first one, which the
    index no longer names. *)
Example accept_while_in_call_keeps_old_membership :
  let st := run_all no_names evs_two_sessions in
  userCalls st !! 2 = Some 200
  ∧ (∃ c, reg_get 100 (activeCalls st) = Some c ∧ is_Some (participants c !! 2))
  ∧ (∃ c, reg_get 200 (activeCalls st) = Some c ∧ is_Some (participants c !! 2)).
Proof. vm_compute. split_and!; eauto. Qed.

(** ** Disjointness of participants and pending invitees *)

(** C2. Disjointness fails for a session created by a start-call request
    whose target list names the caller: user 1, connected and in no call,
    asks for a call to user 1; the session that is created has user 1 both
    as a key of participants and as a member of pendingInvites. *)
Theorem handleCallRequest_self_target_overlap :
  let '(st', out) :=
    handleCallRequest no_names 100 st_online (sock 10 1) (request [1]) in
  reachable no_names st_online
  ∧ sock 10 1 ∈ sockets st_online
  ∧ isUserInCall st_online 1 = false
  ∧ (∃ call, reg_get 100 (activeCalls st') = Some call
             ∧ 1 ∈ dom (participants call) ∧ 1 ∈ pendingInvites call)
  ∧ ¬ disjointness st'.
Proof.
  vm_compute handleCallRequest. split_and!.
  - exact reachable_st_online.
  - compute_done.
  - done.
  - eexists. split; [vm_compute; reflexivity|]. split; compute_done.
  - intros Hd. eapply (Hd 100 _ (list_elem_of_here _ _) 1); compute_done.
Qed.

(** ** Accepting a call *)

(** C3. The accept precondition fails when the session is resolved by call
    id: user 3 was never invited to session 100, accepts it by id, and is
    registered as a participant; the index and the session status change
    and no error is emitted. *)
Theorem handleCallAccept_uninvited_by_id :
  let '(st', out) := handleCallAccept no_names st_ringing (sock 30 3) (by_id 100) in
  reachable no_names st_ringing
  ∧ sock 30 3 ∈ sockets st_ringing
  ∧ (∃ call, resolveCall st_ringing (by_id 100) 3 = Some (100, call)
           ∧ (3 ∉ pendingInvites call) ∧ status call = ringing
           ∧ participants call !! 3 = None)
  ∧ userCalls st_ringing !! 3 = None
  ∧ (∀ e, e ∈ out → ∀ m, e.2 ≠ call_error m)
  ∧ userCalls st' !! 3 = Some 100
  ∧ (∃ call', reg_get 100 (activeCalls st') = Some call'
              ∧ participants call' !! 3 = Some {| oderId := 3; pstatus := connecting |}
              ∧ status call' = active).
Proof.
  vm_compute handleCallAccept. split_and!.
  - exact reachable_st_ringing.
  - compute_done.
  - eexists. split; [vm_compute; reflexivity|]. split_and!; compute_done.
  - compute_done.
  - intros e He m. repeat (apply elem_of_cons in He as [->|He]; [done|]).
    by apply elem_of_nil in He.
  - compute_done.
  - eexists. split; [vm_compute; reflexivity|]. split; compute_done.
Qed.

(** ** Creating a call *)

Lemma classify_spec st ts :
  (classify st ts).1 = filter (unavailable_target st) ts
  ∧ (classify st ts).2
    = (λ t, (t, getUserSockets st t)) <$> filter (λ t, ¬ unavailable_target st t) ts.
Proof.
  induction ts as [|t ts [IH1 IH2]]; [done|].
  cbn [classify]. destruct (classify st ts) as [un av]. simpl in IH1, IH2. subst un av.
  rewrite !filter_cons.
  destruct (isUserInCall st t) eqn:Hin.
  - rewrite (decide_True (P:=unavailable_target st t)) by (by left).
    rewrite (decide_False (P:=¬ unavailable_target st t)) by (intros H; apply H; by left).
    done.
  - destruct (getUserSockets st t) as [|s0 ss] eqn:Hs; simpl.
    + rewrite (decide_True (P:=unavailable_target st t)) by (by right).
      rewrite (decide_False (P:=¬ unavailable_target st t)) by (intros H; apply H; by right).
      done.
    + assert (¬ unavailable_target st t) as Hav.
      { intros [?|?]; [congruence | by rewrite Hs in *]. }
      rewrite (decide_False (P:=unavailable_target st t)) by done.
      rewrite (decide_True (P:=¬ unavailable_target st t)) by done.
      csimpl. by rewrite Hs.
Qed.

Lemma filter_not_nil_Forall {A} (P : A → Prop) `{!∀ x, Decision (P x)} (l : list A) :
  filter (λ x, ¬ P x) l = [] ↔ Forall P l.
Proof.
  induction l as [|x l IH]; [by split|].
  rewrite filter_cons, Forall_cons. destruct (decide (P x)) as [Hx|Hx].
  - rewrite (decide_False (P:=¬ P x)) by auto. rewrite IH. split; [by split | by intros [_ ?]].
  - rewrite (decide_True (P:=¬ P x)) by auto. split; [done | by intros [? _]].
Qed.

Lemma elem_of_flat_map {A B} (f : A → list B) (l : list A) (e : B) :
  e ∈ flat_map f l ↔ ∃ a, a ∈ l ∧ e ∈ f a.
Proof.
  rewrite list_elem_of_In, in_flat_map. split.
  - intros (a & Ha & He). exists a. by rewrite !list_elem_of_In.
  - intros (a & Ha & He). exists a. by rewrite <-!list_elem_of_In.
Qed.

(** C4. Partial-success call creation: for a caller in no call, every
    target is unavailable exactly when it is in a call or has no live
    connection; when all targets are unavailable the caller gets an error
    and nothing changes; otherwise one session is added to the registry,
    ringing, with the caller as only participant and the available targets
    as pendingInvites, and when some target was unavailable the caller is
    sent the list of the unavailable targets. *)
Theorem handleCallRequest_partial_success dir gen st s d :
  isUserInCall st (userId s) = false →
  request_targets d ≠ [] →
  reg_get gen (activeCalls st) = None →
  let targets := request_targets d in
  let unavailable := filter (unavailable_target st) targets in
  let available := filter (λ t, ¬ unavailable_target st t) targets in
  let st' := (handleCallRequest dir gen st s d).1 in
  let out := (handleCallRequest dir gen st s d).2 in
  (classify st targets).1 = unavailable
  ∧ (classify st targets).2.*1 = available
  ∧ (Forall (unavailable_target st) targets →
       st' = st ∧ out = [(sock_id s, call_error "Ningún usuario está disponible")])
  ∧ (¬ Forall (unavailable_target st) targets →
       ∃ call,
         activeCalls st' = activeCalls st ++ [(gen, call)]
         ∧ callId call = gen ∧ hostId call = userId s ∧ status call = ringing
         ∧ participants call
           = {[ userId s := {| oderId := userId s; pstatus := connected |} ]}
         ∧ pendingInvites call = list_to_set available
         ∧ userCalls st' = <[userId s := gen]> (userCalls st)
         ∧ (unavailable ≠ [] →
              (sock_id s, call_users_unavailable unavailable) ∈ out)
         ∧ (∀ e us, e ∈ out → e.2 = call_users_unavailable us →
              e.1 = sock_id s ∧ us = unavailable)
         ∧ (∀ e m, e ∈ out → e.2 ≠ call_error m)).
Proof.
  intros Hfree Hne Hfresh targets unavailable available st' out.
  destruct (classify_spec st targets) as [Hun Hav].
  assert ((classify st targets).2.*1 = available) as Hav'.
  { rewrite Hav, <-list_fmap_compose. apply list_fmap_id. }
  split_and!; [done..| |].
  - intros Hall. apply (filter_not_nil_Forall (unavailable_target st)) in Hall.
    fold available in Hall.
    unfold st', out, handleCallRequest. rewrite Hfree. fold targets.
    destruct (classify st targets) as [un av]. simpl in Hav'.
    rewrite bool_decide_true; [done|].
    rewrite <-(length_fmap fst av), Hav', Hall. done.
  - intros Hsome. rewrite <-(filter_not_nil_Forall (unavailable_target st)) in Hsome.
    fold available in Hsome.
    unfold st', out, handleCallRequest. rewrite Hfree. fold targets.
    destruct (classify st targets) as [un av]. simpl in Hun, Hav'.
    rewrite bool_decide_false; last first.
    { rewrite <-(length_fmap fst av), Hav'. by destruct available. }
    simpl. eexists. split; [by apply reg_set_fresh|]. simpl.
    rewrite Hav', Hun. split_and!; try done.
    + intros Hu. fold unavailable.
      rewrite (bool_decide_true (0 < length unavailable)); last first.
      { destruct (decide (length unavailable = 0)) as [E%nil_length_inv|E]; [done | lia]. }
      rewrite elem_of_cons, elem_of_app. right. right. left.
    + intros e us He Hm. fold unavailable in He.
      rewrite elem_of_cons, elem_of_app in He. destruct He as [He|[He|He]].
      * by subst e.
      * apply elem_of_flat_map in He as (a & _ & He).
        apply list_elem_of_fmap in He as (x & -> & _). done.
      * case_bool_decide; [|by apply elem_of_nil in He].
        apply list_elem_of_singleton in He. subst e. simpl in Hm. by simplify_eq.
    + intros e m He Hm. rewrite elem_of_cons, elem_of_app in He.
      destruct He as [He|[He|He]].
      * by subst e.
      * apply elem_of_flat_map in He as (a & _ & He).
        apply list_elem_of_fmap in He as (x & -> & _). done.
      * case_bool_decide; [|by apply elem_of_nil in He].
        apply list_elem_of_singleton in He. by subst e.
Qed.

Lemma handleCallRequest_partial_success_witness :
  let st := st_party in
  let s := sock 30 3 in
  let d := request [4; 2; 5] in
  isUserInCall st (userId s) = false
  ∧ request_targets d ≠ []
  ∧ reg_get 200 (activeCalls st) = None
  ∧ filter (unavailable_target st) (request_targets d) = [2]
  ∧ filter (λ t, ¬ unavailable_target st t) (request_targets d) = [4; 5]
  ∧ ∃ call,
      activeCalls (handleCallRequest no_names 200 st s d).1
      = activeCalls st ++ [(200, call)]
      ∧ status call = ringing
      ∧ pendingInvites call = {[ 4; 5 ]}
      ∧ (sock_id s, call_users_unavailable [2])
        ∈ (handleCallRequest no_names 200 st s d).2.
Proof.
  intros st s d.
  assert (isUserInCall st (userId s) = false) as H1 by reflexivity.
  assert (request_targets d ≠ []) as H2 by discriminate.
  assert (reg_get 200 (activeCalls st) = None) as H3 by reflexivity.
  assert (filter (unavailable_target st) (request_targets d) = [2]) as H4
    by (vm_compute; reflexivity).
  assert (filter (λ t, ¬ unavailable_target st t) (request_targets d) = [4; 5]) as H5
    by (vm_compute; reflexivity).
  split_and!; [done..|].
  destruct (handleCallRequest_partial_success no_names 200 st s d H1 H2 H3)
    as (_ & _ & _ & Hok).
  destruct Hok as (call & Ha & _ & _ & Hs & _ & Hp & _ & Hu & _).
  { intros Hall. apply Forall_cons in Hall as [Hbad _].
    by destruct Hbad as [Hbad|Hbad]; vm_compute in Hbad. }
  exists call. split_and!; [done | done | |].
  - rewrite Hp, H5. vm_compute. reflexivity.
  - rewrite H4 in Hu. by apply Hu.
Defined.

(** C9. Scalar-target compatibility: a start-call request whose payload
    carries no array of targets is handled exactly as the request whose
    target list is the one-element list of the payload's [targetUserId]:
    same state after, same messages. *)
Theorem handleCallRequest_scalar_target dir gen st s d :
  req_targetUserIds d = None →
  handleCallRequest dir gen st s d
  = handleCallRequest dir gen st s
      {| req_targetUserIds := Some [req_targetUserId d];
         req_targetUserId := req_targetUserId d;
         req_offer := req_offer d;
         req_callType := req_callType d |}.
Proof.
  intros Hnone. unfold handleCallRequest, request_targets. by rewrite Hnone.
Qed.

Lemma handleCallRequest_scalar_target_witness :
  req_targetUserIds (scalar_request 2) = None
  ∧ handleCallRequest no_names 100 st_online (sock 10 1) (scalar_request 2)
    = handleCallRequest no_names 100 st_online (sock 10 1)
        {| req_targetUserIds := Some [2]; req_targetUserId := 2; req_offer := 7;
           req_callType := Some "video"%string |}.
Proof.
  split; [reflexivity|].
  apply (handleCallRequest_scalar_target no_names 100 st_online (sock 10 1)
           (scalar_request 2)).
  reflexivity.
Defined.

(** ** Leaving a call *)

(** C10. Leave outside a call is a silent no-op: when the user has no
    entry in the index, or the entry names a call id that is not in the
    registry, [handleCallEnd] emits nothing (no error, no notification)
    and leaves the state as it was. *)
Theorem handleCallEnd_outside_call st s reason :
  (userCalls st !! userId s = None
   ∨ ∃ c, userCalls st !! userId s = Some c ∧ reg_get c (activeCalls st) = None) →
  handleCallEnd st s reason = (st, []).
Proof.
  unfold handleCallEnd. intros [Hu|(c & Hu & Hc)]; rewrite Hu; [done|]. by rewrite Hc.
Qed.

Lemma handleCallEnd_outside_call_witness :
  userCalls st_online !! userId (sock 10 1) = None
  ∧ handleCallEnd st_online (sock 10 1) (Some "bye"%string) = (st_online, [])
  ∧ (∃ c, userCalls st_stale !! userId (sock 30 3) = Some c
          ∧ reg_get c (activeCalls st_stale) = None)
  ∧ handleCallEnd st_stale (sock 30 3) None = (st_stale, []).
Proof.
  split_and!.
  - reflexivity.
  - apply handleCallEnd_outside_call. left. reflexivity.
  - exists 300. split; reflexivity.
  - apply handleCallEnd_outside_call. right. exists 300. split; reflexivity.
Defined.

(** ** Termination of a session *)

(** What [endCall] leaves behind: the session is out of the registry, no
    participant of it has an index entry, and the room was told why. *)
Lemma endCall_terminates st c reason call :
  reg_get c (activeCalls st) = Some call →
  let st' := (endCall st c reason).1 in
  reg_get c (activeCalls st') = None
  ∧ (∀ v, is_Some (participants call !! v) → userCalls st' !! v = None)
  ∧ (∀ v, userCalls st !! v = None → userCalls st' !! v = None)
  ∧ (endCall st c reason).2 = emit_room st c (call_ended c reason).
Proof.
  intros Hc st'. destruct (endCall_fields st c reason call Hc) as (Ha & Hu & _ & Ho).
  unfold st'. rewrite Ha, Hu. split_and!; [|intros v [p Hp]|intros v Hv|done].
  - rewrite reg_get_delete. by rewrite decide_True.
  - apply lookup_foldr_delete. apply list_elem_of_fmap. exists (v, p).
    split; [done|]. by apply elem_of_map_to_list.
  - destruct (foldr delete (userCalls st) _ !! v) as [x|] eqn:E; [|done].
    apply lookup_foldr_delete_Some in E as [_ E]. congruence.
Qed.

(** ** Rejecting a call *)

(** C5. Reject collapse: a reject on a session of the registry removes the
    user from pendingInvites; if the participants map then has one entry
    and pendingInvites is empty, the session is ended with reason rejected
    and is no longer in the registry; otherwise the session stays in the
    registry. *)
Theorem handleCallReject_collapse st s d k call :
  wf st →
  resolveCall st d (userId s) = Some (k, call) →
  let u := userId s in
  let call' := set_pendingInvites (λ p, p ∖ {[ u ]}) call in
  let st1 := with_calls (reg_alter (set_pendingInvites (λ p, p ∖ {[ u ]})) k) st in
  let st' := (handleCallReject st s d).1 in
  let out := (handleCallReject st s d).2 in
  reg_get k (activeCalls st) = Some call
  ∧ reg_get k (activeCalls st1) = Some call'
  ∧ (u ∉ pendingInvites call')
  ∧ (size (participants call') = 1 ∧ pendingInvites call' = ∅ →
       st' = (endCall st1 k rejected).1
       ∧ reg_get k (activeCalls st') = None
       ∧ (∀ v, is_Some (participants call !! v) → userCalls st' !! v = None)
       ∧ out = emit_room st k (call_participant_rejected k u)
               ++ emit_room st k (call_ended k rejected))
  ∧ (¬ (size (participants call') = 1 ∧ pendingInvites call' = ∅) →
       st' = st1
       ∧ reg_get k (activeCalls st') = Some call'
       ∧ out = emit_room st k (call_participant_rejected k u)).
Proof.
  intros Hwf Hr u call' st1 st' out.
  apply resolveCall_elem in Hr as Hin. destruct (wf_get _ _ _ Hwf Hin) as [Hk Hc].
  assert (reg_get k (activeCalls st1) = Some call') as Hc1.
  { simpl. rewrite reg_get_alter, decide_True by done. by rewrite Hc. }
  assert (size (pendingInvites call') = 0 ↔ pendingInvites call' = ∅) as Hsz.
  { rewrite size_empty_iff. by unfold_leibniz. }
  split_and!; [done | done | | |].
  - simpl. rewrite elem_of_difference. intros [_ Hn]. apply Hn. by apply elem_of_singleton.
  - intros [Hp He]. unfold st', out, handleCallReject. rewrite Hr. fold u st1.
    rewrite bool_decide_true by (split; [exact Hp | by apply Hsz]).
    rewrite Hk. destruct (endCall_terminates st1 k rejected call' Hc1) as (H1 & H2 & _ & H4).
    destruct (endCall st1 k rejected) as [st2 out2]. simpl in *.
    split_and!; [done | done | done |]. by rewrite H4.
  - intros Hn. unfold st', out, handleCallReject. rewrite Hr. fold u st1.
    rewrite bool_decide_false; [by rewrite Hk|].
    intros [Hp He]. apply Hn. split; [exact Hp | by apply Hsz].
Qed.

Lemma handleCallReject_collapse_witness :
  wf st_ringing
  ∧ resolveCall st_ringing (by_host 1) 2 = Some (100, call_ringing)
  ∧ reg_get 100 (activeCalls (handleCallReject st_ringing (sock 20 2) (by_host 1)).1)
    = None
  ∧ userCalls (handleCallReject st_ringing (sock 20 2) (by_host 1)).1 !! 1 = None
  ∧ (handleCallReject st_ringing (sock 20 2) (by_host 1)).2
    = [(10, call_participant_rejected 100 2); (10, call_ended 100 rejected)].
Proof.
  assert (wf st_ringing) as Hwf by apply (reachable_Inv no_names), reachable_st_ringing.
  assert (resolveCall st_ringing (by_host 1) 2 = Some (100, call_ringing)) as Hr
    by (vm_compute; reflexivity).
  split_and!; [done | done | ..];
    destruct (handleCallReject_collapse st_ringing (sock 20 2) (by_host 1) 100
                call_ringing Hwf Hr) as (_ & _ & _ & Hyes & _);
    destruct Hyes as (_ & Hgone & Hidx & Hout);
    [split; vm_compute; reflexivity | | split; vm_compute; reflexivity |
     | split; vm_compute; reflexivity |].
  - exact Hgone.
  - apply Hidx. vm_compute. eauto.
  - rewrite Hout. vm_compute. reflexivity.
Defined.

(** ** Losing a connection *)

(** What [handleDisconnection] does for the session that the index entry
    of the user names: a lost connection changes nothing while the user
    has another live connection; when it was the last one, the user is
    removed from participants and from the index, and if the user was the
    host or no participant is left the session is ended with reason
    disconnected; otherwise the session stays, without the user. *)
Theorem handleDisconnection_multi_device st s c call :
  userCalls st !! userId s = Some c →
  reg_get c (activeCalls st) = Some call →
  let u := userId s in
  let others := filter (λ s', sock_id s' ≠ sock_id s) (getUserSockets st u) in
  let call' := set_participants (delete u) call in
  let st2 :=
    with_userCalls (delete u)
      (with_calls (reg_alter (set_participants (delete u)) c) st) in
  let left := call_participant_left c u None (size (participants call'))
                (Some "disconnected"%string) in
  let st' := (handleDisconnection st s).1 in
  let out := (handleDisconnection st s).2 in
  (others ≠ [] → st' = st ∧ out = [])
  ∧ (others = [] →
       reg_get c (activeCalls st2) = Some call'
       ∧ participants call' !! u = None
       ∧ userCalls st' !! u = None
       ∧ (u = hostId call ∨ participants call' = ∅ →
            st' = (endCall st2 c disconnected).1
            ∧ reg_get c (activeCalls st') = None
            ∧ (∀ v, is_Some (participants call !! v) → userCalls st' !! v = None)
            ∧ out = emit_room st c left ++ emit_room st c (call_ended c disconnected))
       ∧ (¬ (u = hostId call ∨ participants call' = ∅) →
            st' = st2
            ∧ reg_get c (activeCalls st') = Some call'
            ∧ out = emit_room st c left)).
Proof.
  intros Hu Hc u others call' st2 left st' out.
  assert (0 < length others ↔ others ≠ []) as Hlen.
  { destruct others; simpl; split; (done || lia). }
  assert (size (participants call') < 1 ↔ participants call' = ∅) as Hsz.
  { rewrite <-map_size_empty_iff. lia. }
  assert (reg_get c (activeCalls st2) = Some call') as Hc2.
  { simpl. rewrite reg_get_alter, decide_True by done. by rewrite Hc. }
  split.
  - intros Hne. unfold st', out, handleDisconnection. rewrite Hu, Hc.
    fold u others. by rewrite bool_decide_true by (by apply Hlen).
  - intros Hnil. split_and!; [done | apply lookup_delete_eq | | |].
    + unfold st', handleDisconnection. rewrite Hu, Hc. fold u others.
      rewrite bool_decide_false by (rewrite Hnil; simpl; lia).
      fold call' st2. case_bool_decide.
      * destruct (endCall_terminates st2 c disconnected call' Hc2) as (_ & _ & H3 & _).
        destruct (endCall st2 c disconnected) as [st3 out3]. simpl in *.
        apply H3. apply lookup_delete_eq.
      * simpl. apply lookup_delete_eq.
    + intros Hend. unfold st', out, handleDisconnection. rewrite Hu, Hc. fold u others.
      rewrite bool_decide_false by (rewrite Hnil; simpl; lia).
      fold call' st2. rewrite bool_decide_true by (rewrite Hsz; exact Hend).
      destruct (endCall_terminates st2 c disconnected call' Hc2) as (H1 & H2 & H3 & H4).
      destruct (endCall st2 c disconnected) as [st3 out3]. simpl in *.
      split_and!; [done | done | | by rewrite H4].
      intros v Hv. destruct (decide (v = u)) as [->|Hvu].
      * apply H3. apply lookup_delete_eq.
      * apply H2. by rewrite lookup_delete_ne.
    + intros Hstay. unfold st', out, handleDisconnection. rewrite Hu, Hc. fold u others.
      rewrite bool_decide_false by (rewrite Hnil; simpl; lia).
      fold call' st2. rewrite bool_decide_false by (rewrite Hsz; exact Hstay). done.
Qed.

Lemma handleDisconnection_multi_device_witness :
  let lost20 := transport_remove (sock 20 2) st_active in
  let lost10 := transport_remove (sock 10 1) st_active in
  (userCalls lost20 !! 2 = Some 100
   ∧ reg_get 100 (activeCalls lost20) = Some call_active
   ∧ run no_names st_active (EDisconnect (sock 20 2)) = (lost20, []))
  ∧ (userCalls lost10 !! 1 = Some 100
     ∧ reg_get 100 (activeCalls lost10) = Some call_active
     ∧ reg_get 100 (activeCalls (run no_names st_active (EDisconnect (sock 10 1))).1)
       = None
     ∧ userCalls (run no_names st_active (EDisconnect (sock 10 1))).1 !! 2 = None
     ∧ (run no_names st_active (EDisconnect (sock 10 1))).2
       = [(20, call_participant_left 100 1 None 1 (Some "disconnected"%string));
          (20, call_ended 100 disconnected)]).
Proof.
  intros lost20 lost10.
  assert (reg_get 100 (activeCalls lost20) = Some call_active) as Hc20
    by (vm_compute; reflexivity).
  assert (reg_get 100 (activeCalls lost10) = Some call_active) as Hc10
    by (vm_compute; reflexivity).
  split.
  - assert (userCalls lost20 !! userId (sock 20 2) = Some 100) as Hu by reflexivity.
    split_and!; [done | done |].
    destruct (handleDisconnection_multi_device lost20 (sock 20 2) 100 call_active Hu Hc20)
      as [Hkeep _].
    destruct Hkeep as [Hst Hout]; [by vm_compute|].
    by apply injective_projections.
  - assert (userCalls lost10 !! userId (sock 10 1) = Some 100) as Hu by reflexivity.
    destruct (handleDisconnection_multi_device lost10 (sock 10 1) 100 call_active Hu Hc10)
      as [_ Hlast].
    destruct Hlast as (_ & _ & _ & Hend & _); [by vm_compute|].
    destruct Hend as (_ & Hgone & Hidx & Hout); [by left|].
    split_and!; [done | done | done | |].
    + apply Hidx. vm_compute. eauto.
    + change ((handleDisconnection lost10 (sock 10 1)).2 = [(20, call_participant_left 100 1 None 1 (Some "disconnected"%string));
          (20, call_ended 100 disconnected)]).
      rewrite Hout. vm_compute. reflexivity.
Defined.

(** C7. Multi-device disconnect fails for a participant whose index entry
    names another session.  User 1 is invited to session 200 by user 3,
    starts session 100 as its host, and accepts session 200; the accept
    overwrites the index entry of user 1.  The state is reachable, socket
    10 is the only connection of user 1, and user 1 is a connected
    participant and the host of session 100.  When socket 10 is lost,
    [handleDisconnection] follows the index to session 200 alone:
    session 100 stays in the registry with user 1 as its host and
    participant, and nobody is told that it ended. *)
Theorem handleDisconnection_forgets_hosted_session :
  let st := st_host_elsewhere in
  let r := run no_names st (EDisconnect (sock 10 1)) in
  reachable no_names st
  ∧ enabled st (EDisconnect (sock 10 1))
  ∧ getUserSockets st 1 = [sock 10 1]
  ∧ userCalls st !! 1 = Some 200
  ∧ reg_get 100 (activeCalls st) = Some call_ringing
  ∧ participants call_ringing !! 1 = Some {| oderId := 1; pstatus := connected |}
  ∧ hostId call_ringing = 1
  ∧ getUserSockets r.1 1 = []
  ∧ userCalls r.1 !! 1 = None
  ∧ reg_get 100 (activeCalls r.1) = Some call_ringing
  ∧ r.2 = [(30, call_participant_left 200 1 None 1 (Some "disconnected"%string))].
Proof.
  intros st r. split_and!.
  - apply reachable_run_all. cbn. repeat split; compute_done.
  - change (sock 10 1 ∈ sockets st_host_elsewhere). compute_done.
  - vm_compute; reflexivity.
  - vm_compute; reflexivity.
  - vm_compute; reflexivity.
  - vm_compute; reflexivity.
  - reflexivity.
  - vm_compute; reflexivity.
  - vm_compute; reflexivity.
  - vm_compute; reflexivity.
  - vm_compute; reflexivity.
Qed.

(** ** Validation errors *)

Lemma elem_emit s m e : e ∈ emit s m ↔ e = (sock_id s, m).
Proof. unfold emit. apply list_elem_of_singleton. Qed.

Lemma elem_emit_room st c m e :
  e ∈ emit_room st c m ↔
  ∃ s, s ∈ sockets st ∧ (c, sock_id s) ∈ rooms st ∧ e = (sock_id s, m).
Proof.
  unfold emit_room, in_room. rewrite list_elem_of_fmap. split.
  - intros (s & -> & Hs). apply list_elem_of_filter in Hs as [Hr Hs].
    apply bool_decide_eq_true in Hr. eauto.
  - intros (s & Hs & Hr & ->). exists s. split; [done|].
    apply list_elem_of_filter. split; [|done]. by apply bool_decide_eq_true.
Qed.

Lemma elem_emit_room_except st self c m e :
  e ∈ emit_room_except st self c m ↔
  ∃ s, s ∈ sockets st ∧ (c, sock_id s) ∈ rooms st ∧ sock_id s ≠ sock_id self
       ∧ e = (sock_id s, m).
Proof.
  unfold emit_room_except, in_room. rewrite list_elem_of_fmap. split.
  - intros (s & -> & Hs). apply list_elem_of_filter in Hs as [[Hr Hne] Hs].
    apply bool_decide_eq_true in Hr. eauto 6.
  - intros (s & Hs & Hr & Hne & ->). exists s. split; [done|].
    apply list_elem_of_filter. split; [|done]. split; [|done].
    by apply bool_decide_eq_true.
Qed.

Lemma fail_closed_error st s m : fail_closed st s (st, emit s (call_error m)).
Proof.
  intros e m' He Hm. apply elem_emit in He. subst e. simpl in Hm. by simplify_eq.
Qed.

Lemma fail_closed_handleCallRequest dir gen st s d :
  fail_closed st s (handleCallRequest dir gen st s d).
Proof.
  unfold handleCallRequest.
  destruct (isUserInCall st (userId s)); [apply fail_closed_error|].
  destruct (classify st (request_targets d)) as [un av].
  case_bool_decide; [apply fail_closed_error|].
  intros e m He Hm. exfalso. simpl in He.
  rewrite elem_of_cons, elem_of_app in He. destruct He as [He|[He|He]].
  - by subst e.
  - apply elem_of_flat_map in He as (a & _ & He).
    apply list_elem_of_fmap in He as (x & -> & _). done.
  - case_bool_decide; [|by apply elem_of_nil in He].
    apply elem_emit in He. by subst e.
Qed.

Lemma fail_closed_handleCallAccept dir st s d :
  fail_closed st s (handleCallAccept dir st s d).
Proof.
  unfold handleCallAccept.
  destruct (resolveCall st d (userId s)) as [[k call]|]; [|apply fail_closed_error].
  intros e m He Hm. exfalso. simpl in He.
  rewrite elem_of_app in He. destruct He as [He|He].
  - apply elem_emit_room in He as (x & _ & _ & ->). done.
  - apply elem_emit in He. by subst e.
Qed.

Lemma fail_closed_handleAddParticipant dir st s d :
  fail_closed st s (handleAddParticipant dir st s d).
Proof.
  unfold handleAddParticipant.
  match goal with |- context [?o ≫= ?f] =>
    destruct (o ≫= f) as [[k call]|]; [|apply fail_closed_error] end.
  repeat (case_bool_decide; [apply fail_closed_error|]).
  destruct (isUserInCall st (add_targetUserId d)); [apply fail_closed_error|].
  case_bool_decide; [apply fail_closed_error|].
  intros e m He Hm. exfalso. simpl in He.
  rewrite elem_of_app in He. destruct He as [He|He].
  - apply list_elem_of_fmap in He as (x & -> & _). done.
  - apply elem_emit_room in He as (x & _ & _ & ->). done.
Qed.

Lemma fail_closed_handleCallChatMessage st s d :
  fail_closed st s (handleCallChatMessage st s d).
Proof.
  unfold handleCallChatMessage.
  destruct (userCalls st !! userId s) as [uc|], (chat_callId d) as [c|];
    try apply fail_closed_error.
  case_bool_decide; [|apply fail_closed_error].
  destruct (reg_get c (activeCalls st)) as [call|].
  - intros e m He Hm. exfalso. simpl in He.
    apply elem_emit_room_except in He as (x & _ & _ & _ & ->). done.
  - intros e m He Hm. by apply elem_of_nil in He.
Qed.

(** C8. Fail-closed validation: each validation check of start-call,
    accept-call, add-participant and send-call-chat (initiator already in
    a call, no eligible target, session not found, actor not a
    participant, target already present or invited, target in another
    call or unreachable, sender not in the call) ends the handler with an
    error sent to the initiating connection alone and with the state it
    started from; and whenever one of these handlers emits an error at
    all, that error is its only message and the state is unchanged. *)
Theorem validation_fail_closed dir gen st s :
  (∀ d, let r := handleCallRequest dir gen st s d in
        fail_closed st s r
        ∧ (isUserInCall st (userId s) = true → rejects st s r)
        ∧ (Forall (unavailable_target st) (request_targets d) → rejects st s r))
  ∧ (∀ d, let r := handleCallAccept dir st s d in
          fail_closed st s r
          ∧ (resolveCall st d (userId s) = None → rejects st s r))
  ∧ (∀ d, let r := handleAddParticipant dir st s d in
          let target := add_targetUserId d in
          fail_closed st s r
          ∧ ((∀ c, add_callId d = Some c → reg_get c (activeCalls st) = None) →
             rejects st s r)
          ∧ (∀ c call, add_callId d = Some c → reg_get c (activeCalls st) = Some call →
               participants call !! userId s = None
               ∨ is_Some (participants call !! target)
               ∨ target ∈ pendingInvites call
               ∨ unavailable_target st target →
               rejects st s r))
  ∧ (∀ d, let r := handleCallChatMessage st s d in
          fail_closed st s r
          ∧ ((∀ c, userCalls st !! userId s = Some c → chat_callId d ≠ Some c) →
             rejects st s r)).
Proof.
  split_and!; intros d r; subst r; simpl.
  - split_and!; [apply fail_closed_handleCallRequest | |].
    + intros Hin. unfold handleCallRequest. rewrite Hin. by eexists.
    + intros Hall. unfold handleCallRequest.
      destruct (isUserInCall st (userId s)); [by eexists|].
      destruct (classify_spec st (request_targets d)) as [_ Hav].
      apply (filter_not_nil_Forall (unavailable_target st)) in Hall.
      rewrite Hall in Hav. destruct (classify st (request_targets d)) as [un av].
      simpl in Hav. subst av. simpl. by eexists.
  - split; [apply fail_closed_handleCallAccept|].
    intros Hr. unfold handleCallAccept. rewrite Hr. by eexists.
  - split_and!; [apply fail_closed_handleAddParticipant | |].
    + intros Hnone. unfold handleAddParticipant.
      destruct (add_callId d) as [c|]; simpl; [|by eexists].
      rewrite (Hnone c eq_refl). simpl. by eexists.
    + intros c call Hd Hc Hbad. unfold handleAddParticipant. rewrite Hd. simpl.
      rewrite Hc. simpl.
      case_bool_decide as H1; [by eexists|].
      case_bool_decide as H2; [by eexists|].
      destruct (isUserInCall st (add_targetUserId d)) eqn:H3; [by eexists|].
      case_bool_decide as H4; [by eexists|]. exfalso.
      destruct Hbad as [?|[?|[?|[?|Hs]]]]; [done | by apply H2; left
        | by apply H2; right | congruence |].
      by rewrite Hs in H4.
  - split; [apply fail_closed_handleCallChatMessage|].
    intros Hno. unfold handleCallChatMessage.
    destruct (userCalls st !! userId s) as [uc|] eqn:Hu; [|by eexists].
    destruct (chat_callId d) as [c|] eqn:Hc; [|by eexists].
    case_bool_decide as E; [|by eexists]. subst uc. by destruct (Hno c eq_refl).
Qed.

(** The rejections on concrete events: user 1 is in session 100 of
    [st_active] with user 2; user 3 is free; user 9 is not connected. *)
Lemma validation_fail_closed_witness :
  rejects st_active (sock 10 1)
    (handleCallRequest no_names 200 st_active (sock 10 1) (request [3]))
  ∧ rejects st_active (sock 30 3)
      (handleCallRequest no_names 200 st_active (sock 30 3) (request [1; 9]))
  ∧ rejects st_active (sock 30 3)
      (handleCallAccept no_names st_active (sock 30 3) (by_host 1))
  ∧ rejects st_active (sock 30 3)
      (handleAddParticipant no_names st_active (sock 30 3)
         {| add_callId := Some 100; add_targetUserId := 3 |})
  ∧ rejects st_active (sock 10 1)
      (handleAddParticipant no_names st_active (sock 10 1)
         {| add_callId := Some 100; add_targetUserId := 2 |})
  ∧ rejects st_active (sock 10 1)
      (handleAddParticipant no_names st_active (sock 10 1)
         {| add_callId := Some 100; add_targetUserId := 9 |})
  ∧ rejects st_active (sock 30 3)
      (handleCallChatMessage st_active (sock 30 3)
         {| chat_callId := Some 100; chat_content := "hola";
            chat_senderName := None |}).
Proof.
  destruct (validation_fail_closed no_names 200 st_active (sock 10 1))
    as (Hreq1 & _ & Hadd1 & _).
  destruct (validation_fail_closed no_names 200 st_active (sock 30 3))
    as (Hreq3 & Hacc3 & Hadd3 & Hchat3).
  assert (reg_get 100 (activeCalls st_active) = Some call_active) as Hc
    by (vm_compute; reflexivity).
  split_and!.
  - destruct (Hreq1 (request [3])) as (_ & Hbusy & _). apply Hbusy. reflexivity.
  - destruct (Hreq3 (request [1; 9])) as (_ & _ & Hnone). apply Hnone.
    apply Forall_cons. split; [by left|].
    apply Forall_cons. split; [by right | by apply Forall_nil].
  - destruct (Hacc3 (by_host 1)) as (_ & Hnone). apply Hnone. reflexivity.
  - destruct (Hadd3 {| add_callId := Some 100; add_targetUserId := 3 |})
      as (_ & _ & Hbad).
    eapply Hbad; [reflexivity | exact Hc |]. left. reflexivity.
  - destruct (Hadd1 {| add_callId := Some 100; add_targetUserId := 2 |})
      as (_ & _ & Hbad).
    eapply Hbad; [reflexivity | exact Hc |]. right. left. vm_compute. eauto.
  - destruct (Hadd1 {| add_callId := Some 100; add_targetUserId := 9 |})
      as (_ & _ & Hbad).
    eapply Hbad; [reflexivity | exact Hc |]. do 3 right. right. reflexivity.
  - destruct (Hchat3 {| chat_callId := Some 100; chat_content := "hola";
                        chat_senderName := None |}) as (_ & Hno).
    apply Hno. intros c Hu. vm_compute in Hu. discriminate.
Defined.

(** ** In-call chat *)

(** C6, as stated, fails: in session 100 user 2 is a participant with two
    live connections, 20 (which accepted) and 21; a chat message of user 1
    reaches connection 20 only. *)
Lemma chat_routed_by_user_fails :
  reachable no_names st_active
  ∧ sock 10 1 ∈ sockets st_active
  ∧ (handleCallChatMessage st_active (sock 10 1) (chat 100 "hola")).2
    = [(20, call_chat_message 100 1 "Usuario" "hola")]
  ∧ ¬ chat_routed_by_user st_active (sock 10 1) (chat 100 "hola").
Proof.
  split_and!; [exact reachable_st_active | compute_done | vm_compute; reflexivity |].
  intros [_ Hall].
  destruct (Hall 100 call_active) as [Hothers _];
    [reflexivity | reflexivity | vm_compute; reflexivity |].
  specialize (Hothers 2 (sock 21 2)).
  assert ((21, call_chat_message 100 1 "Usuario" "hola")
          ∈ [(20, call_chat_message 100 1 "Usuario" "hola")]) as Hin.
  { apply Hothers; [vm_compute; eauto | done | compute_done | done]. }
  apply list_elem_of_singleton in Hin. discriminate.
Qed.

(** The sender's other connection is not spared either once it has joined
    the room: connection 11 of user 1 accepts session 100 by its id, and
    then receives what connection 10 writes. *)
Example chat_reaches_other_connection_of_sender :
  let st := run_all no_names
              (EConnect (sock 11 1) :: evs_ringing
               ++ [ECallAccept (sock 11 1) (by_id 100)]) in
  (handleCallChatMessage st (sock 10 1) (chat 100 "hola")).2
  = [(11, call_chat_message 100 1 "Usuario" "hola")].
Proof. vm_compute. reflexivity. Qed.

(** C6, amended. In-call chat is routed by room: when the index entry of
    the sender is absent or names another call, the sending connection
    gets an error and nothing is delivered; when it names the call and the
    session is in the registry, the state is unchanged and the message is
    delivered to exactly the live connections that are in the room of the
    call, the sending connection excepted, which receives nothing. *)
Theorem handleCallChatMessage_room_routing st s d :
  let r := handleCallChatMessage st s d in
  let u := userId s in
  ((∀ c, userCalls st !! u = Some c → chat_callId d ≠ Some c) → rejects st s r)
  ∧ (∀ c call, userCalls st !! u = Some c → chat_callId d = Some c →
       reg_get c (activeCalls st) = Some call →
       let m := call_chat_message c u (default "Usuario"%string (chat_senderName d))
                  (chat_content d) in
       r.1 = st
       ∧ (∀ e, e ∈ r.2 ↔
            ∃ s', s' ∈ sockets st ∧ (c, sock_id s') ∈ rooms st
                  ∧ sock_id s' ≠ sock_id s ∧ e = (sock_id s', m))
       ∧ (∀ m', (sock_id s, m') ∉ r.2)).
Proof.
  intros r u. split.
  - intros Hno. unfold r, handleCallChatMessage. fold u.
    destruct (userCalls st !! u) as [uc|] eqn:Hu; [|by eexists].
    destruct (chat_callId d) as [c|] eqn:Hc; [|by eexists].
    case_bool_decide as E; [|by eexists]. subst uc. by destruct (Hno c eq_refl).
  - intros c call Hu Hd Hc m.
    assert (r = (st, emit_room_except st s c m)) as ->.
    { unfold r, handleCallChatMessage. fold u. rewrite Hu, Hd.
      rewrite bool_decide_true by done. by rewrite Hc. }
    simpl. split_and!; [done | intros e; apply elem_emit_room_except |].
    intros m' Hin. apply elem_emit_room_except in Hin as (s' & _ & _ & Hne & E).
    by simplify_eq.
Qed.

Lemma handleCallChatMessage_room_routing_witness :
  userCalls st_active !! 1 = Some 100
  ∧ chat_callId (chat 100 "hola") = Some 100
  ∧ reg_get 100 (activeCalls st_active) = Some call_active
  ∧ (20, call_chat_message 100 1 "Usuario" "hola")
    ∈ (handleCallChatMessage st_active (sock 10 1) (chat 100 "hola")).2
  ∧ (∀ m', (10, m') ∉ (handleCallChatMessage st_active (sock 10 1) (chat 100 "hola")).2)
  ∧ rejects st_active (sock 30 3)
      (handleCallChatMessage st_active (sock 30 3) (chat 100 "hola")).
Proof.
  assert (reg_get 100 (activeCalls st_active) = Some call_active) as Hc
    by (vm_compute; reflexivity).
  destruct (handleCallChatMessage_room_routing st_active (sock 10 1) (chat 100 "hola"))
    as [_ Hin].
  destruct (Hin 100 call_active eq_refl eq_refl Hc) as (_ & Hiff & Hself).
  destruct (handleCallChatMessage_room_routing st_active (sock 30 3) (chat 100 "hola"))
    as [Hout _].
  split_and!; [reflexivity | reflexivity | exact Hc | | exact Hself |].
  - apply Hiff. exists (sock 20 2). split_and!; [compute_done | compute_done | done | done].
  - apply Hout. intros c Hu. vm_compute in Hu. discriminate.
Defined.

(** ** Where disjointness does hold *)

Lemma disjointness_ext st st' :
  activeCalls st' = activeCalls st → disjointness st → disjointness st'.
Proof. unfold disjointness. intros ->. done. Qed.

Lemma disjointness_alter st k (f : Call → Call) :
  (∀ call, reg_get k (activeCalls st) = Some call →
     disjoint_call call → disjoint_call (f call)) →
  disjointness st → disjointness (with_calls (reg_alter f k) st).
Proof.
  intros Hf Hd k' call' Hin. simpl in Hin.
  apply reg_alter_elem in Hin as [Hin|[-> (call & Hc & ->)]]; [by eapply Hd|].
  apply Hf; [done|]. eapply Hd. by apply reg_get_Some_elem.
Qed.

Lemma disjointness_endCall st c reason :
  disjointness st → disjointness (endCall st c reason).1.
Proof.
  intros Hd. destruct (reg_get c (activeCalls st)) as [call|] eqn:Hc.
  - destruct (endCall_fields st c reason call Hc) as (Ha & _).
    intros k' call' Hin. rewrite Ha in Hin.
    apply reg_delete_elem in Hin as [Hin _]. by eapply Hd.
  - by rewrite endCall_absent.
Qed.

Lemma disjoint_call_remove_participant u call :
  disjoint_call call → disjoint_call (set_participants (delete u) call).
Proof.
  unfold disjoint_call. simpl. rewrite dom_delete_L.
  intros Hd x Hx. apply elem_of_difference in Hx as [Hx _]. by apply Hd.
Qed.

Lemma disjoint_call_remove_pending u call :
  disjoint_call call → disjoint_call (set_pendingInvites (λ p, p ∖ {[ u ]}) call).
Proof.
  unfold disjoint_call. simpl.
  intros Hd x Hx Hp. apply elem_of_difference in Hp as [Hp _]. by eapply Hd.
Qed.

(** Every event keeps participants and pendingInvites apart, but for a
    call request that names its own caller. *)
Lemma disjointness_run dir st ev :
  (∀ gen s d, ev = ECallRequest gen s d → userId s ∉ request_targets d) →
  disjointness st → disjointness (run dir st ev).1.
Proof.
  intros Hself Hd. destruct ev as [s|gen s d|s d|s d|s reason|s d|s d|s d|s]; simpl.
  - by eapply disjointness_ext.
  - specialize (Hself gen s d eq_refl). unfold handleCallRequest.
    destruct (isUserInCall st (userId s)); [done|].
    destruct (classify_spec st (request_targets d)) as [_ Hav].
    destruct (classify st (request_targets d)) as [un av]. simpl in Hav.
    case_bool_decide; [done|]. simpl.
    intros k call Hin. simpl in Hin.
    apply reg_set_elem in Hin as [Hin|[-> ->]]; [by eapply Hd|].
    unfold disjoint_call. simpl. rewrite dom_singleton_L.
    intros x Hx Hp. apply elem_of_singleton in Hx. subst x.
    apply elem_of_list_to_set in Hp. apply Hself.
    rewrite Hav, <-list_fmap_compose, list_fmap_id in Hp.
    by apply list_elem_of_filter in Hp as [_ Hp].
  - unfold handleCallAccept.
    destruct (resolveCall st d (userId s)) as [[k call]|]; [|done]. simpl.
    eapply disjointness_ext; [|eapply (disjointness_alter st k), Hd]; [done|].
    intros call0 _ Hd0. unfold disjoint_call in *. simpl. rewrite dom_insert_L.
    intros x Hx Hp. apply elem_of_difference in Hp as [Hp Hne].
    apply elem_of_union in Hx as [Hx|Hx]; [done | by eapply Hd0].
  - unfold handleCallReject.
    destruct (resolveCall st d (userId s)) as [[k call]|]; [|done].
    set (st1 := with_calls _ st).
    assert (disjointness st1) as Hd1.
    { apply disjointness_alter; [|done]. intros call0 _. apply disjoint_call_remove_pending. }
    case_bool_decide; [|done].
    destruct (endCall st1 (callId call) rejected) as [st2 out2] eqn:He. simpl.
    replace st2 with (endCall st1 (callId call) rejected).1 by (by rewrite He).
    by apply disjointness_endCall.
  - unfold handleCallEnd.
    destruct (userCalls st !! userId s) as [c|]; [|done].
    destruct (reg_get c (activeCalls st)) as [call|]; [|done].
    set (st3 := leave _ _ _).
    assert (disjointness st3) as Hd3.
    { eapply disjointness_ext; [|eapply (disjointness_alter st c), Hd]; [done|].
      intros call0 _. apply disjoint_call_remove_participant. }
    case_bool_decide; [|done].
    match goal with |- context [endCall ?a ?b ?r] =>
      destruct (endCall a b r) as [st4 out2] eqn:He;
      replace st4 with (endCall a b r).1 by (by rewrite He) end.
    by apply disjointness_endCall.
  - unfold handleCallAnswerSend.
    match goal with |- context [?o ≫= ?f] => destruct (o ≫= f) as [[k call]|]; [|done] end.
    case_bool_decide; [|done]. simpl.
    apply disjointness_alter; [|done]. intros call0 _. unfold disjoint_call. simpl.
    by rewrite dom_alter_L.
  - unfold handleAddParticipant.
    destruct (add_callId d) as [c|]; simpl; [|done].
    destruct (reg_get c (activeCalls st)) as [call|] eqn:Hc; simpl; [|done].
    case_bool_decide; [done|]. case_bool_decide as Hnew; [done|].
    destruct (isUserInCall st (add_targetUserId d)); [done|].
    case_bool_decide; [done|]. simpl.
    apply disjointness_alter; [|done]. intros call0 Hc0 Hd0. simplify_eq.
    unfold disjoint_call in *. simpl. intros x Hx Hp.
    apply elem_of_union in Hp as [Hp|Hp]; [|by eapply Hd0].
    apply elem_of_singleton in Hp. subst x. apply Hnew. left. by apply elem_of_dom.
  - unfold handleCallChatMessage.
    destruct (userCalls st !! userId s), (chat_callId d); try done.
    case_bool_decide; [|done]. by destruct (reg_get _ _).
  - assert (disjointness (transport_remove s st)) as Hd0 by (by eapply disjointness_ext).
    revert Hd0. generalize (transport_remove s st). clear Hd. intros st0 Hd.
    unfold handleDisconnection.
    destruct (userCalls st0 !! userId s) as [c|]; [|done].
    destruct (reg_get c (activeCalls st0)) as [call|]; [|done].
    case_bool_decide; [done|].
    set (st2 := with_userCalls _ _).
    assert (disjointness st2) as Hd2.
    { eapply disjointness_ext; [|eapply (disjointness_alter st0 c), Hd]; [done|].
      intros call0 _. apply disjoint_call_remove_participant. }
    case_bool_decide; [|done].
    match goal with |- context [endCall ?a ?b ?r] =>
      destruct (endCall a b r) as [st4 out2] eqn:He;
      replace st4 with (endCall a b r).1 by (by rewrite He) end.
    by apply disjointness_endCall.
Qed.

(** ** What accept does check *)

(** A session found by the host-identity lookup has the user among its
    pending invitees. *)
Lemma resolveCall_by_host_invited st d u k call :
  (∀ c, ans_callId d = Some c → reg_get c (activeCalls st) = None) →
  resolveCall st d u = Some (k, call) →
  hostId call = ans_callerId d ∧ u ∈ pendingInvites call.
Proof.
  intros Hno. unfold resolveCall. destruct (ans_callId d) as [c|]; simpl.
  - rewrite (Hno c eq_refl). simpl. intros Hf.
    apply reg_find_Some in Hf as [_ Hp]. by apply bool_decide_eq_true in Hp.
  - intros Hf. apply reg_find_Some in Hf as [_ Hp]. by apply bool_decide_eq_true in Hp.
Qed.

(** A session found by call id is taken as it is. *)
Lemma resolveCall_by_id st d u c call :
  ans_callId d = Some c → reg_get c (activeCalls st) = Some call →
  resolveCall st d u = Some (c, call).
Proof. intros Hd Hc. unfold resolveCall. rewrite Hd. simpl. by rewrite Hc. Qed.

(** The effect of an accept on the session it resolves. *)
Lemma handleCallAccept_registers dir st s d k call :
  wf st → resolveCall st d (userId s) = Some (k, call) →
  let u := userId s in
  let st' := (handleCallAccept dir st s d).1 in
  userCalls st' = <[u := k]> (userCalls st)
  ∧ ∃ call', reg_get k (activeCalls st') = Some call'
      ∧ pendingInvites call' = pendingInvites call ∖ {[ u ]}
      ∧ participants call'
        = <[u := {| oderId := u; pstatus := connecting |}]> (participants call)
      ∧ status call' = active.
Proof.
  intros Hwf Hr u st'. apply resolveCall_elem in Hr as Hin.
  destruct (wf_get _ _ _ Hwf Hin) as [Hk Hc].
  unfold st', handleCallAccept. rewrite Hr. simpl. rewrite Hk. split; [done|].
  rewrite reg_get_alter, decide_True by done. rewrite Hc. simpl.
  eexists. split; [done|]. done.
Qed.

(** ** The host stays a participant *)

Lemma hosts_present_ext st st' :
  activeCalls st' = activeCalls st → hosts_present st → hosts_present st'.
Proof. unfold hosts_present. intros ->. done. Qed.

Lemma hosts_present_alter st k (f : Call → Call) :
  (∀ call, reg_get k (activeCalls st) = Some call →
     is_Some (participants call !! hostId call) →
     is_Some (participants (f call) !! hostId (f call))) →
  hosts_present st → hosts_present (with_calls (reg_alter f k) st).
Proof.
  intros Hf Hh k' call' Hin. simpl in Hin.
  apply reg_alter_elem in Hin as [Hin|[-> (call & Hc & ->)]]; [by eapply Hh|].
  apply Hf; [done|]. eapply Hh. by apply reg_get_Some_elem.
Qed.

(** Ending session [c] after a change to it: what is left was there
    before the change. *)
Lemma hosts_present_end_after_alter st st1 c (f : Call → Call) reason :
  activeCalls st1 = reg_alter f c (activeCalls st) →
  hosts_present st → hosts_present (endCall st1 c reason).1.
Proof.
  intros Ha Hh. destruct (reg_get c (activeCalls st1)) as [call|] eqn:Hc.
  - destruct (endCall_fields st1 c reason call Hc) as (Ha' & _).
    intros k' call' Hin. rewrite Ha', Ha in Hin.
    apply reg_delete_elem in Hin as [Hin Hne].
    apply reg_alter_elem in Hin as [Hin|[-> _]]; [by eapply Hh | done].
  - rewrite endCall_absent by done. simpl.
    rewrite Ha in Hc. rewrite reg_get_alter, decide_True in Hc by done.
    destruct (reg_get c (activeCalls st)) as [call|] eqn:Hc0; [done|].
    intros k' call' Hin. rewrite Ha in Hin.
    apply reg_alter_elem in Hin as [Hin|[-> (v & Hv & _)]]; [by eapply Hh | congruence].
Qed.

(** Every event keeps the host among the participants: a host who leaves
    ends the session. *)
Lemma hosts_present_run dir st ev :
  hosts_present st → hosts_present (run dir st ev).1.
Proof.
  intros Hh. destruct ev as [s|gen s d|s d|s d|s reason|s d|s d|s d|s]; simpl.
  - by eapply hosts_present_ext.
  - unfold handleCallRequest.
    destruct (isUserInCall st (userId s)); [done|].
    destruct (classify st (request_targets d)) as [un av].
    case_bool_decide; [done|]. simpl.
    intros k call Hin. simpl in Hin.
    apply reg_set_elem in Hin as [Hin|[-> ->]]; [by eapply Hh|].
    simpl. rewrite lookup_singleton_eq. eauto.
  - unfold handleCallAccept.
    destruct (resolveCall st d (userId s)) as [[k call]|]; [|done]. simpl.
    eapply hosts_present_ext; [|eapply (hosts_present_alter st k), Hh]; [done|].
    intros call0 _ [p Hp]. simpl.
    destruct (decide (userId s = hostId call0)) as [->|Hne].
    + rewrite lookup_insert_eq. eauto.
    + rewrite lookup_insert_ne by done. eauto.
  - unfold handleCallReject.
    destruct (resolveCall st d (userId s)) as [[k call]|]; [|done].
    set (st1 := with_calls _ st).
    assert (hosts_present st1) as Hh1 by (by apply hosts_present_alter).
    case_bool_decide; [|done].
    destruct (endCall st1 (callId call) rejected) as [st2 out2] eqn:He. simpl.
    replace st2 with (endCall st1 (callId call) rejected).1 by (by rewrite He).
    eapply (hosts_present_end_after_alter st1 st1 _ (λ c, c)); [|done].
    clear. induction (activeCalls st1) as [|[k0 v0] r IH]; simpl; [done|].
    case_decide; [done|]. by rewrite <-IH.
  - unfold handleCallEnd.
    destruct (userCalls st !! userId s) as [c|]; [|done].
    destruct (reg_get c (activeCalls st)) as [call|] eqn:Hc; [|done].
    set (st3 := leave _ _ _).
    case_bool_decide as Hend.
    + match goal with |- context [endCall ?a ?b ?r] =>
        destruct (endCall a b r) as [st4 out2] eqn:He;
        replace st4 with (endCall a b r).1 by (by rewrite He) end.
      by eapply (hosts_present_end_after_alter st st3).
    + simpl. eapply hosts_present_ext; [|eapply (hosts_present_alter st c), Hh]; [done|].
      intros call0 Hc0 [p Hp]. simplify_eq. simpl.
      rewrite lookup_delete_ne; [eauto|]. intros E. apply Hend. by left.
  - unfold handleCallAnswerSend.
    match goal with |- context [?o ≫= ?f] => destruct (o ≫= f) as [[k call]|]; [|done] end.
    case_bool_decide; [|done]. simpl.
    apply hosts_present_alter; [|done]. intros call0 _ [p Hp]. simpl.
    rewrite lookup_alter.
    destruct (decide (userId s = hostId call0)) as [E|Hne]; [rewrite E|];
      rewrite Hp; simpl; eauto.
  - unfold handleAddParticipant.
    match goal with |- context [?o ≫= ?f] => destruct (o ≫= f) as [[k call]|]; [|done] end.
    repeat (case_bool_decide; [done|]).
    destruct (isUserInCall st (add_targetUserId d)); [done|].
    case_bool_decide; [done|]. simpl. by apply hosts_present_alter.
  - unfold handleCallChatMessage.
    destruct (userCalls st !! userId s), (chat_callId d); try done.
    case_bool_decide; [|done]. by destruct (reg_get _ _).
  - assert (hosts_present (transport_remove s st)) as Hh0 by (by eapply hosts_present_ext).
    revert Hh0. generalize (transport_remove s st). clear Hh. intros st0 Hh.
    unfold handleDisconnection.
    destruct (userCalls st0 !! userId s) as [c|]; [|done].
    destruct (reg_get c (activeCalls st0)) as [call|] eqn:Hc; [|done].
    case_bool_decide; [done|].
    set (st2 := with_userCalls _ _).
    case_bool_decide as Hend.
    + match goal with |- context [endCall ?a ?b ?r] =>
        destruct (endCall a b r) as [st4 out2] eqn:He;
        replace st4 with (endCall a b r).1 by (by rewrite He) end.
      by eapply (hosts_present_end_after_alter st0 st2).
    + simpl. eapply hosts_present_ext; [|eapply (hosts_present_alter st0 c), Hh]; [done|].
      intros call0 Hc0 [p Hp]. simplify_eq. simpl.
      rewrite lookup_delete_ne; [eauto|]. intros E. apply Hend. by left.
Qed.

Lemma reachable_hosts_present dir st : reachable dir st → hosts_present st.
Proof.
  induction 1 as [|st ev Hr IH Hen].
  - intros k call Hin. by apply elem_of_nil in Hin.
  - by apply hosts_present_run.
Qed.

(** ** Ending a session, once more *)

(** X1. Termination is complete: when the index is sound, ending a session
    of the registry removes it and leaves no index entry, of any user, that
    names it; the state after is again well formed, with a sound index. *)
Theorem endCall_termination_complete st c reason call :
  Inv st → reg_get c (activeCalls st) = Some call →
  let st' := (endCall st c reason).1 in
  reg_get c (activeCalls st') = None
  ∧ (∀ v, userCalls st' !! v ≠ Some c)
  ∧ Inv st'.
Proof.
  intros [Hwf Hi] Hc st'.
  destruct (endCall_fields st c reason call Hc) as (Ha & Hu & _).
  split_and!.
  - unfold st'. rewrite Ha, reg_get_delete. by rewrite decide_True.
  - intros v Hv. unfold st' in Hv. rewrite Hu in Hv.
    apply lookup_foldr_delete_Some in Hv as [Hnin Hv].
    destruct (Hi v c Hv) as (call' & Hc' & [p Hp]). simplify_eq.
    apply Hnin. apply list_elem_of_fmap. exists (v, p).
    split; [done|]. by apply elem_of_map_to_list.
  - split; [by apply wf_endCall | by apply indexed_endCall].
Qed.

Lemma endCall_termination_complete_witness :
  Inv st_active
  ∧ reg_get 100 (activeCalls st_active) = Some call_active
  ∧ reg_get 100 (activeCalls (endCall st_active 100 ended).1) = None
  ∧ (∀ v, userCalls (endCall st_active 100 ended).1 !! v ≠ Some 100).
Proof.
  assert (Inv st_active) as HI by apply (reachable_Inv no_names), reachable_st_active.
  assert (reg_get 100 (activeCalls st_active) = Some call_active) as Hc
    by (vm_compute; reflexivity).
  destruct (endCall_termination_complete st_active 100 ended call_active HI Hc)
    as (Hgone & Hidx & _).
  done.
Defined.

(** X2. Ending a session touches nothing else and can be repeated: every
    other session is as before, users who were not its participants keep
    their index entry, the sockets are the same, and a second [endCall] on
    the same id changes nothing and notifies nobody. *)
Theorem endCall_frame_idempotent st c reason reason' :
  let st' := (endCall st c reason).1 in
  (∀ k, k ≠ c → reg_get k (activeCalls st') = reg_get k (activeCalls st))
  ∧ (∀ call v, reg_get c (activeCalls st) = Some call →
       participants call !! v = None → userCalls st' !! v = userCalls st !! v)
  ∧ sockets st' = sockets st
  ∧ endCall st' c reason' = (st', []).
Proof.
  intros st'. destruct (reg_get c (activeCalls st)) as [call|] eqn:Hc.
  - destruct (endCall_fields st c reason call Hc) as (Ha & Hu & Hs & _).
    unfold st'. split_and!.
    + intros k Hk. rewrite Ha, reg_get_delete. by rewrite decide_False.
    + intros call0 v E Hv. simplify_eq. rewrite Hu.
      apply lookup_foldr_delete_not_elem_of. intros Hin.
      apply list_elem_of_fmap in Hin as ([v' p] & -> & Hin).
      apply elem_of_map_to_list in Hin. simpl in Hv. congruence.
    + done.
    + apply endCall_absent. rewrite Ha, reg_get_delete. by rewrite decide_True.
  - unfold st'. rewrite (endCall_absent st c reason Hc). simpl.
    split_and!; [done | done | done | by apply endCall_absent].
Qed.

Lemma endCall_frame_idempotent_witness :
  let st' := (endCall st_active 100 ended).1 in
  reg_get 100 (activeCalls st_active) = Some call_active
  ∧ reg_get 100 (activeCalls st') = None
  ∧ userCalls st' !! 3 = userCalls st_active !! 3
  ∧ endCall st' 100 host_left = (st', []).
Proof.
  intros st'.
  assert (reg_get 100 (activeCalls st_active) = Some call_active) as H0
    by (vm_compute; reflexivity).
  destruct (endCall_frame_idempotent st_active 100 ended host_left)
    as (_ & A & _ & B).
  split_and!; [exact H0 | vm_compute; reflexivity | | exact B].
  apply (A call_active 3 H0). vm_compute; reflexivity.
Defined.

(** ** Leaving a call one is in *)

(** X3. A leave by a user whose index names a session of the registry:
    the index entry goes; the leaving socket is told nothing; if the user
    is the host the session is ended, the room is told [host_left] and no
    participant keeps an index entry; if not, the session stays in the
    registry without the user and nobody is told that it ended.  With the
    host among the participants, as in every reachable state, the reason
    [ended] is never sent. *)
Theorem handleCallEnd_host_or_stay st s reason c call :
  hosts_present st →
  userCalls st !! userId s = Some c →
  reg_get c (activeCalls st) = Some call →
  let u := userId s in
  let st' := (handleCallEnd st s reason).1 in
  let out := (handleCallEnd st s reason).2 in
  userCalls st' !! u = None
  ∧ (∀ m, (sock_id s, m) ∉ out)
  ∧ (∀ e c', e ∈ out → e.2 ≠ call_ended c' ended)
  ∧ (u = hostId call →
       reg_get c (activeCalls st') = None
       ∧ (∀ v, is_Some (participants call !! v) → userCalls st' !! v = None)
       ∧ (∀ s', s' ∈ sockets st → (c, sock_id s') ∈ rooms st →
            sock_id s' ≠ sock_id s → (sock_id s', call_ended c host_left) ∈ out))
  ∧ (u ≠ hostId call →
       reg_get c (activeCalls st') = Some (set_participants (delete u) call)
       ∧ (∀ e c' r, e ∈ out → e.2 ≠ call_ended c' r)).
Proof.
  intros Hh Hu Hc u st' out. subst u. set (u := userId s) in *.
  set (call' := set_participants (delete u) call).
  set (st3 := leave (sock_id s) c
                (with_userCalls (delete u)
                   (with_calls (reg_alter (set_participants (delete u)) c) st))).
  set (left := call_participant_left c u (Some (default "Usuario"%string (userName s)))
                 (size (participants call')) reason).
  assert (reg_get c (activeCalls st3) = Some call') as Hc3.
  { simpl. rewrite reg_get_alter, decide_True by done. by rewrite Hc. }
  assert (∀ m e, e ∈ emit_room st3 c m → e.1 ≠ sock_id s) as Hnot.
  { intros m e He. apply elem_emit_room in He as (s' & _ & Hr & ->). simpl in *.
    apply elem_of_difference in Hr as [_ Hr]. intros E. apply Hr.
    rewrite E. by apply elem_of_singleton. }
  destruct (decide (u = hostId call)) as [Hhost|Hhost].
  - assert (handleCallEnd st s reason
            = ((endCall st3 c host_left).1,
               emit_room st3 c left ++ emit_room st3 c (call_ended c host_left))) as Hrun.
    { unfold handleCallEnd. fold u. rewrite Hu, Hc. fold call' st3 left.
      rewrite bool_decide_true by (by left). rewrite (bool_decide_true (u = hostId call)) by done.
      destruct (endCall_terminates st3 c host_left call' Hc3) as (_ & _ & _ & Ho).
      destruct (endCall st3 c host_left) as [st4 out4]. simpl in *. by rewrite Ho. }
    unfold st', out. rewrite Hrun. simpl.
    destruct (endCall_terminates st3 c host_left call' Hc3) as (H1 & H2 & H3 & _).
    split_and!.
    + apply H3. apply lookup_delete_eq.
    + intros m Hin. apply elem_of_app in Hin as [Hin|Hin];
        by apply Hnot in Hin.
    + intros e c' He E. apply elem_of_app in He as [He|He];
        apply elem_emit_room in He as (s' & _ & _ & ->); done.
    + intros _. split_and!; [done | |].
      * intros v Hv. destruct (decide (v = u)) as [->|Hvu].
        -- apply H3. apply lookup_delete_eq.
        -- apply H2. simpl. by rewrite lookup_delete_ne.
      * intros s' Hs' Hr Hne. apply elem_of_app. right.
        apply elem_emit_room. exists s'. split_and!; [done | | done].
        simpl. apply elem_of_difference. split; [done|].
        intros E. apply elem_of_singleton in E. by simplify_eq.
    + done.
  - assert (size (participants call') ≠ 0) as Hsize.
    { intros Hz. apply map_size_empty_iff in Hz.
      destruct (Hh c call (reg_get_Some_elem _ _ _ Hc)) as [p Hp].
      assert (participants call' !! hostId call = Some p) as Hp'.
      { simpl. by rewrite lookup_delete_ne. }
      rewrite Hz in Hp'. by rewrite lookup_empty in Hp'. }
    assert (handleCallEnd st s reason = (st3, emit_room st3 c left)) as Hrun.
    { unfold handleCallEnd. fold u. rewrite Hu, Hc. fold call' st3 left.
      rewrite bool_decide_false; [done|]. intros [?|?]; [done | lia]. }
    unfold st', out. rewrite Hrun. simpl. split_and!.
    + apply lookup_delete_eq.
    + intros m Hin. by apply Hnot in Hin.
    + intros e c' He E. apply elem_emit_room in He as (s' & _ & _ & ->). done.
    + done.
    + intros _. split; [exact Hc3|].
      intros e c' r He E. apply elem_emit_room in He as (s' & _ & _ & ->). done.
Qed.

Lemma reachable_st_party : reachable no_names st_party.
Proof. apply reachable_run_all. cbn. repeat split; compute_done. Qed.

Lemma handleCallEnd_host_or_stay_witness :
  hosts_present st_active
  ∧ userCalls st_active !! 1 = Some 100
  ∧ reg_get 100 (activeCalls st_active) = Some call_active
  ∧ reg_get 100 (activeCalls (handleCallEnd st_active (sock 10 1) None).1) = None
  ∧ (20, call_ended 100 host_left) ∈ (handleCallEnd st_active (sock 10 1) None).2
  ∧ reg_get 100 (activeCalls (handleCallEnd st_active (sock 20 2) None).1)
    = Some (set_participants (delete 2) call_active).
Proof.
  assert (hosts_present st_active) as Hh
    by apply (reachable_hosts_present no_names), reachable_st_active.
  assert (reg_get 100 (activeCalls st_active) = Some call_active) as Hc
    by (vm_compute; reflexivity).
  destruct (handleCallEnd_host_or_stay st_active (sock 10 1) None 100 call_active
              Hh eq_refl Hc) as (_ & _ & _ & Hhost & _).
  destruct (Hhost eq_refl) as (Hgone & _ & Htold).
  destruct (handleCallEnd_host_or_stay st_active (sock 20 2) None 100 call_active
              Hh eq_refl Hc) as (_ & _ & _ & _ & Hstay).
  destruct Hstay as [Hkept _]; [discriminate|].
  split_and!; [done | reflexivity | done | done | | done].
  apply (Htold (sock 20 2)); [compute_done | compute_done | discriminate].
Defined.

(** The state after a mid-call invite that passes every check. *)
Lemma handleAddParticipant_invites_state dir st s d c call :
  add_callId d = Some c →
  reg_get c (activeCalls st) = Some call →
  is_Some (participants call !! userId s) →
  participants call !! add_targetUserId d = None →
  add_targetUserId d ∉ pendingInvites call →
  isUserInCall st (add_targetUserId d) = false →
  getUserSockets st (add_targetUserId d) ≠ [] →
  let st' := (handleAddParticipant dir st s d).1 in
  st' = with_calls (reg_alter (set_pendingInvites (λ p, {[ add_targetUserId d ]} ∪ p)) c) st
  ∧ reg_get c (activeCalls st')
    = Some (set_pendingInvites (λ p, {[ add_targetUserId d ]} ∪ p) call)
  ∧ userCalls st' = userCalls st.
Proof.
  intros Hd Hc Hme Hnp Hni Hfree Hlive st'.
  assert (st' = with_calls (reg_alter (set_pendingInvites
                                         (λ p, {[ add_targetUserId d ]} ∪ p)) c) st) as ->.
  { unfold st', handleAddParticipant. rewrite Hd. simpl. rewrite Hc. simpl.
    rewrite bool_decide_false by (destruct Hme as [p Hp]; congruence).
    rewrite bool_decide_false; last first.
    { intros [[p Hp]|Hp]; [congruence | done]. }
    rewrite Hfree. rewrite bool_decide_false; [done|].
    intros Hz. by apply nil_length_inv in Hz. }
  split_and!; [done | | done]. simpl.
  rewrite reg_get_alter, decide_True by done. by rewrite Hc.
Qed.

(** ** Inviting in mid call *)



(** ** Joining *)



(** X6. Invite, then accept: after a mid-call invite that passes every
    check, an accept by its call id from a socket of the invited user
    makes that user a participant with status connecting, sets the index,
    makes the session active and leaves the pending invitees exactly as
    they were before the invite. *)
Theorem invite_then_accept_joins dir st s d c call s2 x :
  wf st →
  add_callId d = Some c →
  reg_get c (activeCalls st) = Some call →
  is_Some (participants call !! userId s) →
  participants call !! add_targetUserId d = None →
  add_targetUserId d ∉ pendingInvites call →
  isUserInCall st (add_targetUserId d) = false →
  getUserSockets st (add_targetUserId d) ≠ [] →
  userId s2 = add_targetUserId d →
  let t := add_targetUserId d in
  let st1 := (handleAddParticipant dir st s d).1 in
  let st2 :=
    (handleCallAccept dir st1 s2 {| ans_callerId := x; ans_callId := Some c |}).1 in
  ∃ call2,
    reg_get c (activeCalls st2) = Some call2
    ∧ participants call2
      = <[t := {| oderId := t; pstatus := connecting |}]> (participants call)
    ∧ pendingInvites call2 = pendingInvites call
    ∧ status call2 = active
    ∧ userCalls st2 = <[t := c]> (userCalls st).
Proof.
  intros Hwf Hd Hc Hme Hnp Hni Hfree Hlive Hs2 t st1 st2.
  destruct (handleAddParticipant_invites_state dir st s d c call
              Hd Hc Hme Hnp Hni Hfree Hlive) as (Hst1 & Hc1 & Hu1).
  fold st1 in Hst1, Hc1, Hu1.
  assert (wf st1) as Hwf1 by (rewrite Hst1; by apply wf_alter).
  set (acc := {| ans_callerId := x; ans_callId := Some c |}) in *.
  assert (resolveCall st1 acc (userId s2) = Some (c, _)) as Hr
    by (by apply (resolveCall_by_id st1 acc (userId s2) c)).
  destruct (handleCallAccept_registers dir st1 s2 acc c _ Hwf1 Hr)
    as (Hidx & call2 & Hc2 & Hp2 & Hm2 & Hs2').
  exists call2. fold st2 in Hidx, Hc2. rewrite Hs2 in *. fold t in Hidx, Hp2, Hm2.
  split_and!; [done | done | | done | by rewrite Hidx, Hu1].
  rewrite Hp2. simpl. fold t. apply set_eq. intros y.
  rewrite elem_of_difference, elem_of_union, elem_of_singleton.
  split; [intros [[->|?] ?]; done|]. intros Hy. split; [by right|].
  intros ->. by apply Hni.
Qed.

Lemma invite_then_accept_joins_witness :
  let d := {| add_callId := Some 100; add_targetUserId := 3 |} in
  let st1 := (handleAddParticipant no_names st_active (sock 10 1) d).1 in
  let st2 := (handleCallAccept no_names st1 (sock 30 3) (by_id 100)).1 in
  wf st_active
  ∧ reg_get 100 (activeCalls st_active) = Some call_active
  ∧ getUserSockets st_active 3 ≠ []
  ∧ ∃ call2, reg_get 100 (activeCalls st2) = Some call2
      ∧ participants call2 !! 3 = Some {| oderId := 3; pstatus := connecting |}
      ∧ pendingInvites call2 = ∅
      ∧ userCalls st2 !! 3 = Some 100.
Proof.
  intros d st1 st2.
  assert (wf st_active) as Hwf by apply (reachable_Inv no_names), reachable_st_active.
  assert (reg_get 100 (activeCalls st_active) = Some call_active) as Hc
    by (vm_compute; reflexivity).
  assert (getUserSockets st_active 3 ≠ []) as Hlive by (vm_compute; discriminate).
  destruct (invite_then_accept_joins no_names st_active (sock 10 1) d 100 call_active
              (sock 30 3) 0 Hwf)
    as (call2 & Hc2 & Hp2 & Hm2 & _ & Hidx);
    [reflexivity | exact Hc | vm_compute; eauto | reflexivity | vm_compute; set_solver
    | reflexivity | exact Hlive | reflexivity |].
  split_and!; [done | done | done |]. exists call2. split_and!.
  - exact Hc2.
  - rewrite Hp2. apply lookup_insert_eq.
  - rewrite Hm2. reflexivity.
  - unfold st2, st1, by_id. rewrite Hidx. apply lookup_insert_eq.
Defined.

(** ** What no event changes *)

Lemma reg_alter_id {V} k (r : list (nat * V)) : reg_alter (λ v, v) k r = r.
Proof.
  induction r as [|[k0 v0] r IH]; simpl; [done|].
  case_decide; [done|]. by rewrite IH.
Qed.

Lemma keeps_identity_id : keeps_identity (λ c, c).
Proof. intros c. done. Qed.

(** The registry after an event: one session mutated in place, and
    perhaps one session deleted after that, or one new session stored
    under a fresh id. *)
Lemma run_registry_shape dir st ev :
  enabled st ev →
  (∃ f k, keeps_identity f
     ∧ (activeCalls (run dir st ev).1 = reg_alter f k (activeCalls st)
        ∨ ∃ c, activeCalls (run dir st ev).1
               = reg_delete c (reg_alter f k (activeCalls st))))
  ∨ (∃ gen call, reg_get gen (activeCalls st) = None
       ∧ activeCalls (run dir st ev).1 = reg_set gen call (activeCalls st)).
Proof.
  intros Hen.
  assert (∀ st0 : State, activeCalls st0 = activeCalls st →
            ∃ f k, keeps_identity f
              ∧ (activeCalls st0 = reg_alter f k (activeCalls st)
                 ∨ ∃ c, activeCalls st0 = reg_delete c (reg_alter f k (activeCalls st))))
    as Hsame.
  { intros st0 E. exists (λ c, c), 0. split; [apply keeps_identity_id|].
    left. by rewrite reg_alter_id. }
  assert (∀ (st1 : State) f k c reason, keeps_identity f →
            activeCalls st1 = reg_alter f k (activeCalls st) →
            ∃ f' k', keeps_identity f'
              ∧ (activeCalls (endCall st1 c reason).1 = reg_alter f' k' (activeCalls st)
                 ∨ ∃ c', activeCalls (endCall st1 c reason).1
                         = reg_delete c' (reg_alter f' k' (activeCalls st))))
    as Hend.
  { intros st1 f k c reason Hf E. exists f, k. split; [done|].
    destruct (reg_get c (activeCalls st1)) as [call1|] eqn:Hc1.
    - right. exists c. destruct (endCall_fields st1 c reason call1 Hc1) as (-> & _).
      by rewrite E.
    - left. by rewrite endCall_absent. }
  destruct ev as [s|gen s d|s d|s d|s reason|s d|s d|s d|s]; simpl.
  - left. by apply Hsame.
  - unfold handleCallRequest.
    destruct (isUserInCall st (userId s)); [left; by apply Hsame|].
    destruct (classify st (request_targets d)) as [un av].
    case_bool_decide; [left; by apply Hsame|].
    right. destruct Hen as [_ Hfresh]. eauto.
  - left. unfold handleCallAccept.
    destruct (resolveCall st d (userId s)) as [[k call]|]; [|by apply Hsame].
    simpl. eexists _, k. split; [|left; reflexivity]. intros c. done.
  - left. unfold handleCallReject.
    destruct (resolveCall st d (userId s)) as [[k call]|]; [|by apply Hsame].
    set (st1 := with_calls _ st).
    assert (keeps_identity (set_pendingInvites (λ p, p ∖ {[ userId s ]}))) as Hf
      by (intros c; done).
    case_bool_decide.
    + destruct (Hend st1 _ k (callId call) rejected Hf eq_refl) as (f' & k' & Hf' & H').
      destruct (endCall st1 (callId call) rejected) as [st2 out2]. simpl in *. eauto.
    + simpl. eauto.
  - left. unfold handleCallEnd.
    destruct (userCalls st !! userId s) as [c|]; [|by apply Hsame].
    destruct (reg_get c (activeCalls st)) as [call|]; [|by apply Hsame].
    set (st3 := leave _ _ _).
    assert (keeps_identity (set_participants (delete (userId s)))) as Hf
      by (intros c0; done).
    case_bool_decide.
    + match goal with |- context [endCall st3 c ?r] =>
        destruct (Hend st3 _ c c r Hf eq_refl) as (f' & k' & Hf' & H');
        destruct (endCall st3 c r) as [st4 out4] end. simpl in *. eauto.
    + simpl. eauto.
  - left. unfold handleCallAnswerSend.
    match goal with |- context [?o ≫= ?f] =>
      destruct (o ≫= f) as [[k call]|]; [|by apply Hsame] end.
    case_bool_decide; [|by apply Hsame]. simpl.
    eexists _, k. split; [|left; reflexivity]. intros c. done.
  - left. unfold handleAddParticipant.
    match goal with |- context [?o ≫= ?f] =>
      destruct (o ≫= f) as [[k call]|]; [|by apply Hsame] end.
    repeat (case_bool_decide; [by apply Hsame|]).
    destruct (isUserInCall st (add_targetUserId d)); [by apply Hsame|].
    case_bool_decide; [by apply Hsame|]. simpl.
    eexists _, k. split; [|left; reflexivity]. intros c. done.
  - left. apply Hsame. unfold handleCallChatMessage.
    destruct (userCalls st !! userId s), (chat_callId d); try done.
    case_bool_decide; [|done]. by destruct (reg_get _ _).
  - left. unfold handleDisconnection. set (st0 := transport_remove s st).
    assert (activeCalls st0 = activeCalls st) as E0 by done.
    destruct (userCalls st0 !! userId s) as [c|]; [|by apply Hsame].
    destruct (reg_get c (activeCalls st0)) as [call|]; [|by apply Hsame].
    case_bool_decide; [by apply Hsame|].
    set (st2 := with_userCalls _ _).
    assert (keeps_identity (set_participants (delete (userId s)))) as Hf
      by (intros c0; done).
    case_bool_decide.
    + destruct (Hend st2 _ c c disconnected Hf eq_refl) as (f' & k' & Hf' & H').
      destruct (endCall st2 c disconnected) as [st4 out4]. simpl in *. eauto.
    + simpl. eauto.
Qed.

(** X7. No event rewrites a session: a session that is in the registry
    before and after an event has the same call id, host, host name, offer
    and call type, and if it was active it is still active (there is no way
    back to ringing). *)
Theorem session_identity_stable dir st ev k call call' :
  enabled st ev →
  reg_get k (activeCalls st) = Some call →
  reg_get k (activeCalls (run dir st ev).1) = Some call' →
  callId call' = callId call ∧ hostId call' = hostId call
  ∧ hostName call' = hostName call ∧ offer call' = offer call
  ∧ callType call' = callType call
  ∧ (status call = active → status call' = active).
Proof.
  intros Hen Hc Hc'.
  assert (∀ f k0, keeps_identity f →
            reg_get k (reg_alter f k0 (activeCalls st)) = Some call' →
            callId call' = callId call ∧ hostId call' = hostId call
            ∧ hostName call' = hostName call ∧ offer call' = offer call
            ∧ callType call' = callType call
            ∧ (status call = active → status call' = active)) as Halter.
  { intros f k0 Hf Hg. rewrite reg_get_alter in Hg.
    destruct (decide (k0 = k)) as [->|Hne].
    - rewrite Hc in Hg. simpl in Hg. simplify_eq. apply Hf.
    - rewrite Hc in Hg. by simplify_eq. }
  destruct (run_registry_shape dir st ev Hen)
    as [(f & k0 & Hf & [E|[c E]])|(gen & new & Hfresh & E)]; rewrite E in Hc'.
  - by eapply Halter.
  - rewrite reg_get_delete in Hc'. case_decide; [done|]. by eapply Halter.
  - rewrite reg_get_set in Hc'. case_decide; [congruence|].
    rewrite Hc in Hc'. by simplify_eq.
Qed.

Lemma session_identity_stable_witness :
  enabled st_ringing (ECallAccept (sock 20 2) (by_id 100))
  ∧ reg_get 100 (activeCalls st_ringing) = Some call_ringing
  ∧ reg_get 100 (activeCalls st_active) = Some call_active
  ∧ hostId call_active = hostId call_ringing
  ∧ offer call_active = offer call_ringing.
Proof.
  assert (enabled st_ringing (ECallAccept (sock 20 2) (by_id 100))) as Hen
    by (cbn; compute_done).
  assert (reg_get 100 (activeCalls st_ringing) = Some call_ringing) as Hc
    by (vm_compute; reflexivity).
  assert (reg_get 100 (activeCalls (run no_names st_ringing
                                      (ECallAccept (sock 20 2) (by_id 100))).1)
          = Some call_active) as Hc' by (vm_compute; reflexivity).
  destruct (session_identity_stable no_names st_ringing _ 100 call_ringing call_active
              Hen Hc Hc') as (_ & Hh & _ & Ho & _).
  split_and!; [done | done | vm_compute; reflexivity | done | done].
Defined.

(** ** A call that nobody takes *)

Lemma state_eq (st st' : State) :
  activeCalls st' = activeCalls st → userCalls st' = userCalls st →
  sockets st' = sockets st → rooms st' = rooms st → st' = st.
Proof. destruct st, st'. simpl. by intros -> -> -> ->. Qed.

Lemma reg_set_alter_delete_fresh {V} (f : V → V) k v (r : list (nat * V)) :
  reg_get k r = None → reg_delete k (reg_alter f k (reg_set k v r)) = r.
Proof.
  induction r as [|[k0 v0] r IH]; simpl.
  - intros _. rewrite decide_True by done. simpl. by rewrite decide_True.
  - destruct (decide (k0 = k)) as [->|Hne]; [done|]. intros Hr. simpl.
    rewrite decide_False by done. simpl. rewrite decide_False by done.
    by rewrite IH.
Qed.

Lemma elem_rooms_foldr_leave (l : list Socket) c st p :
  p ∈ rooms (foldr (λ s acc, leave (sock_id s) c acc) st l)
  ↔ p ∈ rooms st ∧ ∀ s, s ∈ l → p ≠ (c, sock_id s).
Proof.
  induction l as [|s0 l IH]; simpl.
  - split; [intros ?; split; [done|] | by intros [? _]].
    intros s Hs. by apply elem_of_nil in Hs.
  - rewrite elem_of_difference, IH, elem_of_singleton. split.
    + intros [[Hp Hl] Hne]. split; [done|]. intros s Hs.
      apply elem_of_cons in Hs as [->|Hs]; [done | by apply Hl].
    + intros [Hp Hl]. split_and!; [done | |].
      * intros s Hs. apply Hl. by right.
      * apply Hl. left.
Qed.

(** X8. Request, then reject: when a caller in no call rings one
    available user under a fresh call id and that user rejects the call by
    its id, the server is back in the state it was in before the request:
    same registry, same index, same sockets, same rooms. *)
Theorem request_then_reject_restores dir gen st s d s2 t x :
  s ∈ sockets st →
  isUserInCall st (userId s) = false →
  request_targets d = [t] →
  ¬ unavailable_target st t →
  reg_get gen (activeCalls st) = None →
  (∀ i, (gen, i) ∉ rooms st) →
  userId s2 = t →
  let st1 := (handleCallRequest dir gen st s d).1 in
  (handleCallReject st1 s2 {| ans_callerId := x; ans_callId := Some gen |}).1 = st.
Proof.
  intros Hs Hfree Ht Hav Hfresh Hroom Hs2 st1.
  assert (isUserInCall st t = false) as Ht1.
  { destruct (isUserInCall st t) eqn:E; [|done]. exfalso. apply Hav. by left. }
  assert (getUserSockets st t ≠ []) as Ht2.
  { intros E. apply Hav. by right. }
  set (u := userId s) in *.
  set (call := {| callId := gen; hostId := u; hostName := getUserName dir u;
                  participants := {[ u := {| oderId := u; pstatus := connected |} ]};
                  pendingInvites := list_to_set [t];
                  status := ringing; offer := req_offer d;
                  callType := default "audio"%string (req_callType d) |}).
  assert (st1 = join (sock_id s) gen
                  (with_userCalls (insert u gen) (with_calls (reg_set gen call) st)))
    as Hst1.
  { unfold st1, handleCallRequest. fold u. rewrite Hfree, Ht. cbn [classify].
    rewrite Ht1. rewrite (bool_decide_true (0 < length (getUserSockets st t))); last first.
    { destruct (getUserSockets st t); [done | simpl; lia]. }
    simpl. done. }
  assert (reg_get gen (activeCalls st1) = Some call) as Hc1.
  { rewrite Hst1. simpl. rewrite reg_get_set. by rewrite decide_True. }
  set (call' := set_pendingInvites (λ p, p ∖ {[ t ]}) call).
  set (st2 := with_calls (reg_alter (set_pendingInvites (λ p, p ∖ {[ t ]})) gen) st1).
  assert (reg_get gen (activeCalls st2) = Some call') as Hc2.
  { simpl. rewrite reg_get_alter, decide_True by done. by rewrite Hc1. }
  assert (size (participants call') = 1) as Hsz1.
  { change (participants call') with (participants call). unfold call.
    cbn [participants]. apply map_size_singleton. }
  assert (size (pendingInvites call') = 0) as Hsz2.
  { assert (pendingInvites call' = ∅) as ->; [|apply size_empty].
    unfold call', call. cbn [pendingInvites set_pendingInvites].
    apply set_eq. intros y. rewrite elem_of_difference, elem_of_list_to_set,
      list_elem_of_singleton, elem_of_singleton. split; [by intros [??]|].
    intros Hy. by apply not_elem_of_empty in Hy. }
  assert ((handleCallReject st1 s2 {| ans_callerId := x; ans_callId := Some gen |}).1
          = (endCall st2 gen rejected).1) as ->.
  { unfold handleCallReject, resolveCall. cbn [ans_callId mbind option_bind].
    rewrite Hc1. cbn [fmap option_fmap option_map]. rewrite Hs2.
    change (callId call) with gen. fold call' st2.
    rewrite bool_decide_true by (exact (conj Hsz1 Hsz2)).
    by destruct (endCall st2 gen rejected). }
  unfold endCall. rewrite Hc2. simpl. rewrite map_to_list_singleton. simpl.
  apply state_eq; simpl.
  - match goal with |- context [foldr ?f ?a ?l] =>
      destruct (foldr_leave_fields l gen a) as (-> & _ & _) end.
    simpl. rewrite Hst1. simpl. by apply reg_set_alter_delete_fresh.
  - match goal with |- context [foldr ?f ?a ?l] =>
      destruct (foldr_leave_fields l gen a) as (_ & -> & _) end.
    simpl. rewrite Hst1. simpl. apply delete_insert_id.
    unfold isUserInCall in Hfree. apply bool_decide_eq_false in Hfree.
    by apply eq_None_not_Some.
  - match goal with |- context [foldr ?f ?a ?l] =>
      destruct (foldr_leave_fields l gen a) as (_ & _ & ->) end.
    simpl. by rewrite Hst1.
  - apply set_eq. intros p. rewrite elem_rooms_foldr_leave. simpl.
    rewrite Hst1. simpl. rewrite app_nil_r. rewrite elem_of_union, elem_of_singleton.
    split.
    + intros [[->|Hp] Hl]; [|done]. exfalso. apply (Hl s); [|done].
      unfold getUserSockets. apply list_elem_of_filter. split; [done|].
      simpl. by rewrite Hst1.
    + intros Hp. split; [by right|]. intros s' _ ->. by apply (Hroom (sock_id s')).
Qed.

Lemma request_then_reject_restores_witness :
  let st1 := (handleCallRequest no_names 100 st_online (sock 10 1) (request [2])).1 in
  sock 10 1 ∈ sockets st_online
  ∧ isUserInCall st_online 1 = false
  ∧ ¬ unavailable_target st_online 2
  ∧ reg_get 100 (activeCalls st_online) = None
  ∧ (∀ i, (100, i) ∉ rooms st_online)
  ∧ reg_get 100 (activeCalls st1) = Some call_ringing
  ∧ (handleCallReject st1 (sock 21 2) (by_id 100)).1 = st_online.
Proof.
  intros st1.
  assert (sock 10 1 ∈ sockets st_online) as H1 by compute_done.
  assert (¬ unavailable_target st_online 2) as H2 by compute_done.
  assert (∀ i, (100, i) ∉ rooms st_online) as H3 by (intros i; vm_compute; set_solver).
  split_and!; [done | reflexivity | done | reflexivity | done | vm_compute; reflexivity |].
  apply (request_then_reject_restores no_names 100 st_online (sock 10 1) (request [2])
           (sock 21 2) 2 0); done.
Defined.

(** ** Who is rung *)

(** X9. A call request that creates a session rings every device of
    every available target and nobody else: [call_incoming] goes to
    exactly the live sockets of the available targets, the caller gets
    [call_created], and every message is one of [call_created],
    [call_incoming] and [call_users_unavailable].  When no target is named
    twice, the invited count told to the caller is the number of pending
    invitees of the session. *)
Theorem handleCallRequest_rings_every_device dir gen st s d :
  isUserInCall st (userId s) = false →
  ¬ Forall (unavailable_target st) (request_targets d) →
  let targets := request_targets d in
  let available := filter (λ t, ¬ unavailable_target st t) targets in
  let ctype := default "audio"%string (req_callType d) in
  let incoming :=
    call_incoming gen (userId s) (getUserName dir (userId s)) None
      (bool_decide (1 < length targets)) (length targets + 1) [] (req_offer d) ctype in
  let out := (handleCallRequest dir gen st s d).2 in
  (sock_id s, call_created gen (length available) ctype) ∈ out
  ∧ (∀ sid, (sid, incoming) ∈ out ↔
       ∃ s', s' ∈ sockets st ∧ userId s' ∈ available ∧ sock_id s' = sid)
  ∧ (∀ e, e ∈ out →
       e = (sock_id s, call_created gen (length available) ctype)
       ∨ e.2 = incoming
       ∨ e = (sock_id s,
              call_users_unavailable (filter (unavailable_target st) targets)))
  ∧ (NoDup targets →
       length available = size (list_to_set available : gset nat)).
Proof.
  intros Hfree Hsome targets available ctype incoming out.
  rewrite <-(filter_not_nil_Forall (unavailable_target st)) in Hsome.
  fold targets available in Hsome.
  destruct (classify_spec st targets) as [Hun Hav].
  assert (out = emit s (call_created gen (length available) ctype)
                ++ flat_map (λ a : nat * list Socket,
                     fmap (λ targetSocket, (sock_id targetSocket, incoming)) a.2)
                     ((λ t, (t, getUserSockets st t)) <$> available)
                ++ (if bool_decide (0 < length (filter (unavailable_target st) targets))
                    then emit s (call_users_unavailable
                                   (filter (unavailable_target st) targets))
                    else [])) as ->.
  { unfold out, handleCallRequest. rewrite Hfree. fold targets.
    destruct (classify st targets) as [un av]. simpl in Hun, Hav. subst un av.
    fold available. rewrite bool_decide_false; last first.
    { rewrite length_fmap. by destruct available. }
    simpl. by rewrite length_fmap. }
  assert (∀ e, e ∈ flat_map (λ a : nat * list Socket,
                     fmap (λ targetSocket, (sock_id targetSocket, incoming)) a.2)
                     ((λ t, (t, getUserSockets st t)) <$> available)
               ↔ ∃ s', s' ∈ sockets st ∧ userId s' ∈ available
                       ∧ e = (sock_id s', incoming)) as Hring.
  { intros e. rewrite elem_of_flat_map. split.
    - intros (a & Ha & He). apply list_elem_of_fmap in Ha as (t & -> & Ht).
      apply list_elem_of_fmap in He as (s' & -> & Hs'). simpl in Hs'.
      apply list_elem_of_filter in Hs' as [Hu Hs']. exists s'.
      split_and!; [done | by rewrite Hu | done].
    - intros (s' & Hs' & Hu & ->). exists (userId s', getUserSockets st (userId s')).
      split; [apply list_elem_of_fmap; by exists (userId s')|].
      apply list_elem_of_fmap. exists s'. split; [done|].
      by apply list_elem_of_filter. }
  split_and!.
  - apply elem_of_app. left. by apply elem_emit.
  - intros sid. rewrite !elem_of_app, Hring, elem_emit. split.
    + intros [E|[(s' & ? & ? & E)|He]].
      * discriminate.
      * simplify_eq. by exists s'.
      * case_bool_decide; [|by apply elem_of_nil in He].
        apply elem_emit in He. discriminate.
    + intros (s' & ? & ? & <-). right. left. by exists s'.
  - intros e. rewrite !elem_of_app, Hring, elem_emit.
    intros [->|[(s' & _ & _ & ->)|He]]; [by left | by right; left |].
    case_bool_decide; [|by apply elem_of_nil in He].
    apply elem_emit in He. by right; right.
  - intros Hnd. symmetry. apply size_list_to_set. by apply NoDup_filter.
Qed.

Lemma handleCallRequest_rings_every_device_witness :
  let out := (handleCallRequest no_names 200 st_party (sock 30 3) (request [4; 2; 5])).2 in
  isUserInCall st_party 3 = false
  ∧ ¬ Forall (unavailable_target st_party) [4; 2; 5]
  ∧ (sock_id (sock 30 3), call_created 200 2 "audio") ∈ out
  ∧ (40, call_incoming 200 3 "Usuario" None true 4 [] 7 "audio") ∈ out
  ∧ (20, call_incoming 200 3 "Usuario" None true 4 [] 7 "audio") ∉ out.
Proof.
  intros out.
  assert (¬ Forall (unavailable_target st_party) [4; 2; 5]) as Hsome.
  { intros Hall. apply Forall_cons in Hall as [Hbad _].
    by destruct Hbad as [Hbad|Hbad]; vm_compute in Hbad. }
  destruct (handleCallRequest_rings_every_device no_names 200 st_party (sock 30 3)
              (request [4; 2; 5]) eq_refl Hsome) as (Hcreated & Hring & _ & _).
  assert (filter (λ t, ¬ unavailable_target st_party t)
            (request_targets (request [4; 2; 5])) = [4; 5]) as E
    by (vm_compute; reflexivity).
  rewrite E in Hcreated. setoid_rewrite E in Hring.
  split_and!; [reflexivity | done | exact Hcreated | |].
  - apply Hring. exists (sock 40 4). split_and!; [compute_done | compute_done | done].
  - intros Hin. apply Hring in Hin as (s' & Hs' & Hu & Hid).
    assert (userId s' = 4 ∨ userId s' = 5) as Hu'.
    { apply elem_of_cons in Hu as [?|Hu]; [by left|].
      apply list_elem_of_singleton in Hu. by right. }
    assert (sockets st_party
            = [sock 10 1; sock 20 2; sock 21 2; sock 30 3; sock 40 4; sock 50 5]) as Hs
      by reflexivity.
    rewrite Hs in Hs'.
    repeat (apply elem_of_cons in Hs' as [->|Hs']; [by destruct Hu'|]).
    by apply elem_of_nil in Hs'.
Defined.

(** ** Marking a participant connected *)

(** X10. Sending an answer relays it to exactly the live sockets of the
    target, with the sender's identity, and touches the index, the sockets
    and the rooms of nobody.  In the registry at most the addressed
    session changes (the one named by the payload's call id, or else the
    one the sender's index names): if the sender is one of its
    participants, that entry becomes connected and every other entry, the
    pending invitees and the status stay; otherwise the state is
    unchanged. *)
Theorem handleCallAnswerSend_marks_connected st s d :
  let u := userId s in
  let addressed :=
    match snd_callId d with Some c => Some c | None => userCalls st !! u end in
  let st' := (handleCallAnswerSend st s d).1 in
  let out := (handleCallAnswerSend st s d).2 in
  userCalls st' = userCalls st ∧ sockets st' = sockets st ∧ rooms st' = rooms st
  ∧ (∀ e, e ∈ out ↔
       ∃ s', s' ∈ sockets st ∧ userId s' = snd_targetUserId d
             ∧ e = (sock_id s', call_answer (snd_answer d) u addressed))
  ∧ (∀ k, addressed ≠ Some k → reg_get k (activeCalls st') = reg_get k (activeCalls st))
  ∧ (∀ k call p, addressed = Some k → reg_get k (activeCalls st) = Some call →
       participants call !! u = Some p →
       ∃ call', reg_get k (activeCalls st') = Some call'
         ∧ participants call' !! u = Some {| oderId := oderId p; pstatus := connected |}
         ∧ (∀ v, v ≠ u → participants call' !! v = participants call !! v)
         ∧ pendingInvites call' = pendingInvites call
         ∧ status call' = status call)
  ∧ ((∀ k call, addressed = Some k → reg_get k (activeCalls st) = Some call →
        participants call !! u = None) → st' = st).
Proof.
  intros u addressed st' out.
  assert (out = fmap (λ targetSocket,
                        (sock_id targetSocket, call_answer (snd_answer d) u addressed))
                  (getUserSockets st (snd_targetUserId d))) as ->.
  { unfold out, handleCallAnswerSend. fold u addressed.
    destruct (addressed ≫= _) as [[k call]|]; [|done]. by case_bool_decide. }
  assert (∀ e, e ∈ fmap (λ targetSocket,
                          (sock_id targetSocket, call_answer (snd_answer d) u addressed))
                  (getUserSockets st (snd_targetUserId d))
               ↔ ∃ s', s' ∈ sockets st ∧ userId s' = snd_targetUserId d
                       ∧ e = (sock_id s', call_answer (snd_answer d) u addressed)) as Hout.
  { intros e. rewrite list_elem_of_fmap. split.
    - intros (s' & -> & Hs'). apply list_elem_of_filter in Hs' as [? ?]. by exists s'.
    - intros (s' & ? & ? & ->). exists s'. split; [done|]. by apply list_elem_of_filter. }
  unfold st', handleCallAnswerSend. fold u addressed.
  destruct addressed as [k0|] eqn:Ha; simpl.
  - destruct (reg_get k0 (activeCalls st)) as [call0|] eqn:Hc0; simpl.
    + case_bool_decide as Hin; simpl.
      * split_and!; [done | done | done | done | | |].
        -- intros k Hk. rewrite reg_get_alter. rewrite decide_False; [done|congruence].
        -- intros k call p E Hc Hp. simplify_eq. eexists. split.
           { rewrite reg_get_alter, decide_True by done. by rewrite Hc0. }
           simpl. split_and!; [by rewrite lookup_alter_eq, Hp | | done | done].
           intros v Hv. by rewrite lookup_alter_ne.
        -- intros Hnone. destruct Hin as [p Hp].
           rewrite (Hnone k0 call0 eq_refl Hc0) in Hp. done.
      * split_and!; [done | done | done | done | done | | done].
        intros k call p E Hc Hp. simplify_eq. destruct Hin. eauto.
    + split_and!; [done | done | done | done | done | | done].
      intros k call p E Hc Hp. simplify_eq.
  - split_and!; [done | done | done | done | done | | done].
    intros k call p E. done.
Qed.

Lemma handleCallAnswerSend_marks_connected_witness :
  let d := {| snd_targetUserId := 1; snd_answer := 9; snd_callId := Some 100 |} in
  let r := handleCallAnswerSend st_active (sock 20 2) d in
  reg_get 100 (activeCalls st_active) = Some call_active
  ∧ (10, call_answer 9 2 (Some 100)) ∈ r.2
  ∧ ∃ call', reg_get 100 (activeCalls r.1) = Some call'
      ∧ participants call' !! 2 = Some {| oderId := 2; pstatus := connected |}
      ∧ status call' = active.
Proof.
  intros d r.
  assert (reg_get 100 (activeCalls st_active) = Some call_active) as H0
    by (vm_compute; reflexivity).
  destruct (handleCallAnswerSend_marks_connected st_active (sock 20 2) d)
    as (_ & _ & _ & A & _ & B & _).
  split_and!; [exact H0 | |].
  - apply A. exists (sock 10 1). split_and!; [|reflexivity|reflexivity].
    apply list_elem_of_In. vm_compute. auto.
  - destruct (B 100 call_active {| oderId := 2; pstatus := connecting |}
                eq_refl H0) as (call' & E & P & _ & _ & S).
    { vm_compute; reflexivity. }
    exists call'. split_and!; [exact E | exact P | by rewrite S].
Defined.

(** ** Asking where one is *)

(** X11. When the registry is well formed and the index sound, as in
    every reachable state, [call_info] tells a user without index entry
    that they are in no call, and tells a user with an index entry the
    call id of that entry, whether they are its host, and the
    participants and pending invitees of that session, the user being one
    of the participants. *)
Theorem handleGetCallInfo_reports_index st s :
  Inv st →
  let u := userId s in
  (userCalls st !! u = None → handleGetCallInfo st s = (sock_id s, not_in_call))
  ∧ (∀ c, userCalls st !! u = Some c →
       ∃ call, reg_get c (activeCalls st) = Some call
         ∧ handleGetCallInfo st s
           = (sock_id s,
              in_call c (bool_decide (hostId call = u)) (hostId call) (hostName call)
                (participants call) (pendingInvites call))
         ∧ is_Some (participants call !! u)).
Proof.
  intros [Hwf Hi] u. unfold handleGetCallInfo, getUserCall. fold u. split.
  - by intros ->.
  - intros c Hu. rewrite Hu. destruct (Hi u c Hu) as (call & Hc & [p Hp]).
    exists call. rewrite Hc.
    destruct (wf_get st c call Hwf (reg_get_Some_elem _ _ _ Hc)) as [-> _].
    split_and!; [done | done | by exists p].
Qed.

Lemma handleGetCallInfo_reports_index_witness :
  Inv st_active
  ∧ userCalls st_active !! 3 = None
  ∧ handleGetCallInfo st_active (sock 30 3) = (30, not_in_call)
  ∧ userCalls st_active !! 2 = Some 100
  ∧ handleGetCallInfo st_active (sock 21 2)
    = (21, in_call 100 false 1 "Usuario" (participants call_active) ∅).
Proof.
  assert (Inv st_active) as HI by apply (reachable_Inv no_names), reachable_st_active.
  destruct (handleGetCallInfo_reports_index st_active (sock 30 3) HI) as [Hout _].
  destruct (handleGetCallInfo_reports_index st_active (sock 21 2) HI) as [_ Hin].
  destruct (Hin 100 eq_refl) as (call & Hc & Hinfo & Hme).
  assert (reg_get 100 (activeCalls st_active) = Some call_active) as Hc'
    by (vm_compute; reflexivity).
  rewrite Hc' in Hc. simplify_eq.
  split_and!; [done | reflexivity | by apply Hout | reflexivity | exact Hinfo].
Defined.

(** ** Invariants of the reachable states *)

(** X12. The host of a session is one of its participants for as long as
    the session is in the registry: this holds in every reachable state. *)
Theorem host_is_participant dir st k call :
  reachable dir st → reg_get k (activeCalls st) = Some call →
  is_Some (participants call !! hostId call).
Proof.
  intros Hr Hc. apply (reachable_hosts_present dir st Hr k call).
  by apply reg_get_Some_elem.
Qed.

Lemma host_is_participant_witness :
  reachable no_names st_active
  ∧ reg_get 100 (activeCalls st_active) = Some call_active
  ∧ is_Some (participants call_active !! hostId call_active).
Proof.
  assert (reg_get 100 (activeCalls st_active) = Some call_active) as Hc
    by (vm_compute; reflexivity).
  split_and!; [exact reachable_st_active | exact Hc |].
  exact (host_is_participant no_names st_active 100 call_active reachable_st_active Hc).
Defined.

(** X13. Participants and pending invitees stay apart under every event
    but one: when they are disjoint in every session before an event, and
    the event is not a call request whose targets name the caller, they
    are disjoint in every session after it. *)
Theorem disjointness_kept_by_events dir st ev :
  (∀ gen s d, ev = ECallRequest gen s d → userId s ∉ request_targets d) →
  disjointness st → disjointness (run dir st ev).1.
Proof. apply disjointness_run. Qed.

Lemma disjointness_kept_by_events_witness :
  disjointness st_ringing
  ∧ disjointness (run no_names st_ringing (ECallAccept (sock 20 2) (by_id 100))).1.
Proof.
  assert (disjointness st_ringing) as Hd.
  { intros k call Hin.
    assert (activeCalls st_ringing = [(100, call_ringing)]) as E
      by (vm_compute; reflexivity).
    rewrite E in Hin. apply list_elem_of_singleton in Hin. simplify_eq.
    unfold disjoint_call, call_ringing. simpl. rewrite dom_singleton_L.
    intros y Hy Hp. apply elem_of_singleton in Hy, Hp. congruence. }
  split; [exact Hd|].
  apply (disjointness_kept_by_events no_names st_ringing); [discriminate | exact Hd].
Defined.

(** X14. In every reachable state the registry is a map under the call
    ids: no id is stored twice and every session is stored under its own
    [callId], so the session an index entry or a payload names is the one
    that is mutated. *)
Theorem registry_keys_unique dir st :
  reachable dir st →
  NoDup (activeCalls st).*1
  ∧ (∀ k call, (k, call) ∈ activeCalls st →
       callId call = k ∧ reg_get k (activeCalls st) = Some call).
Proof.
  intros Hr. destruct (reachable_Inv dir st Hr) as [Hwf _].
  split; [apply Hwf|]. intros k call Hin. by apply wf_get.
Qed.

Lemma registry_keys_unique_witness :
  reachable no_names st_active
  ∧ NoDup (activeCalls st_active).*1
  ∧ (∀ k call, (k, call) ∈ activeCalls st_active →
       callId call = k ∧ reg_get k (activeCalls st_active) = Some call).
Proof.
  split; [exact reachable_st_active|].
  exact (registry_keys_unique no_names st_active reachable_st_active).
Defined.

(** ** Presence in [ChatHandler] *)

Lemma chat_handleConnection_map us s :
  (Chat.handleConnection us s).1
  = <[userId s := {[ sock_id s ]} ∪ Chat.getUserSockets us (userId s)]> us.
Proof.
  unfold Chat.handleConnection, Chat.getUserSockets. simpl.
  case_bool_decide as Hin.
  - done.
  - assert (us !! userId s = None) as E by (by apply eq_None_not_Some).
    rewrite lookup_insert_eq, E. simpl. by rewrite insert_insert_eq.
Qed.

(** X15. [userSockets] never keeps a user with an empty socket set: a
    connection and a disconnection both preserve that, so a user is
    online exactly when the map has an entry for them; after a connection
    the user is online, and the socket id is among their sockets. *)
Theorem chat_presence_no_empty_entry us s :
  no_empty_entry us →
  no_empty_entry (Chat.handleConnection us s).1
  ∧ no_empty_entry (Chat.handleDisconnection us s).1
  ∧ (∀ u, Chat.isUserOnline us u = true ↔ is_Some (us !! u))
  ∧ Chat.isUserOnline (Chat.handleConnection us s).1 (userId s) = true
  ∧ sock_id s ∈ Chat.getUserSockets (Chat.handleConnection us s).1 (userId s)
  ∧ sock_id s ∉ Chat.getUserSockets (Chat.handleDisconnection us s).1 (userId s).
Proof.
  intros Hne. split_and!.
  - rewrite chat_handleConnection_map. intros u ids Hu.
    apply lookup_insert_Some in Hu as [[_ <-]|[_ Hu]]; [|by eapply Hne].
    intros E. assert (sock_id s ∈ (∅ : gset nat)) as Hin; [|by apply not_elem_of_empty in Hin].
    rewrite <-E. apply elem_of_union. left. by apply elem_of_singleton.
  - unfold Chat.handleDisconnection.
    destruct (us !! userId s) as [ids|] eqn:Hu; [|done].
    case_bool_decide as Hz; simpl.
    + intros u ids' Hu'. apply lookup_delete_Some in Hu' as [_ Hu']. by eapply Hne.
    + intros u ids' Hu'. apply lookup_insert_Some in Hu' as [[_ <-]|[_ Hu']]; [|by eapply Hne].
      intros E. apply Hz. rewrite E. apply size_empty.
  - intros u. unfold Chat.isUserOnline. destruct (us !! u) as [ids|] eqn:Hu.
    + split; [eauto|]. intros _. apply bool_decide_eq_true.
      assert (size ids ≠ 0); [|lia]. intros Hz. apply size_empty_iff in Hz.
      apply (Hne u ids Hu). by unfold_leibniz.
    + split; [done|]. by intros [? ?].
  - rewrite chat_handleConnection_map. unfold Chat.isUserOnline.
    rewrite lookup_insert_eq. apply bool_decide_eq_true.
    assert (size ({[sock_id s]} ∪ Chat.getUserSockets us (userId s)) ≠ 0); [|lia].
    intros Hz. apply size_empty_iff in Hz.
    assert (sock_id s ∈ (∅ : gset nat)) as Hin; [|by apply not_elem_of_empty in Hin].
    rewrite <-Hz. apply elem_of_union. left. by apply elem_of_singleton.
  - rewrite chat_handleConnection_map. unfold Chat.getUserSockets at 1.
    rewrite lookup_insert_eq. simpl. apply elem_of_union. left. by apply elem_of_singleton.
  - unfold Chat.handleDisconnection, Chat.getUserSockets.
    destruct (us !! userId s) as [ids|] eqn:Hu.
    + case_bool_decide; simpl.
      * rewrite lookup_delete_eq. simpl. apply not_elem_of_empty.
      * rewrite lookup_insert_eq. simpl. rewrite elem_of_difference.
        intros [_ Hn]. apply Hn. by apply elem_of_singleton.
    + simpl. rewrite Hu. simpl. apply not_elem_of_empty.
Qed.

Lemma chat_presence_no_empty_entry_witness :
  let us := (Chat.handleConnection ∅ (sock 20 2)).1 in
  no_empty_entry us
  ∧ Chat.isUserOnline (Chat.handleConnection us (sock 21 2)).1 2 = true
  ∧ no_empty_entry (Chat.handleDisconnection us (sock 20 2)).1
  ∧ (Chat.handleDisconnection us (sock 20 2)).1 = ∅.
Proof.
  intros us.
  assert (no_empty_entry (∅ : gmap nat (gset nat))) as H0.
  { intros u ids Hu. by rewrite lookup_empty in Hu. }
  assert (no_empty_entry us) as H1
    by apply (chat_presence_no_empty_entry ∅ (sock 20 2) H0).
  destruct (chat_presence_no_empty_entry us (sock 21 2) H1) as (_ & _ & _ & Hon & _).
  destruct (chat_presence_no_empty_entry us (sock 20 2) H1) as (_ & Hd & _).
  split_and!; [done | done | done | vm_compute; reflexivity].
Defined.

(** X16. Connecting and then losing the same socket is a round trip on
    [userSockets]: when no entry is empty and the socket id is new for the
    user, the map after the two steps is the map before them, and
    [user_offline] is announced exactly when the user had no other
    socket. *)
Theorem chat_connect_then_disconnect us s :
  no_empty_entry us →
  sock_id s ∉ Chat.getUserSockets us (userId s) →
  let us1 := (Chat.handleConnection us s).1 in
  (Chat.handleDisconnection us1 s).1 = us
  ∧ ((Chat.handleDisconnection us1 s).2
     = if bool_decide (is_Some (us !! userId s)) then [] else [Chat.user_offline (userId s)]).
Proof.
  intros Hne Hnew us1. unfold us1. rewrite chat_handleConnection_map.
  unfold Chat.handleDisconnection. rewrite lookup_insert_eq.
  assert (({[sock_id s]} ∪ Chat.getUserSockets us (userId s)) ∖ {[sock_id s]}
          = Chat.getUserSockets us (userId s)) as ->.
  { apply set_eq. intros y. rewrite elem_of_difference, elem_of_union, elem_of_singleton.
    split; [by intros [[?|?] ?] | intros Hy; split; [by right | by intros ->]]. }
  unfold Chat.getUserSockets in *. destruct (us !! userId s) as [ids|] eqn:Hu; simpl.
  - rewrite bool_decide_false; last first.
    { intros Hz. apply size_empty_iff in Hz. apply (Hne _ _ Hu). by unfold_leibniz. }
    simpl. split; [|done].
    rewrite insert_insert_eq. by apply insert_id.
  - case_bool_decide as Hz; [|exfalso; apply Hz; reflexivity].
    simpl. split; [|done].
    by apply delete_insert_id.
Qed.

Lemma chat_connect_then_disconnect_witness :
  let us := (Chat.handleConnection ∅ (sock 20 2)).1 in
  no_empty_entry us
  ∧ (sock_id (sock 21 2) ∉ Chat.getUserSockets us 2)
  ∧ (Chat.handleDisconnection (Chat.handleConnection us (sock 21 2)).1 (sock 21 2)).1 = us
  ∧ (Chat.handleDisconnection (Chat.handleConnection us (sock 21 2)).1 (sock 21 2)).2 = [].
Proof.
  intros us.
  assert (no_empty_entry us) as H1.
  { intros u ids Hu. unfold us in Hu. rewrite chat_handleConnection_map in Hu.
    apply lookup_insert_Some in Hu as [[_ <-]|[_ Hu]]; [|by rewrite lookup_empty in Hu].
    vm_compute. discriminate. }
  assert (sock_id (sock 21 2) ∉ Chat.getUserSockets us 2) as H2 by (vm_compute; set_solver).
  destruct (chat_connect_then_disconnect us (sock 21 2) H1 H2) as [Hmap Hout].
  split_and!; [done | done | done |]. rewrite Hout. reflexivity.
Defined.

(** ** The two presence tables agree *)

Lemma endCall_sockets st c reason : sockets (endCall st c reason).1 = sockets st.
Proof.
  destruct (reg_get c (activeCalls st)) as [call|] eqn:Hc.
  - by destruct (endCall_fields st c reason call Hc) as (_ & _ & -> & _).
  - by rewrite endCall_absent.
Qed.

(** Only a connection and a disconnection change the sockets of the
    server. *)
Lemma run_sockets dir st ev :
  sockets (run dir st ev).1
  = match ev with
    | EConnect s => sockets st ++ [s]
    | EDisconnect s => filter (λ s', sock_id s' ≠ sock_id s) (sockets st)
    | _ => sockets st
    end.
Proof.
  destruct ev as [s|gen s d|s d|s d|s reason|s d|s d|s d|s]; simpl.
  - done.
  - unfold handleCallRequest. destruct (isUserInCall st (userId s)); [done|].
    destruct (classify st (request_targets d)) as [un av]. by case_bool_decide.
  - unfold handleCallAccept. by destruct (resolveCall st d (userId s)) as [[k call]|].
  - unfold handleCallReject.
    destruct (resolveCall st d (userId s)) as [[k call]|]; [|done].
    case_bool_decide; [|done].
    match goal with |- context [endCall ?a ?b ?r] =>
      pose proof (endCall_sockets a b r) as Hs; destruct (endCall a b r) end. done.
  - unfold handleCallEnd.
    destruct (userCalls st !! userId s) as [c|]; [|done].
    destruct (reg_get c (activeCalls st)) as [call|]; [|done].
    case_bool_decide; [|done].
    match goal with |- context [endCall ?a ?b ?r] =>
      pose proof (endCall_sockets a b r) as Hs; destruct (endCall a b r) end. done.
  - unfold handleCallAnswerSend.
    match goal with |- context [?o ≫= ?f] => destruct (o ≫= f) as [[k call]|]; [|done] end.
    by case_bool_decide.
  - unfold handleAddParticipant.
    match goal with |- context [?o ≫= ?f] => destruct (o ≫= f) as [[k call]|]; [|done] end.
    repeat (case_bool_decide; [done|]).
    destruct (isUserInCall st (add_targetUserId d)); [done|]. by case_bool_decide.
  - unfold handleCallChatMessage.
    destruct (userCalls st !! userId s), (chat_callId d); try done.
    case_bool_decide; [|done]. by destruct (reg_get _ _).
  - unfold handleDisconnection. set (st0 := transport_remove s st).
    change (filter (λ s', sock_id s' ≠ sock_id s) (sockets st)) with (sockets st0).
    destruct (userCalls st0 !! userId s) as [c|]; [|done].
    destruct (reg_get c (activeCalls st0)) as [call|]; [|done].
    case_bool_decide; [done|]. case_bool_decide; [|done].
    match goal with |- context [endCall ?a ?b ?r] =>
      pose proof (endCall_sockets a b r) as Hs; destruct (endCall a b r) end. done.
Qed.

Lemma NoDup_fmap_filter {A B} (f : A → B) (P : A → Prop) `{!∀ x, Decision (P x)}
    (l : list A) :
  NoDup (f <$> l) → NoDup (f <$> filter P l).
Proof.
  induction l as [|x l IH]; csimpl; [done|]. intros Hnd.
  apply NoDup_cons in Hnd as [Hx Hnd]. rewrite filter_cons.
  destruct (decide (P x)); csimpl; [|by apply IH].
  apply NoDup_cons. split; [|by apply IH]. intros Hin. apply Hx.
  apply list_elem_of_fmap in Hin as (y & -> & Hy).
  apply list_elem_of_filter in Hy as [_ Hy]. by apply list_elem_of_fmap_2.
Qed.

Lemma filter_all {A} (P : A → Prop) `{!∀ x, Decision (P x)} (l : list A) :
  (∀ x, x ∈ l → P x) → filter P l = l.
Proof.
  induction l as [|x l IH]; [done|]. intros Hall.
  rewrite filter_cons_True by (apply Hall; left). f_equal. apply IH.
  intros y Hy. apply Hall. by right.
Qed.

Lemma socket_of_id (l : list Socket) s s' :
  NoDup (sock_id <$> l) → s ∈ l → s' ∈ l → sock_id s' = sock_id s → s' = s.
Proof.
  induction l as [|x l IH]; csimpl; intros Hnd Hs Hs' E.
  - by apply elem_of_nil in Hs.
  - apply NoDup_cons in Hnd as [Hx Hnd].
    apply elem_of_cons in Hs as [->|Hs]; apply elem_of_cons in Hs' as [->|Hs'].
    + done.
    + exfalso. apply Hx. rewrite <-E. by apply list_elem_of_fmap_2.
    + exfalso. apply Hx. rewrite E. by apply list_elem_of_fmap_2.
    + by apply IH.
Qed.

Lemma ids_of_filter (l : list Socket) (i : nat) :
  (list_to_set (sock_id <$> filter (λ s', sock_id s' ≠ i) l) : gset nat)
  = list_to_set (sock_id <$> l) ∖ {[ i ]}.
Proof.
  apply set_eq. intros y.
  rewrite elem_of_difference, !elem_of_list_to_set, !list_elem_of_fmap, elem_of_singleton.
  split.
  - intros (s' & -> & Hs'). apply list_elem_of_filter in Hs' as [? ?]. eauto.
  - intros [(s' & -> & Hs') Hne]. exists s'. split; [done|]. by apply list_elem_of_filter.
Qed.

Lemma presence_agrees_alt st us :
  presence_agrees st us ↔
  ∀ u, (getUserSockets st u = [] → us !! u = None)
       ∧ (getUserSockets st u ≠ [] →
          us !! u = Some (list_to_set (sock_id <$> getUserSockets st u))).
Proof.
  unfold presence_agrees. split; intros H u; specialize (H u).
  - destruct (getUserSockets st u); split; done.
  - destruct H as [H1 H2]. destruct (getUserSockets st u) eqn:E; [by apply H1|].
    by apply H2.
Qed.

(** A connection or a close that is heard keeps socket ids unique and
    the two tables in agreement; no other event touches either table. *)
Lemma presence_agrees_step dir st us ev :
  enabled st ev →
  NoDup (sock_id <$> sockets st) → presence_agrees st us →
  let st' := (run dir st ev).1 in
  let us' := match ev with
             | EConnect s => (Chat.handleConnection us s).1
             | EDisconnect s => (Chat.handleDisconnection us s).1
             | _ => us
             end in
  NoDup (sock_id <$> sockets st') ∧ presence_agrees st' us'.
Proof.
  intros Hen Hnd Hag. cbn zeta.
  pose proof (proj1 (presence_agrees_alt st us) Hag) as Hag'.
  assert (∀ st', sockets st' = sockets st →
            NoDup (sock_id <$> sockets st') ∧ presence_agrees st' us) as Hsame.
  { intros st' E. split; [by rewrite E|]. intros u. unfold getUserSockets.
    rewrite E. apply Hag. }
  destruct ev as [s|gen s d|s d|s d|s reason|s d|s d|s d|s];
    try (apply Hsame; by rewrite run_sockets).
  - pose proof (run_sockets dir st (EConnect s)) as Hs. cbn [run] in Hs |- *.
    cbn [fst] in Hs |- *. cbn in Hen. split.
    + simpl. rewrite fmap_app. apply NoDup_app. split_and!; [done | | apply NoDup_singleton].
      intros x Hx Hx'. apply list_elem_of_singleton in Hx'. by subst.
    + rewrite chat_handleConnection_map. apply presence_agrees_alt. intros u.
      destruct (Hag' u) as [Hn Hy].
      assert (getUserSockets (with_sockets (λ l, l ++ [s]) st) u
              = getUserSockets st u ++ (if decide (userId s = u) then [s] else [])) as El.
      { unfold getUserSockets. simpl. by rewrite filter_app. }
      rewrite El. destruct (decide (userId s = u)) as [<-|Hne].
      * split; [intros E; apply app_eq_nil in E as [_ E]; discriminate|].
        intros _. rewrite lookup_insert_eq. f_equal.
        assert (Chat.getUserSockets us (userId s)
                = list_to_set (sock_id <$> getUserSockets st (userId s))) as ->.
        { unfold Chat.getUserSockets.
          destruct (getUserSockets st (userId s)) as [|x l] eqn:E0.
          - by rewrite Hn.
          - by rewrite Hy. }
        rewrite fmap_app, list_to_set_app_L. csimpl.
        rewrite (right_id_L ∅ (∪)). apply (comm_L (∪)).
      * rewrite app_nil_r, lookup_insert_ne by done. done.
  - pose proof (run_sockets dir st (EDisconnect s)) as Hs. cbn in Hen.
    set (st' := (run dir st (EDisconnect s)).1) in *.
    assert (∀ u, getUserSockets st' u
                 = filter (λ s', sock_id s' ≠ sock_id s) (getUserSockets st u)) as El.
    { intros u. unfold getUserSockets. rewrite Hs, !list_filter_filter.
      apply list_filter_iff. intros x. tauto. }
    split; [rewrite Hs; by apply NoDup_fmap_filter|].
    apply presence_agrees_alt. intros u.
    rewrite El. unfold Chat.handleDisconnection.
    assert (s ∈ getUserSockets st (userId s)) as Hsin
      by (by apply list_elem_of_filter).
    destruct (Hag' (userId s)) as [_ Hy].
    rewrite Hy by (intros E; rewrite E in Hsin; by apply elem_of_nil in Hsin).
    rewrite <-ids_of_filter.
    destruct (decide (u = userId s)) as [->|Hne].
    + case_bool_decide as Hz; simpl.
      * rewrite lookup_delete_eq. split; [done|]. intros Hnn. exfalso.
        apply size_empty_iff in Hz.
        destruct (filter _ (getUserSockets st (userId s))) as [|x l]; [done|].
        assert (sock_id x ∈ (∅ : gset nat)) as Hin; [|by apply not_elem_of_empty in Hin].
        rewrite <-Hz. apply elem_of_list_to_set. csimpl. left.
      * rewrite lookup_insert_eq. split; [|done]. intros E. exfalso. apply Hz.
        rewrite E. reflexivity.
    + assert (filter (λ s', sock_id s' ≠ sock_id s) (getUserSockets st u)
              = getUserSockets st u) as ->.
      { apply filter_all. intros x Hx E.
        apply list_elem_of_filter in Hx as [Hxu Hxin].
        assert (x = s) by (by apply (socket_of_id (sockets st))). by subst. }
      destruct (Hag' u) as [Hn' Hy'].
      case_bool_decide; simpl.
      * rewrite lookup_delete_ne by done. done.
      * rewrite lookup_insert_ne by done. done.
Qed.

Lemma elem_chat_getUserSockets us u i :
  i ∈ Chat.getUserSockets us u ↔ ∃ ids, us !! u = Some ids ∧ i ∈ ids.
Proof.
  unfold Chat.getUserSockets. destruct (us !! u) as [ids|]; simpl.
  - split; [intros ?; by exists ids | by intros (? & [= <-] & ?)].
  - split; [intros Hi; by apply not_elem_of_empty in Hi | by intros (? & ? & ?)].
Qed.

Lemma chat_handleConnection_keeps us s u i :
  i ∈ Chat.getUserSockets us u →
  i ∈ Chat.getUserSockets (Chat.handleConnection us s).1 u.
Proof.
  intros Hi. rewrite chat_handleConnection_map. unfold Chat.getUserSockets at 1.
  destruct (decide (userId s = u)) as [<-|Hne].
  - rewrite lookup_insert_eq. simpl. apply elem_of_union. by right.
  - by rewrite lookup_insert_ne.
Qed.

Lemma chat_handleConnection_enters us s :
  sock_id s ∈ Chat.getUserSockets (Chat.handleConnection us s).1 (userId s).
Proof.
  rewrite chat_handleConnection_map. unfold Chat.getUserSockets at 1.
  rewrite lookup_insert_eq. simpl. apply elem_of_union. left. by apply elem_of_singleton.
Qed.

Lemma chat_handleDisconnection_keeps us s u i :
  i ∈ Chat.getUserSockets us u → i ≠ sock_id s →
  i ∈ Chat.getUserSockets (Chat.handleDisconnection us s).1 u.
Proof.
  intros Hi Hne. unfold Chat.handleDisconnection.
  destruct (us !! userId s) as [ids|] eqn:E; [|done].
  destruct (decide (u = userId s)) as [->|Hu].
  - apply elem_chat_getUserSockets in Hi as (ids0 & E0 & Hi).
    assert (ids0 = ids) as -> by congruence.
    assert (i ∈ ids ∖ {[ sock_id s ]}) as Hi'.
    { apply elem_of_difference. split; [done|]. by rewrite elem_of_singleton. }
    rewrite bool_decide_false.
    + simpl. apply elem_chat_getUserSockets. eexists. split; [apply lookup_insert_eq|done].
    + intros Hz. apply size_empty_iff in Hz.
      rewrite (leibniz_equiv _ _ Hz) in Hi'. by apply not_elem_of_empty in Hi'.
  - apply elem_chat_getUserSockets in Hi as (ids0 & E0 & Hi).
    apply elem_chat_getUserSockets. exists ids0. split; [|done].
    case_bool_decide; simpl.
    + by rewrite lookup_delete_ne.
    + by rewrite lookup_insert_ne.
Qed.

Lemma chat_online_of_entry us u i :
  i ∈ Chat.getUserSockets us u → Chat.isUserOnline us u = true.
Proof.
  intros Hi. apply elem_chat_getUserSockets in Hi as (ids & E & Hi).
  unfold Chat.isUserOnline. rewrite E. apply bool_decide_eq_true.
  assert (size ids ≠ 0); [|lia]. intros Hz. apply size_empty_iff in Hz.
  rewrite (leibniz_equiv _ _ Hz) in Hi. by apply not_elem_of_empty in Hi.
Qed.

(** What one step of the server does to the sockets of the transport. *)
Lemma server_step_sockets dir w sev :
  sockets (calls (server_step dir w sev))
  = match sev with
    | from_transport (EConnect s) => sockets (calls w) ++ [s]
    | from_transport (EDisconnect s) =>
        filter (λ s', sock_id s' ≠ sock_id s) (sockets (calls w))
    | _ => sockets (calls w)
    end.
Proof.
  destruct sev as [ev|s]; [|done].
  destruct ev as [s|gen s d|s d|s d|s reason|s d|s d|s d|s]; cbn [server_step];
    try (case_decide; cbn [calls]; [by rewrite run_sockets | done]).
  cbn [calls]. by rewrite run_sockets.
Qed.

(** Only a connection and a close that is heard change [userSockets]. *)
Lemma server_step_userSockets dir w sev :
  userSockets (server_step dir w sev)
  = match sev with
    | from_transport (EConnect s) => (Chat.handleConnection (userSockets w) s).1
    | from_transport (EDisconnect s) =>
        if decide (sock_id s ∈ listening w)
        then (Chat.handleDisconnection (userSockets w) s).1 else userSockets w
    | _ => userSockets w
    end.
Proof.
  destruct sev as [ev|s]; [|done].
  destruct ev as [s|gen s d|s d|s d|s reason|s d|s d|s d|s]; cbn [server_step];
    try done; by case_decide.
Qed.

Lemma server_step_covers dir w sev :
  server_enabled w sev →
  NoDup (sock_id <$> sockets (calls w)) → covers w →
  NoDup (sock_id <$> sockets (calls (server_step dir w sev)))
  ∧ covers (server_step dir w sev).
Proof.
  intros Hen Hnd Hcov. unfold covers.
  rewrite server_step_sockets, server_step_userSockets.
  destruct sev as [ev|s]; [|done].
  destruct ev as [s|gen s d|s d|s d|s reason|s d|s d|s d|s]; try done.
  - destruct Hen as (Hfresh & _ & _). split.
    + rewrite fmap_app. apply NoDup_app. split_and!; [done | | apply NoDup_singleton].
      intros x Hx Hx'. apply list_elem_of_singleton in Hx'. by subst.
    + intros s' Hs'. apply elem_of_app in Hs' as [Hs'|Hs'].
      * by apply chat_handleConnection_keeps, Hcov.
      * apply list_elem_of_singleton in Hs' as ->. apply chat_handleConnection_enters.
  - split; [by apply NoDup_fmap_filter|].
    intros s' Hs'. apply list_elem_of_filter in Hs' as [Hne Hs'].
    case_decide; [|by apply Hcov].
    apply chat_handleDisconnection_keeps; [by apply Hcov | done].
Qed.

Lemma server_step_agrees dir w sev :
  server_enabled w sev → close_heard w sev →
  NoDup (sock_id <$> sockets (calls w)) →
  presence_agrees (calls w) (userSockets w) →
  presence_agrees (calls (server_step dir w sev)) (userSockets (server_step dir w sev)).
Proof.
  intros Hen Hheard Hnd Hag.
  assert (∀ st', sockets st' = sockets (calls w) →
            presence_agrees st' (userSockets w)) as Hsame.
  { intros st' E u. unfold getUserSockets. rewrite E. apply Hag. }
  destruct sev as [ev|s]; [|done].
  destruct ev as [s|gen s d|s d|s d|s reason|s d|s d|s d|s]; cbn [server_step];
    try (case_decide; cbn [calls userSockets]; [apply Hsame; by rewrite run_sockets | done]).
  - destruct Hen as (Hfresh & _ & _).
    apply (presence_agrees_step dir (calls w) (userSockets w) (EConnect s)); done.
  - cbn in Hheard. rewrite decide_True by done.
    apply (presence_agrees_step dir (calls w) (userSockets w) (EDisconnect s)); done.
Qed.

Lemma server_foldl dir evs w :
  NoDup (sock_id <$> sockets (calls w)) → covers w →
  server_enabled_from dir w evs →
  let w' := foldl (server_step dir) w evs in
  NoDup (sock_id <$> sockets (calls w')) ∧ covers w'
  ∧ (presence_agrees (calls w) (userSockets w) → closes_heard_from dir w evs →
     presence_agrees (calls w') (userSockets w')).
Proof.
  revert w. induction evs as [|sev evs IH]; intros w Hnd Hcov Hen; [done|].
  destruct Hen as [Hen Hens]. cbn [foldl].
  destruct (server_step_covers dir w sev Hen Hnd Hcov) as [Hnd' Hcov'].
  destruct (IH _ Hnd' Hcov' Hens) as (A & B & C).
  split_and!; [done | done |].
  intros Hag [Hh Hhs]. apply C; [|done]. by apply server_step_agrees.
Qed.

Lemma server_enabled_from_app dir w evs1 evs2 :
  server_enabled_from dir w (evs1 ++ evs2)
  ↔ server_enabled_from dir w evs1
    ∧ server_enabled_from dir (foldl (server_step dir) w evs1) evs2.
Proof.
  revert w. induction evs1 as [|sev evs1 IH]; intros w; simpl; [tauto|].
  rewrite IH. tauto.
Qed.

(** A stale id stays stale: its socket is gone, no new socket gets the
    id, and a close takes only the id of the closing socket out of
    [userSockets]. *)
Lemma stale_step dir w sev i u :
  server_enabled w sev → stale i u w → stale i u (server_step dir w sev).
Proof.
  intros Hen [Hin Hgone]. unfold stale.
  rewrite server_step_sockets, server_step_userSockets.
  destruct sev as [ev|s]; [|done].
  destruct ev as [s|gen s d|s d|s d|s reason|s d|s d|s d|s]; try done.
  - destruct Hen as (_ & _ & Hfresh). split.
    + by apply chat_handleConnection_keeps.
    + rewrite fmap_app, elem_of_app. intros [?|Hi]; [done|].
      apply list_elem_of_singleton in Hi. subst i.
      apply elem_chat_getUserSockets in Hin as (ids & E & Hin).
      by apply (Hfresh _ _ E).
  - cbn in Hen.
    assert (i ≠ sock_id s) as Hne.
    { intros ->. apply Hgone. by apply list_elem_of_fmap_2. }
    split.
    + case_decide; [|done]. by apply chat_handleDisconnection_keeps.
    + intros Hi. apply Hgone. apply list_elem_of_fmap in Hi as (x & -> & Hx).
      apply list_elem_of_filter in Hx as [_ Hx]. by apply list_elem_of_fmap_2.
Qed.

Lemma stale_foldl dir evs w i u :
  server_enabled_from dir w evs → stale i u w →
  stale i u (foldl (server_step dir) w evs).
Proof.
  revert w. induction evs as [|sev evs IH]; intros w Hen Hst; [done|].
  destruct Hen as [Hen Hens]. cbn [foldl]. apply IH; [done|]. by apply stale_step.
Qed.

(** X17. [userSockets] of the chat handler always holds every socket of
    the transport, so a user with a live socket is online.  The listeners
    of a socket are registered only after the connection callback has
    awaited [handleConnection]; as long as every close reaches the
    [disconnect] listener, [ChatHandler.getUserSockets] holds exactly the
    ids of the sockets that [CallHandler.getUserSockets] finds, and
    [isUserOnline] is true exactly for the users with a live socket. *)
Theorem presence_table_covers_sockets dir evs :
  server_enabled_from dir server_init evs →
  let w := server_run_all dir evs in
  NoDup (sock_id <$> sockets (calls w))
  ∧ (∀ s, s ∈ sockets (calls w) →
       sock_id s ∈ Chat.getUserSockets (userSockets w) (userId s))
  ∧ (∀ u, getUserSockets (calls w) u ≠ [] → Chat.isUserOnline (userSockets w) u = true)
  ∧ (closes_heard_from dir server_init evs →
     (∀ u, Chat.getUserSockets (userSockets w) u
           = list_to_set (sock_id <$> getUserSockets (calls w) u))
     ∧ (∀ u, Chat.isUserOnline (userSockets w) u = true ↔ getUserSockets (calls w) u ≠ [])).
Proof.
  intros Hen w.
  destruct (server_foldl dir evs server_init) as (Hnd & Hcov & Hag);
    [constructor | intros s Hs; by apply elem_of_nil in Hs | done |].
  fold (server_run_all dir evs) in Hnd, Hcov, Hag. fold w in Hnd, Hcov, Hag.
  split_and!; [done | done | |].
  - intros u Hu. destruct (getUserSockets (calls w) u) as [|x l] eqn:E; [done|].
    assert (x ∈ getUserSockets (calls w) u) as Hx by (rewrite E; left).
    apply list_elem_of_filter in Hx as [<- Hx].
    by apply (chat_online_of_entry _ _ (sock_id x)), Hcov.
  - intros Hheard.
    assert (presence_agrees (calls w) (userSockets w)) as Hag0.
    { apply Hag; [|done]. intros u. simpl. by rewrite lookup_empty. }
    pose proof (proj1 (presence_agrees_alt _ _) Hag0) as Hag'. split.
    + intros u. unfold Chat.getUserSockets. destruct (Hag' u) as [Hn Hy].
      destruct (getUserSockets (calls w) u) as [|x l] eqn:E.
      * by rewrite Hn.
      * by rewrite Hy.
    + intros u. unfold Chat.isUserOnline. destruct (Hag' u) as [Hn Hy].
      destruct (getUserSockets (calls w) u) as [|x l] eqn:E.
      * rewrite Hn by done. split; done.
      * rewrite Hy by done. split; [done|]. intros _. apply bool_decide_eq_true.
        assert (size (list_to_set (sock_id <$> x :: l) : gset nat) ≠ 0); [|lia].
        intros Hz. apply size_empty_iff in Hz.
        assert (sock_id x ∈ (∅ : gset nat)) as Hin; [|by apply not_elem_of_empty in Hin].
        rewrite <-Hz. apply elem_of_list_to_set. csimpl. left.
Qed.

Lemma presence_table_covers_sockets_witness :
  let evs := [from_transport (EConnect (sock 10 1)); listeners_registered (sock 10 1);
              from_transport (EConnect (sock 20 2)); from_transport (EConnect (sock 21 2));
              listeners_registered (sock 21 2); listeners_registered (sock 20 2);
              from_transport (ECallRequest 100 (sock 10 1) (request [2]));
              from_transport (EDisconnect (sock 20 2));
              from_transport (EDisconnect (sock 10 1))] in
  let w := server_run_all no_names evs in
  server_enabled_from no_names server_init evs
  ∧ closes_heard_from no_names server_init evs
  ∧ Chat.getUserSockets (userSockets w) 2 = {[ 21 ]}
  ∧ Chat.isUserOnline (userSockets w) 2 = true
  ∧ Chat.isUserOnline (userSockets w) 1 = false
  ∧ getUserSockets (calls w) 1 = [].
Proof.
  intros evs w.
  assert (server_enabled_from no_names server_init evs) as Hen
    by (cbn; repeat split; compute_done).
  assert (closes_heard_from no_names server_init evs) as Hh
    by (cbn; repeat split; compute_done).
  destruct (presence_table_covers_sockets no_names evs Hen) as (_ & _ & _ & Hex).
  destruct (Hex Hh) as [Hids Hon]. fold w in Hids, Hon.
  assert (getUserSockets (calls w) 2 = [sock 21 2]) as E2 by (vm_compute; reflexivity).
  assert (getUserSockets (calls w) 1 = []) as E1 by (vm_compute; reflexivity).
  split_and!; [done | done | | | | done].
  - rewrite Hids, E2. vm_compute. reflexivity.
  - apply Hon. by rewrite E2.
  - destruct (Chat.isUserOnline (userSockets w) 1) eqn:E; [|done].
    apply Hon in E. by rewrite E1 in E.
Defined.

(** X28. A socket that closes before its listeners are registered is
    never taken out of [userSockets]: nobody hears the close, and from
    then on, whatever happens, the chat handler keeps its id and reports
    its user as online, also when the user has no socket left. *)
Theorem presence_leak_is_permanent dir evs1 s evs2 :
  let evs := evs1 ++ from_transport (EDisconnect s) :: evs2 in
  let w := server_run_all dir evs in
  server_enabled_from dir server_init evs →
  (sock_id s ∉ listening (server_run_all dir evs1)) →
  stale (sock_id s) (userId s) w
  ∧ (∀ s', s' ∈ sockets (calls w) → sock_id s' ≠ sock_id s)
  ∧ Chat.isUserOnline (userSockets w) (userId s) = true.
Proof.
  intros evs w Hen Hdeaf.
  apply server_enabled_from_app in Hen as [Hen1 Hen2].
  fold (server_run_all dir evs1) in Hen2. set (w1 := server_run_all dir evs1) in *.
  destruct Hen2 as [Hs Hen2]. cbn in Hs.
  destruct (server_foldl dir evs1 server_init) as (Hnd & Hcov & _);
    [constructor | intros x Hx; by apply elem_of_nil in Hx | done |].
  fold (server_run_all dir evs1) in Hnd, Hcov. fold w1 in Hnd, Hcov.
  assert (stale (sock_id s) (userId s) (server_step dir w1 (from_transport (EDisconnect s))))
    as Hst.
  { unfold stale. rewrite server_step_sockets, server_step_userSockets.
    rewrite decide_False by done. split; [by apply Hcov|].
    intros Hi. apply list_elem_of_fmap in Hi as (x & E & Hx).
    by apply list_elem_of_filter in Hx as [Hne _]. }
  assert (stale (sock_id s) (userId s) w) as Hw.
  { unfold w, evs, server_run_all. rewrite foldl_app. cbn [foldl].
    by apply stale_foldl. }
  split_and!; [done | |].
  - intros s' Hs' E. destruct Hw as [_ Hgone]. apply Hgone. rewrite <-E.
    by apply list_elem_of_fmap_2.
  - destruct Hw as [Hin _]. by apply (chat_online_of_entry _ _ (sock_id s)).
Qed.

Lemma presence_leak_is_permanent_witness :
  let evs1 := [from_transport (EConnect (sock 10 1))] in
  let evs2 := [listeners_registered (sock 10 1);
               from_transport (EConnect (sock 20 2)); listeners_registered (sock 20 2)] in
  let w := server_run_all no_names
             (evs1 ++ from_transport (EDisconnect (sock 10 1)) :: evs2) in
  server_enabled_from no_names server_init
    (evs1 ++ from_transport (EDisconnect (sock 10 1)) :: evs2)
  ∧ (10 ∉ listening (server_run_all no_names evs1))
  ∧ getUserSockets (calls w) 1 = []
  ∧ Chat.getUserSockets (userSockets w) 1 = {[ 10 ]}
  ∧ Chat.isUserOnline (userSockets w) 1 = true.
Proof.
  intros evs1 evs2 w.
  assert (server_enabled_from no_names server_init
            (evs1 ++ from_transport (EDisconnect (sock 10 1)) :: evs2)) as Hen
    by (cbn; repeat split; compute_done).
  assert (10 ∉ listening (server_run_all no_names evs1)) as Hdeaf by compute_done.
  destruct (presence_leak_is_permanent no_names evs1 (sock 10 1) evs2 Hen Hdeaf)
    as (_ & _ & Hon).
  split_and!; [done | done | vm_compute; reflexivity | vm_compute; reflexivity | exact Hon].
Defined.

(** ** Message text *)

Lemma elem_replace_all c by_ s x :
  x ∈ Chat.replace_all c by_ s ↔ (x ∈ s ∧ x ≠ c) ∨ (c ∈ s ∧ x ∈ by_).
Proof.
  unfold Chat.replace_all. rewrite elem_of_flat_map. split.
  - intros (a & Ha & Hx). destruct (decide (a = c)) as [->|Hne].
    + by right.
    + apply list_elem_of_singleton in Hx. subst. by left.
  - intros [[Hx Hne]|[Hc Hx]].
    + exists x. split; [done|]. rewrite decide_False by done. by apply list_elem_of_singleton.
    + exists c. split; [done|]. by rewrite decide_True.
Qed.

Lemma replace_all_absent c by_ s : c ∉ s → Chat.replace_all c by_ s = s.
Proof.
  unfold Chat.replace_all. induction s as [|x s IH]; [done|]. intros Hc.
  apply not_elem_of_cons in Hc as [Hne Hc]. simpl.
  rewrite decide_False by done. simpl. by rewrite IH.
Qed.

Lemma elem_drop_spaces s x : x ∈ Chat.drop_spaces s → x ∈ s.
Proof.
  induction s as [|y s IH]; simpl; [done|].
  destruct (Chat.is_space y); [|done]. intros Hx. right. by apply IH.
Qed.

Lemma elem_trim s x : x ∈ Chat.trim s → x ∈ s.
Proof.
  unfold Chat.trim. rewrite elem_of_reverse. intros Hx.
  apply elem_drop_spaces in Hx. rewrite elem_of_reverse in Hx.
  by apply elem_drop_spaces.
Qed.

Lemma drop_spaces_keeps_last l y :
  Chat.is_space y = false → ∃ u, Chat.drop_spaces (l ++ [y]) = u ++ [y].
Proof.
  intros Hy. induction l as [|x l [u IH]]; simpl.
  - rewrite Hy. by exists [].
  - destruct (Chat.is_space x); [by exists u|]. by exists (x :: l).
Qed.

Lemma head_drop_spaces s x : head (Chat.drop_spaces s) = Some x → Chat.is_space x = false.
Proof.
  induction s as [|y s IH]; simpl; [done|].
  destruct (Chat.is_space y) eqn:E; [done|]. simpl. by intros [= <-].
Qed.

Lemma head_trim s x : head (Chat.trim s) = Some x → Chat.is_space x = false.
Proof.
  unfold Chat.trim. destruct (Chat.drop_spaces s) as [|y t] eqn:E; [done|].
  assert (Chat.is_space y = false) as Hy by (apply (head_drop_spaces s); by rewrite E).
  rewrite reverse_cons.
  destruct (drop_spaces_keeps_last (reverse t) y Hy) as [u ->].
  rewrite reverse_app. simpl. by intros [= <-].
Qed.

Lemma replace_all_removes c by_ s : c ∉ by_ → c ∉ Chat.replace_all c by_ s.
Proof.
  intros Hby Hin. apply elem_replace_all in Hin as [[_ ?]|[_ ?]]; done.
Qed.

Lemma replace_all_keeps_out x c by_ s :
  x ∉ s → x ∉ by_ → x ∉ Chat.replace_all c by_ s.
Proof.
  intros Hs Hby Hin. apply elem_replace_all in Hin as [[? _]|[_ ?]]; done.
Qed.

(** X18. What [ChatHandler.sanitizeContent] returns holds none of the
    characters [<], [>], double quote and single quote, is at most 5000
    code units long and does not begin with white space; the empty string
    gives the empty string. *)
Theorem sanitizeContent_escapes content :
  let r := Chat.sanitizeContent content in
  length r ≤ Chat.max_length
  ∧ (∀ x, x ∈ r → x ≠ 60%N ∧ x ≠ 62%N ∧ x ≠ 34%N ∧ x ≠ 39%N)
  ∧ (∀ x, head r = Some x → Chat.is_space x = false)
  ∧ Chat.sanitizeContent [] = [].
Proof.
  intros r. unfold r, Chat.sanitizeContent.
  destruct content as [|c0 content].
  { split_and!; [apply Nat.le_0_l | | done | done].
    intros x Hx. by apply elem_of_nil in Hx. }
  set (s := c0 :: content).
  set (s1 := Chat.replace_all 38 Chat.amp s).
  set (s2 := Chat.replace_all 60 Chat.lt s1).
  set (s3 := Chat.replace_all 62 Chat.gt s2).
  set (s4 := Chat.replace_all 34 Chat.quot s3).
  set (s5 := Chat.replace_all 39 Chat.apos s4).
  assert ((60%N ∉ s5) ∧ (62%N ∉ s5) ∧ (34%N ∉ s5) ∧ (39%N ∉ s5)) as (H60 & H62 & H34 & H39).
  { assert (60%N ∉ s2) as A2 by (apply replace_all_removes; compute_done).
    assert (60%N ∉ s3) as A3 by (apply replace_all_keeps_out; [done | compute_done]).
    assert (62%N ∉ s3) as B3 by (apply replace_all_removes; compute_done).
    assert (60%N ∉ s4) as A4 by (apply replace_all_keeps_out; [done | compute_done]).
    assert (62%N ∉ s4) as B4 by (apply replace_all_keeps_out; [done | compute_done]).
    assert (34%N ∉ s4) as C4 by (apply replace_all_removes; compute_done).
    split_and!.
    - apply replace_all_keeps_out; [done | compute_done].
    - apply replace_all_keeps_out; [done | compute_done].
    - apply replace_all_keeps_out; [done | compute_done].
    - apply replace_all_removes; compute_done. }
  split_and!.
  - rewrite length_take. apply Nat.le_min_l.
  - intros x Hx. apply elem_of_take in Hx as (i & Hx & _).
    apply list_elem_of_lookup_2 in Hx. apply elem_trim in Hx.
    split_and!; intros ->; done.
  - intros x Hx. destruct (Chat.trim s5) as [|y t] eqn:E; [done|].
    apply (head_trim s5 x). rewrite E.
    assert (Chat.max_length = S (Nat.pred Chat.max_length)) as En by reflexivity.
    rewrite En in Hx. exact Hx.
  - done.
Qed.

Lemma sanitizeContent_escapes_witness :
  let r := Chat.sanitizeContent [32; 60; 97; 62; 32]%N in
  r = [38; 108; 116; 59; 97; 38; 103; 116; 59]%N
  ∧ (∀ x, x ∈ r → x ≠ 60%N ∧ x ≠ 62%N ∧ x ≠ 34%N ∧ x ≠ 39%N)
  ∧ (∀ x, head r = Some x → Chat.is_space x = false).
Proof.
  intros r.
  destruct (sanitizeContent_escapes [32; 60; 97; 62; 32]%N) as (_ & A & B & _).
  split_and!; [vm_compute; reflexivity | exact A | exact B].
Defined.

Lemma drop_spaces_id s :
  (∀ x, head s = Some x → Chat.is_space x = false) → Chat.drop_spaces s = s.
Proof.
  destruct s as [|y s]; [done|]. intros Hh. simpl. by rewrite (Hh y).
Qed.

(** X19. Clean text goes through [ChatHandler.sanitizeContent] unchanged:
    a string without [&], [<], [>] and quotes, that neither begins nor
    ends with white space and is at most 5000 code units long, is
    returned as it is. *)
Theorem sanitizeContent_clean_text content :
  (∀ x, x ∈ content → x ≠ 38%N ∧ x ≠ 60%N ∧ x ≠ 62%N ∧ x ≠ 34%N ∧ x ≠ 39%N) →
  (∀ x, head content = Some x → Chat.is_space x = false) →
  (∀ x, last content = Some x → Chat.is_space x = false) →
  length content ≤ Chat.max_length →
  Chat.sanitizeContent content = content.
Proof.
  intros Hclean Hhead Hlast Hlen. unfold Chat.sanitizeContent.
  destruct content as [|c0 content]; [done|]. set (s := c0 :: content) in *.
  assert (∀ c, (c = 38 ∨ c = 60 ∨ c = 62 ∨ c = 34 ∨ c = 39)%N → c ∉ s) as Hno.
  { intros c Hc Hin. destruct (Hclean c Hin) as (? & ? & ? & ? & ?).
    destruct Hc as [?|[?|[?|[?|?]]]]; done. }
  rewrite (replace_all_absent 38 _ s) by (apply Hno; tauto).
  rewrite (replace_all_absent 60 _ s) by (apply Hno; tauto).
  rewrite (replace_all_absent 62 _ s) by (apply Hno; tauto).
  rewrite (replace_all_absent 34 _ s) by (apply Hno; tauto).
  rewrite (replace_all_absent 39 _ s) by (apply Hno; tauto).
  unfold Chat.trim. rewrite (drop_spaces_id s) by done.
  rewrite drop_spaces_id, reverse_involutive; [by apply take_ge|].
  intros x. rewrite head_reverse. apply Hlast.
Qed.

Lemma sanitizeContent_clean_text_witness :
  let hola : list N := [104; 111; 108; 97]%N in
  (∀ x, x ∈ hola → x ≠ 38%N ∧ x ≠ 60%N ∧ x ≠ 62%N ∧ x ≠ 34%N ∧ x ≠ 39%N)
  ∧ length hola ≤ Chat.max_length
  ∧ Chat.sanitizeContent hola = hola.
Proof.
  intros hola.
  assert (∀ x, x ∈ hola → x ≠ 38%N ∧ x ≠ 60%N ∧ x ≠ 62%N ∧ x ≠ 34%N ∧ x ≠ 39%N) as H1.
  { intros x Hx. unfold hola in Hx.
    repeat (apply elem_of_cons in Hx as [->|Hx]; [by repeat split|]).
    by apply elem_of_nil in Hx. }
  assert (length hola ≤ Chat.max_length) as H2 by (vm_compute; lia).
  split_and!; [done | done |].
  apply sanitizeContent_clean_text; [done | | | done].
  - intros x [= <-]. reflexivity.
  - intros x [= <-]. reflexivity.
Defined.

(** X20. [SupportHandler.sanitizeContent] returns at most 5000 code units
    and neither [<] nor [>]; text without these two characters comes back
    as its first 5000 code units, white space and quotes included. *)
Theorem support_sanitizeContent_escapes content :
  let r := support_sanitizeContent content in
  length r ≤ Chat.max_length
  ∧ (∀ x, x ∈ r → x ≠ 60%N ∧ x ≠ 62%N)
  ∧ ((60%N ∉ content) ∧ (62%N ∉ content) → r = take Chat.max_length content).
Proof.
  intros r. unfold r, support_sanitizeContent.
  destruct content as [|c0 content].
  { split_and!; [apply Nat.le_0_l | | by rewrite take_nil].
    intros x Hx. by apply elem_of_nil in Hx. }
  set (s := c0 :: content). split_and!.
  - rewrite length_take. apply Nat.le_min_l.
  - intros x Hx. apply elem_of_take in Hx as (i & Hx & _).
    apply list_elem_of_lookup_2 in Hx.
    assert (60%N ∉ Chat.replace_all 60 Chat.lt s) as A
      by (apply replace_all_removes; compute_done).
    split; intros ->.
    + revert Hx. apply replace_all_keeps_out; [done | compute_done].
    + revert Hx. apply replace_all_removes. compute_done.
  - intros [H60 H62]. rewrite (replace_all_absent 60 _ s) by done.
    by rewrite (replace_all_absent 62 _ s).
Qed.

Lemma support_sanitizeContent_escapes_witness :
  let quoted : list N := [32; 34; 97; 39]%N in
  (60%N ∉ quoted) ∧ (62%N ∉ quoted)
  ∧ support_sanitizeContent quoted = quoted
  ∧ support_sanitizeContent [60; 97; 62]%N
    = [38; 108; 116; 59; 97; 38; 103; 116; 59]%N.
Proof.
  intros quoted.
  assert (60%N ∉ quoted) as H1.
  { unfold quoted. intros Hx.
    repeat (apply elem_of_cons in Hx as [Hx|Hx]; [done|]). by apply elem_of_nil in Hx. }
  assert (62%N ∉ quoted) as H2.
  { unfold quoted. intros Hx.
    repeat (apply elem_of_cons in Hx as [Hx|Hx]; [done|]). by apply elem_of_nil in Hx. }
  destruct (support_sanitizeContent_escapes quoted) as (_ & _ & A).
  split_and!; [exact H1 | exact H2 | | vm_compute; reflexivity].
  rewrite (A (conj H1 H2)). vm_compute; reflexivity.
Defined.

(** ** The one-to-one call handler *)


Lemma reg_find_None {V} (p : V → bool) (r : list (nat * V)) :
  (∀ k v, (k, v) ∈ r → p v = false) → reg_find p r = None.
Proof.
  intros H. destruct (reg_find p r) as [[k v]|] eqn:E; [|done].
  apply reg_find_Some in E as [Hin Hp]. rewrite (H _ _ Hin) in Hp. done.
Qed.

Lemma reg_delete_set_fresh {V} k (v : V) (r : list (nat * V)) :
  reg_get k r = None → reg_delete k (reg_set k v r) = r.
Proof.
  induction r as [|[k0 v0] r IH]; simpl.
  - intros _. by rewrite decide_True.
  - destruct (decide (k0 = k)) as [->|Hne]; [done|]. intros Hr. simpl.
    rewrite decide_False by done. by rewrite IH.
Qed.

Lemma legacy_isUserInCall_true st u :
  Legacy.isUserInCall st u = true ↔
  ∃ k c, (k, c) ∈ Legacy.activeCalls st ∧ (k = u ∨ Legacy.targetUserId c = u).
Proof.
  unfold Legacy.isUserInCall. rewrite existsb_exists. split.
  - intros ([k c] & Hin & Hb). apply bool_decide_eq_true in Hb.
    exists k, c. split; [by apply list_elem_of_In | done].
  - intros (k & c & Hin & H). exists (k, c).
    split; [by apply list_elem_of_In | by apply bool_decide_eq_true].
Qed.

Lemma legacy_isUserInCall_false st u :
  Legacy.isUserInCall st u = false ↔
  ∀ k c, (k, c) ∈ Legacy.activeCalls st → k ≠ u ∧ Legacy.targetUserId c ≠ u.
Proof.
  rewrite <- not_true_iff_false, legacy_isUserInCall_true. split.
  - intros H k c Hin. split; intros E; apply H; exists k, c; auto.
  - intros H (k & c & Hin & [E|E]); destruct (H k c Hin); done.
Qed.

Lemma legacy_free_no_key st u :
  Legacy.isUserInCall st u = false → reg_get u (Legacy.activeCalls st) = None.
Proof.
  rewrite legacy_isUserInCall_false. intros H. apply reg_get_None_keys.
  intros Hin. apply list_elem_of_fmap in Hin as ([k c] & -> & Hin).
  by destruct (H _ _ Hin).
Qed.








Lemma legacy_endFor_outside st u reason :
  Legacy.isUserInCall st u = false → Legacy.endFor st u reason = (st, []).
Proof.
  intros Hu. unfold Legacy.endFor, Legacy.findCall.
  rewrite (legacy_free_no_key _ _ Hu). rewrite legacy_isUserInCall_false in Hu.
  rewrite reg_find_None; [done|].
  intros k v Hin. apply bool_decide_eq_false. by destruct (Hu _ _ Hin).
Qed.


Lemma legacy_checks_pass st s target :
  Legacy.isUserInCall st (userId s) = false →
  Legacy.isUserInCall st target = false →
  Legacy.getUserSockets st target ≠ [] →
  Legacy.handleCallRequest_checks st s target = inr (Legacy.getUserSockets st target).
Proof.
  intros H1 H2 H3. unfold Legacy.handleCallRequest_checks. rewrite H1, H2.
  rewrite bool_decide_false; [done|].
  intros E. apply H3. by apply nil_length_inv.
Qed.

Lemma legacy_request_ok dir st s target off :
  Legacy.isUserInCall st (userId s) = false →
  Legacy.isUserInCall st target = false →
  Legacy.getUserSockets st target ≠ [] →
  Legacy.handleCallRequest dir st s target off
  = (Legacy.with_calls
       (reg_set (userId s)
          {| Legacy.targetUserId := target; Legacy.status := Legacy.ringing;
             Legacy.offer := off |}) st,
     Legacy.emit_user st target
       (Legacy.call_incoming (userId s) (getUserName dir (userId s)) off)).
Proof.
  intros H1 H2 H3. unfold Legacy.handleCallRequest.
  rewrite (legacy_checks_pass st s target H1 H2 H3).
  unfold Legacy.handleCallRequest_resume, Legacy.emit_user. do 2 f_equal.
  apply filter_all. intros x Hx. by apply list_elem_of_filter in Hx as [_ Hx].
Qed.







(** X24. A user who is in no call changes nothing by hanging up or by
    disconnecting: the registry stays and nobody is notified. *)
Theorem legacy_outsider_changes_nothing dir st s reason :
  Legacy.isUserInCall st (userId s) = false →
  Legacy.run dir st (Legacy.ECallEnd s reason) = (st, [])
  ∧ Legacy.run dir st (Legacy.EDisconnect s) = (Legacy.transport_remove s st, []).
Proof.
  intros Hu. simpl. unfold Legacy.handleDisconnection, Legacy.handleCallEnd.
  split; by apply legacy_endFor_outside.
Qed.

Lemma legacy_outsider_changes_nothing_witness :
  Legacy.isUserInCall Legacy.st_one 3 = false
  ∧ Legacy.run no_names Legacy.st_one (Legacy.ECallEnd (sock 30 3) (Some "bye"%string))
    = (Legacy.st_one, [])
  ∧ Legacy.activeCalls
      (Legacy.run no_names Legacy.st_one (Legacy.EDisconnect (sock 30 3))).1
    = Legacy.activeCalls Legacy.st_one.
Proof.
  destruct (legacy_outsider_changes_nothing no_names Legacy.st_one (sock 30 3)
              (Some "bye"%string) eq_refl) as [A B].
  split_and!; [reflexivity | exact A | by rewrite B].
Defined.

(** X25. While a call rings, both its parties are taken: a further
    request by the caller or by the target, or to either of them, changes
    nothing and is answered to the asking socket alone, with [call_error]
    or [call_busy]. *)
Theorem legacy_busy_while_ringing dir st s target off s2 t2 off2 :
  Legacy.isUserInCall st (userId s) = false →
  Legacy.isUserInCall st target = false →
  Legacy.getUserSockets st target ≠ [] →
  userId s2 = userId s ∨ userId s2 = target ∨ t2 = userId s ∨ t2 = target →
  let st1 := (Legacy.handleCallRequest dir st s target off).1 in
  let r := Legacy.handleCallRequest dir st1 s2 t2 off2 in
  Legacy.isUserInCall st1 (userId s) = true
  ∧ Legacy.isUserInCall st1 target = true
  ∧ r.1 = st1
  ∧ (r.2 = [(sock_id s2, Legacy.call_error "Ya estás en una llamada")]
     ∨ r.2 = [(sock_id s2, Legacy.call_busy t2)]).
Proof.
  intros H1 H2 H3 Hwho st1 r. unfold r, st1.
  rewrite (legacy_request_ok dir st s target off H1 H2 H3). simpl.
  set (c := {| Legacy.targetUserId := target; Legacy.status := Legacy.ringing;
               Legacy.offer := off |}).
  set (st' := Legacy.with_calls (reg_set (userId s) c) st).
  assert ((userId s, c) ∈ Legacy.activeCalls st') as Hin.
  { simpl. rewrite reg_set_fresh by (by apply legacy_free_no_key).
    apply elem_of_app. right. apply list_elem_of_here. }
  assert (Legacy.isUserInCall st' (userId s) = true) as A.
  { apply legacy_isUserInCall_true. exists (userId s), c. auto. }
  assert (Legacy.isUserInCall st' target = true) as B.
  { apply legacy_isUserInCall_true. exists (userId s), c. auto. }
  split_and!; [done | done | |];
    unfold Legacy.handleCallRequest, Legacy.handleCallRequest_checks.
  - destruct (Legacy.isUserInCall st' (userId s2)) eqn:E2; [done|].
    destruct (Legacy.isUserInCall st' t2) eqn:E3; [done|].
    destruct Hwho as [E|[E|[E|E]]]; congruence.
  - destruct (Legacy.isUserInCall st' (userId s2)) eqn:E2; [by left|].
    destruct (Legacy.isUserInCall st' t2) eqn:E3; [by right|].
    destruct Hwho as [E|[E|[E|E]]]; congruence.
Qed.

Lemma legacy_busy_while_ringing_witness :
  let st1 := (Legacy.handleCallRequest no_names Legacy.st_idle (sock 10 1) 2 7).1 in
  let r := Legacy.handleCallRequest no_names st1 (sock 30 3) 2 8 in
  Legacy.isUserInCall Legacy.st_idle 1 = false
  ∧ Legacy.getUserSockets Legacy.st_idle 2 ≠ []
  ∧ st1 = Legacy.st_one
  ∧ r.1 = st1
  ∧ r.2 = [(30, Legacy.call_busy 2)].
Proof.
  intros st1 r.
  assert (Legacy.getUserSockets Legacy.st_idle 2 ≠ []) as H3 by done.
  destruct (legacy_busy_while_ringing no_names Legacy.st_idle (sock 10 1) 2 7
              (sock 30 3) 2 8 eq_refl eq_refl H3) as (_ & _ & A & _); [auto|].
  split_and!; [reflexivity | done | reflexivity | exact A | reflexivity].
Defined.

(** X26. A request that rings followed by a reject that names the caller
    puts the registry back as it was, whoever sends the reject; every
    socket of the caller is told [call_rejected] with the user of the
    rejecting socket. *)
Theorem legacy_request_then_reject dir st s target off s2 :
  Legacy.isUserInCall st (userId s) = false →
  Legacy.isUserInCall st target = false →
  Legacy.getUserSockets st target ≠ [] →
  let st1 := (Legacy.handleCallRequest dir st s target off).1 in
  let r := Legacy.handleCallReject st1 s2 (userId s) in
  r.1 = st
  ∧ r.2 = Legacy.emit_user st (userId s) (Legacy.call_rejected (userId s2)).
Proof.
  intros H1 H2 H3 st1 r. unfold r, st1.
  rewrite (legacy_request_ok dir st s target off H1 H2 H3). simpl.
  unfold Legacy.handleCallReject. simpl. split; [|done].
  unfold Legacy.with_calls. simpl.
  rewrite reg_delete_set_fresh by (by apply legacy_free_no_key). by destruct st.
Qed.

Lemma legacy_request_then_reject_witness :
  let st1 := (Legacy.handleCallRequest no_names Legacy.st_idle (sock 10 1) 2 7).1 in
  let r := Legacy.handleCallReject st1 (sock 30 3) 1 in
  Legacy.isUserInCall Legacy.st_idle 2 = false
  ∧ Legacy.getUserSockets Legacy.st_idle 2 ≠ []
  ∧ Legacy.activeCalls st1 ≠ []
  ∧ r.1 = Legacy.st_idle
  ∧ r.2 = [(10, Legacy.call_rejected 3)].
Proof.
  intros st1 r.
  assert (Legacy.getUserSockets Legacy.st_idle 2 ≠ []) as H3 by done.
  destruct (legacy_request_then_reject no_names Legacy.st_idle (sock 10 1) 2 7
              (sock 30 3) eq_refl eq_refl H3) as [A B].
  split_and!; [reflexivity | done | done | exact A | exact B].
Defined.

(** X27. Two requests for the same target that overlap both go through:
    when two different callers and the target are free and the target is
    connected, and the second request arrives while the first waits for
    the caller's name, neither is refused, both calls are stored, and the
    target is a party of two calls. *)
Theorem legacy_overlapping_requests dir st s1 s2 target off1 off2 :
  Legacy.isUserInCall st (userId s1) = false →
  Legacy.isUserInCall st (userId s2) = false →
  Legacy.isUserInCall st target = false →
  Legacy.getUserSockets st target ≠ [] →
  userId s1 ≠ userId s2 →
  let ts := Legacy.getUserSockets st target in
  let evs := Legacy.overlapping s1 s2 target off1 off2 ts in
  let st' := foldl (λ st ev, (Legacy.run dir st ev).1) st evs in
  Legacy.run dir st (Legacy.ECallRequest s1 target off1) = (st, [])
  ∧ Legacy.run dir st (Legacy.ECallRequest s2 target off2) = (st, [])
  ∧ reg_get (userId s1) (Legacy.activeCalls st')
    = Some {| Legacy.targetUserId := target; Legacy.status := Legacy.ringing;
              Legacy.offer := off1 |}
  ∧ reg_get (userId s2) (Legacy.activeCalls st')
    = Some {| Legacy.targetUserId := target; Legacy.status := Legacy.ringing;
              Legacy.offer := off2 |}
  ∧ ¬ Legacy.exclusive st'.
Proof.
  intros H1 H2 Ht Hs Hne ts evs st'.
  assert (Legacy.run dir st (Legacy.ECallRequest s1 target off1) = (st, [])) as R1.
  { simpl. by rewrite (legacy_checks_pass st s1 target H1 Ht Hs). }
  assert (Legacy.run dir st (Legacy.ECallRequest s2 target off2) = (st, [])) as R2.
  { simpl. by rewrite (legacy_checks_pass st s2 target H2 Ht Hs). }
  assert (st' = Legacy.with_calls
                  (reg_set (userId s2)
                     {| Legacy.targetUserId := target; Legacy.status := Legacy.ringing;
                        Legacy.offer := off2 |})
                  (Legacy.with_calls
                     (reg_set (userId s1)
                        {| Legacy.targetUserId := target;
                           Legacy.status := Legacy.ringing; Legacy.offer := off1 |}) st))
    as ->.
  { unfold st', evs, Legacy.overlapping. cbn [foldl]. rewrite R1. cbn [fst].
    rewrite R2. done. }
  assert (reg_get (userId s1)
            (reg_set (userId s2)
               {| Legacy.targetUserId := target; Legacy.status := Legacy.ringing;
                  Legacy.offer := off2 |}
               (reg_set (userId s1)
                  {| Legacy.targetUserId := target; Legacy.status := Legacy.ringing;
                     Legacy.offer := off1 |} (Legacy.activeCalls st)))
          = Some {| Legacy.targetUserId := target; Legacy.status := Legacy.ringing;
                    Legacy.offer := off1 |}) as G1.
  { rewrite reg_get_set, decide_False by done. by rewrite reg_get_set, decide_True. }
  assert (reg_get (userId s2)
            (reg_set (userId s2)
               {| Legacy.targetUserId := target; Legacy.status := Legacy.ringing;
                  Legacy.offer := off2 |}
               (reg_set (userId s1)
                  {| Legacy.targetUserId := target; Legacy.status := Legacy.ringing;
                     Legacy.offer := off1 |} (Legacy.activeCalls st)))
          = Some {| Legacy.targetUserId := target; Legacy.status := Legacy.ringing;
                    Legacy.offer := off2 |}) as G2.
  { by rewrite reg_get_set, decide_True. }
  split_and!; [done | done | exact G1 | exact G2 |].
  intros [_ Hex]. apply reg_get_Some_elem in G1. apply reg_get_Some_elem in G2.
  destruct (Hex _ _ _ _ G1 G2 Hne) as (_ & _ & Hdiff). by apply Hdiff.
Qed.

Lemma legacy_overlapping_requests_witness :
  let ts := Legacy.getUserSockets Legacy.st_idle 2 in
  let evs := Legacy.overlapping (sock 10 1) (sock 30 3) 2 7 8 ts in
  let st' := foldl (λ st ev, (Legacy.run no_names st ev).1) Legacy.st_idle evs in
  Legacy.isUserInCall Legacy.st_idle 2 = false
  ∧ Legacy.getUserSockets Legacy.st_idle 2 ≠ []
  ∧ (Legacy.activeCalls st').*1 = [1; 3]
  ∧ Legacy.targetUserId <$> reg_get 1 (Legacy.activeCalls st') = Some 2
  ∧ Legacy.targetUserId <$> reg_get 3 (Legacy.activeCalls st') = Some 2
  ∧ ¬ Legacy.exclusive st'.
Proof.
  intros ts evs st'.
  assert (Legacy.getUserSockets Legacy.st_idle 2 ≠ []) as H3 by done.
  destruct (legacy_overlapping_requests no_names Legacy.st_idle (sock 10 1) (sock 30 3)
              2 7 8 eq_refl eq_refl eq_refl H3) as (_ & _ & G1 & G2 & Hn); [done|].
  split_and!; [reflexivity | done | reflexivity | | | exact Hn].
  - fold ts evs st' in G1. change (userId (sock 10 1)) with 1 in G1. by rewrite G1.
  - fold ts evs st' in G2. change (userId (sock 30 3)) with 3 in G2. by rewrite G2.
Defined.
